(** * ingest-clone: the selector, the walker and the renderer, embedded in Rocq

    The development follows the Go packages of the repository:
    - [Go]        : the parts of the Go standard library the code calls
                    ([strings], [path/filepath], [fmt], 64-bit integers), on Unix;
    - [config]    : [Config], [Stats], [ShouldInclude], [ShouldExclude],
                    [ParsePatterns], [FileExists], [DirExists];
    - [analyzer]  : [FileSystemNode], [ProcessPath], [processDirectory],
                    [processFile], [isBinaryFile], [sortChildren];
    - [formatter] : [formatSummary], [formatDirectoryStructure], [buildTree],
                    [formatFileContents], [estimateTokens], [formatTokenCount],
                    [formatSize], [FormatResults];
    - [utils]     : [IsTextFile], [FormatSize], [FormatTokenCount];
    - [cli]       : the configuration [main] builds from the flags and its
                    check of the source path.

    Strings are byte strings ([string] of [ascii]), as Go strings are.  The file
    system is a value: a tree of directory entries, each carrying the outcome of
    the operating-system calls the analyzer performs on it. *)

From Stdlib Require Import ZArith List String Ascii Bool Lia.
From Stdlib Require Import Sorting.Sorted Sorting.Permutation.
From Stdlib Require Import Numbers.DecimalString Numbers.DecimalPos.
From Stdlib Require Import Floats.SpecFloat.
Import ListNotations.

Set Warnings "-register-all".

Open Scope string_scope.
Open Scope Z_scope.

(* ================================================================== *)
(** * The Go runtime and standard library, as far as the code uses them *)
(* ================================================================== *)

Module Go.

(** ** Machine integers: [int] and [int64] are 64-bit two's complement. *)

Definition wrap64 (z : Z) : Z := (z + 2 ^ 63) mod 2 ^ 64 - 2 ^ 63.

Definition add64 (a b : Z) : Z := wrap64 (a + b).

Definition in_int64 (z : Z) : Prop := - 2 ^ 63 <= z < 2 ^ 63.

(** [len(s)] *)
Definition len (s : string) : Z := Z.of_nat (String.length s).

(** ** Bytes *)

Definition byte_eqb (a b : ascii) : bool := Ascii.eqb a b.

Definition code (a : ascii) : N := N_of_ascii a.

Definition is_sep (a : ascii) : bool := byte_eqb a "/"%char.

(** ** package strings *)

(** [strings.ToLower], on ASCII letters.  (Go also maps the letters outside
    ASCII; the names and extensions compared here are byte strings and the
    table they are looked up in is ASCII.) *)
Definition lower_byte (a : ascii) : ascii :=
  if (N.leb 65 (code a) && N.leb (code a) 90)%bool
  then ascii_of_N (code a + 32) else a.

Fixpoint ToLower (s : string) : string :=
  match s with
  | EmptyString => EmptyString
  | String a r => String (lower_byte a) (ToLower r)
  end.

(** [strings.HasPrefix(s, p)] *)
Definition HasPrefix (s p : string) : bool := String.prefix p s.

Fixpoint rev_string (s : string) : string :=
  match s with
  | EmptyString => EmptyString
  | String a r => rev_string r ++ String a EmptyString
  end.

(** [strings.HasSuffix(s, suf)] *)
Definition HasSuffix (s suf : string) : bool :=
  String.prefix (rev_string suf) (rev_string s).

(** [strings.TrimSuffix(s, suf)] *)
Definition TrimSuffix (s suf : string) : string :=
  if HasSuffix s suf
  then String.substring 0 (String.length s - String.length suf) s
  else s.

(** [strings.Contains(s, sub)] for a one-byte [sub]. *)
Fixpoint ContainsByte (s : string) (b : ascii) : bool :=
  match s with
  | EmptyString => false
  | String a r => byte_eqb a b || ContainsByte r b
  end.

(** [strings.Count(s, sub)] for a one-byte [sub]. *)
Fixpoint CountByte (s : string) (b : ascii) : Z :=
  match s with
  | EmptyString => 0
  | String a r => (if byte_eqb a b then 1 else 0) + CountByte r b
  end.

(** String comparison [a > b]: lexicographic on bytes. *)
Definition string_gt (a b : string) : bool := String.ltb b a.

(** The first [n] bytes of [s] ([s[:n]], or all of [s] when it is shorter). *)
Fixpoint take (n : nat) (s : string) : string :=
  match n, s with
  | S n', String a r => String a (take n' r)
  | _, _ => EmptyString
  end.

(** ** package path/filepath (Unix: the separator is [/], no volume names) *)

(** [filepath.Split]: the directory part, up to and including the last
    separator, and the file part after it. *)
Fixpoint Split (p : string) : string * string :=
  match p with
  | EmptyString => (EmptyString, EmptyString)
  | String a r =>
      let (d, f) := Split r in
      match d with
      | EmptyString => if is_sep a then (String a EmptyString, f)
                       else (EmptyString, String a f)
      | _ => (String a d, f)
      end
  end.

(** The elements of a path between separators ([strings.Split(p, "/")]). *)
Fixpoint elements (p : string) : list string :=
  match p with
  | EmptyString => [EmptyString]
  | String a r =>
      if is_sep a then EmptyString :: elements r
      else match elements r with
           | h :: t => String a h :: t
           | [] => [String a EmptyString]
           end
  end.

(** [strings.Join(l, "/")] *)
Fixpoint join_sep (l : list string) : string :=
  match l with
  | [] => EmptyString
  | [x] => x
  | x :: t => x ++ "/" ++ join_sep t
  end.

(** One element read by [filepath.Clean]; [out] holds the elements written so
    far, last one first.  Empty and [.] elements are dropped; [..] removes the
    element before it, is dropped at the root, and is kept at the start of a
    path that is not rooted. *)
Definition clean_step (rooted : bool) (out : list string) (e : string) : list string :=
  if String.eqb e "" || String.eqb e "." then out
  else if String.eqb e ".." then
    match out with
    | top :: below => if String.eqb top ".." then e :: out else below
    | [] => if rooted then [] else [e]
    end
  else e :: out.

(** [filepath.Clean] *)
Definition Clean (p : string) : string :=
  match p with
  | EmptyString => "."
  | String a _ =>
      let rooted := is_sep a in
      let body := join_sep (rev (fold_left (clean_step rooted) (elements p) [])) in
      if rooted then "/" ++ body
      else if String.eqb body "" then "." else body
  end.

(** [filepath.Join] of two elements: the elements from the first non-empty
    one on are joined with a separator and cleaned. *)
Definition Join (a b : string) : string :=
  match a with
  | EmptyString =>
      match b with
      | EmptyString => EmptyString
      | _ => Clean b
      end
  | _ => Clean (a ++ "/" ++ b)
  end.

(** [filepath.Dir] *)
Definition Dir (p : string) : string := Clean (fst (Split p)).

(** Trailing separators removed (the first loop of [filepath.Base]). *)
Fixpoint strip_trailing_seps (p : string) : string :=
  match p with
  | EmptyString => EmptyString
  | String a r =>
      match strip_trailing_seps r with
      | EmptyString => if is_sep a then EmptyString else String a EmptyString
      | r' => String a r'
      end
  end.

(** [filepath.Base] *)
Definition Base (p : string) : string :=
  match p with
  | EmptyString => "."
  | _ =>
      match snd (Split (strip_trailing_seps p)) with
      | EmptyString =>
          match strip_trailing_seps p with
          | EmptyString => "/"
          | _ => EmptyString
          end
      | f => f
      end
  end.

(** The suffix of [f] from its last dot on, if [f] has a dot. *)
Fixpoint last_dot_suffix (f : string) : option string :=
  match f with
  | EmptyString => None
  | String a r =>
      match last_dot_suffix r with
      | Some e => Some e
      | None => if byte_eqb a "."%char then Some f else None
      end
  end.

(** [filepath.Ext]: the suffix beginning at the final dot in the final element
    of the path; empty if there is no dot. *)
Definition Ext (p : string) : string :=
  match last_dot_suffix (snd (Split p)) with
  | Some e => e
  | None => EmptyString
  end.

(** ** [filepath.Match]: shell file-name patterns

    The pattern is read chunk by chunk; a chunk is a run of one-byte operators
    (literals, [?], classes [[...]], escapes) that may be preceded by stars.
    Runes are taken to be single bytes (exact on ASCII names and patterns). *)

Definition backslash : ascii := ascii_of_N 92.

(** The leading stars of a pattern ([scanChunk], first loop). *)
Fixpoint strip_stars (p : string) : bool * string :=
  match p with
  | String a r =>
      if byte_eqb a "*"%char then (true, snd (strip_stars r)) else (false, p)
  | EmptyString => (false, p)
  end.

(** The chunk up to the next star outside a class ([scanChunk], second loop). *)
Fixpoint scan_to_star (inrange : bool) (p : string) : string * string :=
  match p with
  | EmptyString => (EmptyString, EmptyString)
  | String a r =>
      if byte_eqb a backslash then
        match r with
        | EmptyString => (String a EmptyString, EmptyString)
        | String b r' =>
            let (c, rest) := scan_to_star inrange r' in (String a (String b c), rest)
        end
      else if byte_eqb a "["%char then
        let (c, rest) := scan_to_star true r in (String a c, rest)
      else if byte_eqb a "]"%char then
        let (c, rest) := scan_to_star false r in (String a c, rest)
      else if byte_eqb a "*"%char then
        if inrange then let (c, rest) := scan_to_star inrange r in (String a c, rest)
        else (EmptyString, p)
      else let (c, rest) := scan_to_star inrange r in (String a c, rest)
  end.

Definition scanChunk (pattern : string) : bool * string * string :=
  let (star, p) := strip_stars pattern in
  let (chunk, rest) := scan_to_star false p in
  (star, chunk, rest).

(** [getEsc]: one, possibly escaped, byte of a class; [None] is [ErrBadPattern]. *)
Definition getEsc (chunk : string) : option (N * string) :=
  match chunk with
  | EmptyString => None
  | String a r =>
      if byte_eqb a "-"%char || byte_eqb a "]"%char then None
      else
        let after_escape := if byte_eqb a backslash then r else chunk in
        match after_escape with
        | EmptyString => None
        | String b EmptyString => None
        | String b nchunk => Some (code b, nchunk)
        end
  end.

(** The ranges of a class, up to its closing bracket. [r] is the byte of the
    name under test (0 once the match has failed). *)
Fixpoint class_ranges (fuel : nat) (r : N) (chunk : string) (nrange : nat)
    (matched : bool) : option (bool * string) :=
  match fuel with
  | O => None
  | S fuel' =>
      match chunk, nrange with
      | String a rest, S _ =>
          if byte_eqb a "]"%char then Some (matched, rest)
          else class_range fuel' r chunk nrange matched
      | _, _ => class_range fuel' r chunk nrange matched
      end
  end
with class_range (fuel : nat) (r : N) (chunk : string) (nrange : nat)
    (matched : bool) : option (bool * string) :=
  match fuel with
  | O => None
  | S fuel' =>
      match getEsc chunk with
      | None => None
      | Some (lo, chunk1) =>
          let bounds :=
            match chunk1 with
            | String a after =>
                if byte_eqb a "-"%char then getEsc after else Some (lo, chunk1)
            | EmptyString => Some (lo, chunk1)
            end in
          match bounds with
          | None => None
          | Some (hi, chunk2) =>
              class_ranges fuel' r chunk2 (S nrange)
                (matched || (N.leb lo r && N.leb r hi))
          end
      end
  end.

Inductive chunk_result :=
| Matched (rest : string)
| NoMatch
| BadPattern.

(** [matchChunk]: does [chunk] match a prefix of [s]?  After the match has
    failed the chunk is still read to its end, to report a malformed pattern. *)
Fixpoint matchChunk_loop (fuel : nat) (chunk s : string) (failed : bool) : chunk_result :=
  match fuel with
  | O => BadPattern
  | S fuel' =>
      match chunk with
      | EmptyString => if failed then NoMatch else Matched s
      | String c chunk1 =>
          let failed := failed || String.eqb s "" in
          if byte_eqb c "["%char then
            let (r, s1) :=
              match s with
              | String b s' => if failed then (0%N, s) else (code b, s')
              | EmptyString => (0%N, s)
              end in
            let (negated, chunk2) :=
              match chunk1 with
              | String n chunk2 =>
                  if byte_eqb n "^"%char then (true, chunk2) else (false, chunk1)
              | EmptyString => (false, chunk1)
              end in
            match class_ranges (2 * S (String.length chunk2)) r chunk2 O false with
            | None => BadPattern
            | Some (matched, chunk3) =>
                matchChunk_loop fuel' chunk3 s1 (failed || Bool.eqb matched negated)
            end
          else if byte_eqb c "?"%char then
            match s with
            | String b s' =>
                if failed then matchChunk_loop fuel' chunk1 s failed
                else matchChunk_loop fuel' chunk1 s' (is_sep b)
            | EmptyString => matchChunk_loop fuel' chunk1 s failed
            end
          else
            let literal :=
              if byte_eqb c backslash then
                match chunk1 with
                | EmptyString => None
                | String d chunk2 => Some (d, chunk2)
                end
              else Some (c, chunk1) in
            match literal with
            | None => BadPattern
            | Some (d, chunk2) =>
                match s with
                | String b s' =>
                    if failed then matchChunk_loop fuel' chunk2 s failed
                    else matchChunk_loop fuel' chunk2 s' (negb (byte_eqb d b))
                | EmptyString => matchChunk_loop fuel' chunk2 s failed
                end
            end
      end
  end.

Definition matchChunk (chunk s : string) : chunk_result :=
  matchChunk_loop (S (String.length chunk)) chunk s false.

(** The search after a star: the chunk is tried after skipping [i+1] bytes of
    the name, for each [i] up to the first separator. [last] says that the
    pattern has no further chunk, so the name must be used up. *)
Fixpoint star_search (chunk : string) (last : bool) (name : string) : chunk_result :=
  match name with
  | EmptyString => NoMatch
  | String a r =>
      if is_sep a then NoMatch
      else
        match matchChunk chunk r with
        | Matched t =>
            if last && negb (String.eqb t "") then star_search chunk last r
            else Matched t
        | BadPattern => BadPattern
        | NoMatch => star_search chunk last r
        end
  end.

Fixpoint Match_loop (fuel : nat) (pattern name : string) : bool :=
  match fuel with
  | O => false
  | S fuel' =>
      match pattern with
      | EmptyString => String.eqb name ""
      | _ =>
          let '(star, chunk, rest) := scanChunk pattern in
          if star && String.eqb chunk "" then negb (ContainsByte name "/"%char)
          else
            let last := String.eqb rest "" in
            let try_star :=
              if star then
                match star_search chunk last name with
                | Matched t => Match_loop fuel' rest t
                | _ => false
                end
              else false in
            match matchChunk chunk name with
            | Matched t =>
                if String.eqb t "" || negb last then Match_loop fuel' rest t
                else try_star
            | BadPattern => false
            | NoMatch => try_star
            end
      end
  end.

(** [filepath.Match], its [matched] result; a malformed pattern, which makes
    Go return [ErrBadPattern] with [matched = false], gives [false]. *)
Definition Match (pattern name : string) : bool :=
  Match_loop (S (String.length pattern)) pattern name.

(** ** More of package strings *)

(** The ASCII white space [strings.TrimSpace] removes: tab, line feed,
    vertical tab, form feed, carriage return, space. *)
Definition isSpace (a : ascii) : bool :=
  (N.leb 9 (code a) && N.leb (code a) 13) || N.eqb (code a) 32.

Fixpoint TrimLeftSpace (s : string) : string :=
  match s with
  | EmptyString => EmptyString
  | String a r => if isSpace a then TrimLeftSpace r else s
  end.

Fixpoint TrimRightSpace (s : string) : string :=
  match s with
  | EmptyString => EmptyString
  | String a r =>
      match TrimRightSpace r with
      | EmptyString => if isSpace a then EmptyString else String a EmptyString
      | r' => String a r'
      end
  end.

(** [strings.TrimSpace], on ASCII white space: exact on the strings without a
    byte from 128 on ([isASCII]); on others Go also removes the white space
    of Unicode. *)
Definition TrimSpace (s : string) : string := TrimRightSpace (TrimLeftSpace s).

Fixpoint isASCII (s : string) : bool :=
  match s with
  | EmptyString => true
  | String a r => N.ltb (code a) 128 && isASCII r
  end.

(** [strings.Split(s, sep)] for a one-byte [sep]. *)
Fixpoint SplitByte (sep : ascii) (s : string) : list string :=
  match s with
  | EmptyString => [EmptyString]
  | String a r =>
      if byte_eqb a sep then EmptyString :: SplitByte sep r
      else match SplitByte sep r with
           | h :: t => String a h :: t
           | [] => [String a EmptyString]
           end
  end.

End Go.

(* ================================================================== *)
(** * package config *)
(* ================================================================== *)

Module config.
Import Go.

Definition DefaultMaxFileSize : Z := 10 * 1024 * 1024.
Definition DefaultOutputFile : string := "digest.txt".
Definition DefaultDirDepth : Z := 20.
Definition DefaultMaxFiles : Z := 10000.
Definition DefaultMaxTotalSize : Z := 500 * 1024 * 1024.
Definition Separator : string := "================================================".

Record Config := mkConfig {
  Source : string;
  OutputFile : string;
  MaxFileSize : Z;
  IncludePatterns : list string;
  ExcludePatterns : list string;
  MaxDirDepth : Z;
  MaxFiles : Z;
  MaxTotalSize : Z
}.

(** The traversal-wide counters, shared by the whole recursive walk. *)
Record Stats := mkStats {
  TotalFiles : Z;
  TotalSize : Z;
  FileCount : Z;
  DirCount : Z
}.

Definition getDefaultExcludePatterns : list string :=
  [ ".git"; ".git/"; ".svn"; ".svn/"; ".hg"; ".hg/";
    ".gitignore"; ".gitattributes"; ".gitmodules";
    "node_modules"; "node_modules/";
    "vendor"; "vendor/";
    "dist"; "dist/";
    "build"; "build/";
    "*.exe"; "*.dll"; "*.so"; "*.dylib";
    "*.o"; "*.obj"; "*.a"; "*.lib";
    "*.jar"; "*.war"; "*.ear"; "*.zip";
    "*.tar.gz"; "*.rar";
    ".idea/"; ".vscode/"; ".vs/";
    "*.swp"; "*.swo";
    "*.tmp"; "*.temp";
    ".cache/"; ".sass-cache/";
    ".DS_Store"; "Thumbs.db";
    "*.log" ].

Definition NewConfig : Config :=
  {| Source := ".";
     OutputFile := DefaultOutputFile;
     MaxFileSize := DefaultMaxFileSize;
     IncludePatterns := [];
     ExcludePatterns := getDefaultExcludePatterns;
     MaxDirDepth := DefaultDirDepth;
     MaxFiles := DefaultMaxFiles;
     MaxTotalSize := DefaultMaxTotalSize |}.

(** The body of the loop shared by [ShouldInclude] and [ShouldExclude]: the
    pattern matches the base name as a glob, or it is a directory pattern
    ([dir/]) and the path starts with it. *)
Definition pattern_hits (pattern path : string) : bool :=
  if Match pattern (Base path) then true
  else HasSuffix pattern "/" && HasPrefix path (TrimSuffix pattern "/").

(** [for _, pattern := range patterns { if ... { return true } }; return false] *)
Fixpoint any_pattern_hits (patterns : list string) (path : string) : bool :=
  match patterns with
  | [] => false
  | pattern :: rest =>
      if pattern_hits pattern path then true else any_pattern_hits rest path
  end.

Definition ShouldExclude (c : Config) (path : string) : bool :=
  any_pattern_hits (ExcludePatterns c) path.

Definition ShouldInclude (c : Config) (path : string) : bool :=
  match IncludePatterns c with
  | [] => negb (ShouldExclude c path)
  | _ => any_pattern_hits (IncludePatterns c) path
  end.

(** [ParsePatterns]: the comma-separated pieces, trimmed, without the empty
    ones. *)
Fixpoint keepTrimmed (pieces : list string) : list string :=
  match pieces with
  | [] => []
  | p :: rest =>
      let p := TrimSpace p in
      if negb (String.eqb p "") then p :: keepTrimmed rest else keepTrimmed rest
  end.

Definition ParsePatterns (patterns : string) : list string :=
  if String.eqb patterns "" then []
  else keepTrimmed (SplitByte ","%char patterns).

(** ** FileExists and DirExists *)

(** What [os.Stat] answers: the kind of what is at the path, that nothing is
    there (the error satisfies [os.IsNotExist]), or another error. *)
Inductive StatResult :=
| StatOk (isDir : bool)
| StatNotExist
| StatError.

Definition IsNotExist (r : StatResult) : bool :=
  match r with
  | StatNotExist => true
  | _ => false
  end.

(** The [FileInfo] returned beside the error: nil unless the call succeeded. *)
Definition statInfo (r : StatResult) : option bool :=
  match r with
  | StatOk isDir => Some isDir
  | _ => None
  end.

(** [FileExists]; [None] is the run-time panic of [info.IsDir()] on a nil
    [FileInfo]. *)
Definition FileExists (r : StatResult) : option bool :=
  if IsNotExist r then Some false
  else match statInfo r with
       | Some isDir => Some (negb isDir)
       | None => None
       end.

Definition DirExists (r : StatResult) : option bool :=
  if IsNotExist r then Some false
  else match statInfo r with
       | Some isDir => Some isDir
       | None => None
       end.

End config.

(* ================================================================== *)
(** * The file system the analyzer reads *)
(* ================================================================== *)

Module fs.
Import Go.

(** What the operating system answers for one file: [data] is the content;
    the flags say which of the calls made on it fail ([os.Open], the first
    [Read] on the handle, [os.ReadFile]). *)
Record FileIO := mkFileIO {
  data : string;
  open_fails : bool;
  read_fails : bool;
  readfile_fails : bool
}.

(** A readable regular file holding [d]. *)
Definition regular (d : string) : FileIO :=
  {| data := d; open_fails := false; read_fails := false; readfile_fails := false |}.

(** One entry of a directory listing, as [os.ReadDir] returns it: its name,
    its kind ([entry.IsDir()]), the size its [FileInfo] reports ([None] when
    [entry.Info()] fails) and, for a directory, what [os.ReadDir] returns on
    it in turn ([None] when that fails). *)
Inductive DirEntry :=
| File (name : string) (size : option Z) (io : FileIO)
| Directory (name : string) (size : option Z) (listing : option (list DirEntry)).

(** [fs.FileInfo]: [Name()], [IsDir()], [Size()]. *)
Record FileInfo := mkFileInfo {
  infoName : string;
  infoIsDir : bool;
  infoSize : Z
}.

Definition entryName (e : DirEntry) : string :=
  match e with
  | File n _ _ => n
  | Directory n _ _ => n
  end.

Definition entryIsDir (e : DirEntry) : bool :=
  match e with
  | File _ _ _ => false
  | Directory _ _ _ => true
  end.

(** [entry.Info()] (and [os.Stat] on the source path); [None] is an error. *)
Definition entryInfo (e : DirEntry) : option FileInfo :=
  match e with
  | File n (Some sz) _ => Some (mkFileInfo n false sz)
  | Directory n (Some sz) _ => Some (mkFileInfo n true sz)
  | _ => None
  end.

(** [file.Read(buf)] with [len(buf) = n] on a freshly opened file: the first
    [n] bytes, or an error; at end of file [Read] returns [0, io.EOF]. *)
Definition Read (io : FileIO) (n : nat) : option string :=
  if read_fails io then None
  else match data io with
       | EmptyString => None
       | d => Some (take n d)
       end.

(** [os.ReadFile] *)
Definition ReadFile (io : FileIO) : option string :=
  if readfile_fails io then None else Some (data io).

(** The calls the analyzer makes on a file, in order. *)
Inductive OsCall :=
| CallOpen (path : string)
| CallRead (path : string) (n : nat)
| CallClose (path : string)
| CallReadFile (path : string).

(** The source path given to [ProcessPath]: what [os.Stat] finds there and
    what [filepath.Abs] returns for it ([None]: the call fails). *)
Record Source := mkSource {
  stat : option DirEntry;
  abs : option string
}.

End fs.

(* ================================================================== *)
(** * package analyzer *)
(* ================================================================== *)

Module analyzer.
Import Go config fs.

Inductive error :=
| ErrStat
| ErrAbs
| ErrReadDir (path : string)
| ErrReadFile (path : string).

Inductive FileSystemNode := mkNode {
  Name : string;
  Path : string;
  IsDir : bool;
  Size : Z;
  Depth : Z;
  Content : string;
  Children : list FileSystemNode;
  FileCount : Z;
  DirCount : Z
}.

Definition NewFileSystemNode (path : string) (info : FileInfo) (depth : Z) : FileSystemNode :=
  {| Name := infoName info;
     Path := path;
     IsDir := infoIsDir info;
     Size := infoSize info;
     Depth := depth;
     Content := "";
     Children := [];
     FileCount := 0;
     DirCount := 0 |}.

(** Field updates. *)
Definition setContent (n : FileSystemNode) (c : string) : FileSystemNode :=
  mkNode (Name n) (Path n) (IsDir n) (Size n) (Depth n) c (Children n) (FileCount n) (DirCount n).

Definition setChildren (n : FileSystemNode) (cs : list FileSystemNode) : FileSystemNode :=
  mkNode (Name n) (Path n) (IsDir n) (Size n) (Depth n) (Content n) cs (FileCount n) (DirCount n).

Definition setSize (n : FileSystemNode) (sz : Z) : FileSystemNode :=
  mkNode (Name n) (Path n) (IsDir n) sz (Depth n) (Content n) (Children n) (FileCount n) (DirCount n).

Definition setFileCount (n : FileSystemNode) (k : Z) : FileSystemNode :=
  mkNode (Name n) (Path n) (IsDir n) (Size n) (Depth n) (Content n) (Children n) k (DirCount n).

Definition setDirCount (n : FileSystemNode) (k : Z) : FileSystemNode :=
  mkNode (Name n) (Path n) (IsDir n) (Size n) (Depth n) (Content n) (Children n) (FileCount n) k.

Definition setTotals (s : Stats) (files size : Z) : Stats :=
  mkStats files size (config.FileCount s) (config.DirCount s).

(** ** isBinaryFile *)

Definition binaryExts : list string :=
  [ ".exe"; ".dll"; ".so"; ".dylib";
    ".obj"; ".o"; ".a"; ".lib";
    ".bin"; ".dat"; ".db"; ".sqlite";
    ".jpg"; ".jpeg"; ".png"; ".gif";
    ".pdf"; ".doc"; ".docx"; ".xls";
    ".xlsx"; ".ppt"; ".pptx"; ".zip";
    ".tar"; ".gz"; ".rar"; ".7z" ].

Definition isBinaryExt (ext : string) : bool :=
  existsb (String.eqb ext) binaryExts.

Definition NUL : ascii := ascii_of_N 0.

(** [for i := 0; i < n; i++ { if buf[i] == 0 { return true } }; return false],
    [buf] being the [n] bytes read. *)
Definition hasNul (buf : string) : bool := ContainsByte buf NUL.

Definition isBinaryFile (path : string) (io : FileIO) : bool * list OsCall :=
  let ext := ToLower (Ext path) in
  if isBinaryExt ext then (true, [])
  else if open_fails io then (true, [CallOpen path])
  else
    let calls := [CallOpen path; CallRead path 512; CallClose path] in
    match Read io 512 with
    | None => (true, calls)
    | Some buf => (hasNul buf, calls)
    end.

(** ** processFile *)

Definition processFile (node : FileSystemNode) (cfg : Config) (io : FileIO)
  : FileSystemNode * option error * list OsCall :=
  if Size node >? MaxFileSize cfg then
    (setContent node "[File too large]", None, [])
  else
    let (binary, calls) := isBinaryFile (Path node) io in
    if binary then (setContent node "[Binary file]", None, calls)
    else
      match ReadFile io with
      | None =>
          (setContent node "[Error reading file]", Some (ErrReadFile (Path node)),
           (calls ++ [CallReadFile (Path node)])%list)
      | Some content =>
          (setContent node content, None, (calls ++ [CallReadFile (Path node)])%list)
      end.

(** ** sortChildren *)

(** The condition under which [Children[i]] and [Children[j]] are swapped:
    [i] is a file and [j] a directory, or they are of the same kind and the
    lower-cased name of [i] is greater than that of [j]. *)
Definition swapNeeded (ci cj : FileSystemNode) : bool :=
  if negb (IsDir ci) && IsDir cj then true
  else Bool.eqb (IsDir ci) (IsDir cj) && string_gt (ToLower (Name ci)) (ToLower (Name cj)).

(** The inner loop, [for j := i + 1; j < len; j++]: [ci] is the current
    [Children[i]], [rest] is [Children[j:]]; the result is [Children[i]] and
    [Children[i+1:]] after the loop. *)
Fixpoint innerLoop (ci : FileSystemNode) (rest : list FileSystemNode)
  : FileSystemNode * list FileSystemNode :=
  match rest with
  | [] => (ci, [])
  | cj :: rest' =>
      if swapNeeded ci cj then
        let (m, out) := innerLoop cj rest' in (m, ci :: out)
      else
        let (m, out) := innerLoop ci rest' in (m, cj :: out)
  end.

(** The outer loop, [for i := 0; i < len-1; i++], on [Children[i:]]; [n] counts
    the iterations left. *)
Fixpoint outerLoop (n : nat) (cs : list FileSystemNode) : list FileSystemNode :=
  match n, cs with
  | S n', ci :: rest =>
      let (m, rest') := innerLoop ci rest in m :: outerLoop n' rest'
  | _, _ => cs
  end.

Definition sortedChildren (cs : list FileSystemNode) : list FileSystemNode :=
  if (Z.of_nat (List.length cs) <=? 1) then cs
  else outerLoop (List.length cs - 1) cs.

Definition sortChildren (node : FileSystemNode) : FileSystemNode :=
  setChildren node (sortedChildren (Children node)).

(** ** processDirectory *)

(** [processDirectory], given how one entry of the listing is visited;
    [listing] is what [os.ReadDir(node.Path)] returns. *)
Definition processDirectoryWith (visit : DirEntry -> FileSystemNode * Stats -> FileSystemNode * Stats)
    (listing : option (list DirEntry))
    (node : FileSystemNode) (cfg : Config) (stats : Stats)
  : FileSystemNode * Stats * option error :=
  if Depth node >=? MaxDirDepth cfg then (node, stats, None)
  else
    match listing with
    | None => (node, stats, Some (ErrReadDir (Path node)))
    | Some entries =>
        let (node', stats') := fold_left (fun st entry => visit entry st) entries (node, stats) in
        (sortChildren node', stats', None)
    end.

(** The body of [for _, entry := range entries] in [processDirectory]: the
    parent [node] and the counters before and after one entry. *)
Fixpoint visitEntry (cfg : Config) (entry : DirEntry) (st : FileSystemNode * Stats)
  {struct entry} : FileSystemNode * Stats :=
  let (node, stats) := st in
  let entryPath := Join (Path node) (entryName entry) in
  if negb (ShouldInclude cfg entryPath) || ShouldExclude cfg entryPath then st
  else
    match entryInfo entry with
    | None => st
    | Some info =>
        let child := NewFileSystemNode entryPath info (add64 (Depth node) 1) in
        match entry with
        | Directory _ _ listing =>
            let '(child', stats', err) :=
              processDirectoryWith (visitEntry cfg) listing child cfg stats in
            match err with
            | Some _ => (node, stats')
            | None =>
                let node1 := setDirCount node (add64 (DirCount node) (add64 (DirCount child') 1)) in
                let node2 := setFileCount node1 (add64 (FileCount node1) (FileCount child')) in
                let node3 := setSize node2 (add64 (Size node2) (Size child')) in
                (setChildren node3 (Children node3 ++ [child'])%list, stats')
            end
        | File _ _ io =>
            if TotalFiles stats >=? MaxFiles cfg then st
            else if add64 (TotalSize stats) (infoSize info) >? MaxTotalSize cfg then st
            else if infoSize info >? MaxFileSize cfg then st
            else
              let '(child', err, _) := processFile child cfg io in
              match err with
              | Some _ => st
              | None =>
                  let node1 := setFileCount node (add64 (FileCount node) 1) in
                  let node2 := setSize node1 (add64 (Size node1) (Size child')) in
                  let stats1 := setTotals stats (add64 (TotalFiles stats) 1)
                                           (add64 (TotalSize stats) (Size child')) in
                  (setChildren node2 (Children node2 ++ [child'])%list, stats1)
              end
        end
    end.

Definition processDirectory (listing : option (list DirEntry))
    (node : FileSystemNode) (cfg : Config) (stats : Stats)
  : FileSystemNode * Stats * option error :=
  processDirectoryWith (visitEntry cfg) listing node cfg stats.

(** ** ProcessPath *)

Definition newStats : Stats := mkStats 0 0 0 0.

Definition ProcessPath (src : Source) (cfg : Config) : option FileSystemNode * option error :=
  match stat src with
  | None => (None, Some ErrStat)
  | Some entry =>
      match entryInfo entry with
      | None => (None, Some ErrStat)
      | Some info =>
          match abs src with
          | None => (None, Some ErrAbs)
          | Some absPath =>
              let root := NewFileSystemNode absPath info 0 in
              match entry with
              | Directory _ _ listing =>
                  let '(root', _, err) := processDirectory listing root cfg newStats in
                  (Some root', err)
              | File _ _ io =>
                  let '(root', err, _) := processFile root cfg io in
                  (Some root', err)
              end
          end
      end
  end.

End analyzer.

(* ================================================================== *)
(** * package fmt: the verbs the formatter uses *)
(* ================================================================== *)

Module fmt.
Import Go.

(** The line break. *)
Definition nl : string := String (ascii_of_N 10) EmptyString.

(** [%d] *)
Definition Sprintf_d (z : Z) : string := NilZero.string_of_int (Z.to_int z).

(** ** [float64]: IEEE 754 binary64, after the Standard Library's [SpecFloat] *)

Definition float64 : Type := spec_float.

(** [float64(z)] for an integer [z]: the nearest double, ties to even. *)
Definition float64_of_int (z : Z) : float64 := binary_normalize 53 1024 z 0 false.

(** [x / y] on [float64]. *)
Definition float64_div (x y : float64) : float64 := SFdiv 53 1024 x y.

(** [num / den] rounded to the nearest integer, ties to even ([0 <= num], [0 < den]). *)
Definition round_half_even (num den : Z) : Z :=
  let q := num / den in
  let r := num mod den in
  if 2 * r <? den then q
  else if 2 * r >? den then q + 1
  else if Z.even q then q else q + 1.

(** The exact value of [|x| * 10] rounded to an integer, ties to even: the
    digits [%.1f] prints. *)
Definition tenths (x : float64) : Z :=
  match x with
  | S754_finite _ m e =>
      if 0 <=? e then 10 * Z.pos m * 2 ^ e
      else round_half_even (10 * Z.pos m) (2 ^ (- e))
  | _ => 0
  end.

(** [%.1f]: the decimal expansion of the double, rounded to one decimal. *)
Definition Sprintf_f1 (x : float64) : string :=
  match x with
  | S754_nan => "NaN"
  | S754_infinity s => if s then "-Inf" else "+Inf"
  | S754_zero s | S754_finite s _ _ =>
      (if s then "-" else "") ++
      Sprintf_d (tenths x / 10) ++ "." ++ Sprintf_d (tenths x mod 10)
  end.

End fmt.

(* ================================================================== *)
(** * package formatter *)
(* ================================================================== *)

Module formatter.
Import Go config fs analyzer fmt.

(** ** formatSize *)

(** [for n := size / unit; n >= unit; n /= unit { div *= unit; exp++ }];
    an [int64] size needs at most five rounds. *)
Fixpoint sizeLoop (fuel : nat) (n div : Z) (exp : nat) : Z * nat :=
  match fuel with
  | O => (div, exp)
  | S fuel' =>
      if n >=? 1024 then sizeLoop fuel' (Z.quot n 1024) (wrap64 (div * 1024)) (S exp)
      else (div, exp)
  end.

Definition formatSize (size : Z) : string :=
  if size <? 1024 then Sprintf_d size ++ " B"
  else
    let (div, exp) := sizeLoop 8 (Z.quot size 1024) 1024 0 in
    Sprintf_f1 (float64_div (float64_of_int size) (float64_of_int div)) ++ " " ++
    String.substring exp 1 "KMGTPE" ++ "B".

(** ** Token estimate *)

(** [countAllCharacters]; [len] counts bytes. *)
Fixpoint countAllCharacters (node : FileSystemNode) : Z :=
  if negb (IsDir node) then len (Content node)
  else
    fold_left
      (fun total child =>
         if negb (IsDir child) then add64 total (len (Content child))
         else add64 total (countAllCharacters child))
      (Children node) 0.

Definition estimateTokens (node : FileSystemNode) : Z :=
  if IsDir node then Z.quot (countAllCharacters node) 4
  else Z.quot (len (Content node)) 4.

Definition formatTokenCount (count : Z) : string :=
  if count <? 1000 then Sprintf_d count
  else if count <? 1000000 then
    Sprintf_f1 (float64_div (float64_of_int count) (float64_of_int 1000)) ++ "k"
  else
    Sprintf_f1 (float64_div (float64_of_int count) (float64_of_int 1000000)) ++ "M".

(** ** formatSummary *)

Definition summaryHead (node : FileSystemNode) : string :=
  if IsDir node then
    "Directory: " ++ Name node ++ nl ++ nl ++
    "Files analyzed: " ++ Sprintf_d (FileCount node) ++ nl ++
    "Total size: " ++ formatSize (Size node) ++ nl
  else
    "File: " ++ Name node ++ nl ++ nl ++
    "Size: " ++ formatSize (Size node) ++ nl ++
    "Lines: " ++ Sprintf_d (add64 (CountByte (Content node) (ascii_of_N 10)) 1) ++ nl.

Definition formatSummary (node : FileSystemNode) (cfg : Config) : string :=
  let summary := summaryHead node in
  let tokenCount := estimateTokens node in
  if tokenCount >? 0 then
    summary ++ nl ++ "Estimated tokens: " ++ formatTokenCount tokenCount ++ nl
  else summary.

(** ** File contents *)

Definition formatFileContent (node : FileSystemNode) : string :=
  if IsDir node then ""
  else
    let relPath := Base (Dir (Path node)) in
    let relPath := if String.eqb relPath "." then "" else relPath ++ "/" in
    Separator ++ nl ++ "FILE: " ++ relPath ++ Name node ++ nl ++ Separator ++ nl ++
    Content node ++ nl ++ nl.

(** [formatDirectoryContent]: what the call appends to the builder. *)
Fixpoint formatDirectoryContent (node : FileSystemNode) : string :=
  if negb (IsDir node) then formatFileContent node
  else String.concat "" (map formatDirectoryContent (Children node)).

Definition formatFileContents (node : FileSystemNode) : string :=
  if negb (IsDir node) then formatFileContent node
  else formatDirectoryContent node.

(** ** Directory structure *)

Section BuildChildren.

Variable build : FileSystemNode -> string -> bool -> string.
Variable childPrefix : string.

(** [for i, child := range node.Children { build(child, childPrefix, i == len-1) }] *)
Fixpoint buildChildren (cs : list FileSystemNode) : string :=
  match cs with
  | [] => ""
  | [child] => build child childPrefix true
  | child :: rest => build child childPrefix false ++ buildChildren rest
  end.

End BuildChildren.

(** [buildTree]: what the call appends to the builder. The connectors are the
    UTF-8 box-drawing strings of the source. *)
Fixpoint buildTree (node : FileSystemNode) (prefix : string) (isLast : bool) : string :=
  let currentPrefix := if isLast then "└── " else "├── " in
  let name := if IsDir node then Name node ++ "/" else Name node in
  let line := prefix ++ currentPrefix ++ name ++ nl in
  if negb (IsDir node) || (Z.of_nat (List.length (Children node)) =? 0) then line
  else
    let childPrefix := prefix ++ (if isLast then "    " else "│   ") in
    line ++ buildChildren buildTree childPrefix (Children node).

Definition formatDirectoryStructure (node : FileSystemNode) : string :=
  "Directory structure:" ++ nl ++
  (if IsDir node then buildTree node "" true
   else "└── " ++ Name node ++ nl).

(** ** FormatResults *)

Record AnalysisResult := mkAnalysisResult {
  Summary : string;
  DirectoryStructure : string;
  FileContents : string
}.

Definition FormatResults (root : FileSystemNode) (cfg : Config) : AnalysisResult :=
  {| Summary := formatSummary root cfg;
     DirectoryStructure := formatDirectoryStructure root;
     FileContents := formatFileContents root |}.

End formatter.

(* ================================================================== *)
(** * package utils *)
(* ================================================================== *)

Module utils.
Import Go fs fmt.

Definition binaryExts : list string :=
  [ ".exe"; ".dll"; ".so"; ".dylib";
    ".obj"; ".o"; ".a"; ".lib";
    ".bin"; ".dat"; ".db"; ".sqlite";
    ".jpg"; ".jpeg"; ".png"; ".gif";
    ".pdf"; ".doc"; ".docx"; ".xls";
    ".xlsx"; ".ppt"; ".pptx"; ".zip";
    ".tar"; ".gz"; ".rar"; ".7z" ].

(** [IsTextFile]; the loop over the bytes read returns false at the first
    zero byte. *)
Definition IsTextFile (path : string) (io : FileIO) : bool :=
  let ext := ToLower (Ext path) in
  if existsb (String.eqb ext) binaryExts then false
  else if open_fails io then false
  else
    match Read io 512 with
    | None => false
    | Some buf => negb (ContainsByte buf (ascii_of_N 0))
    end.

Fixpoint sizeSteps (fuel : nat) (n div : Z) (exp : nat) : Z * nat :=
  match fuel with
  | O => (div, exp)
  | S fuel' =>
      if n >=? 1024 then sizeSteps fuel' (Z.quot n 1024) (wrap64 (div * 1024)) (S exp)
      else (div, exp)
  end.

Definition FormatSize (size : Z) : string :=
  if size <? 1024 then Sprintf_d size ++ " B"
  else
    let (div, exp) := sizeSteps 8 (Z.quot size 1024) 1024 0 in
    Sprintf_f1 (float64_div (float64_of_int size) (float64_of_int div)) ++ " " ++
    String.substring exp 1 "KMGTPE" ++ "B".

Definition FormatTokenCount (count : Z) : string :=
  if count <? 1000 then Sprintf_d count
  else if count <? 1000000 then
    Sprintf_f1 (float64_div (float64_of_int count) (float64_of_int 1000)) ++ "k"
  else
    Sprintf_f1 (float64_div (float64_of_int count) (float64_of_int 1000000)) ++ "M".

End utils.

(* ================================================================== *)
(** * package main: the configuration built from the flags *)
(* ================================================================== *)

Module cli.
Import Go config.

(** The values of the flags after [flag.Parse]: the short flags, the long
    flags registered beside them (whose values [main] does not keep), and the
    positional arguments. *)
Record Flags := mkFlags {
  flag_o : string;
  flag_i : string;
  flag_e : string;
  flag_f : string;
  flag_s : Z;
  flag_output : string;
  flag_include : string;
  flag_exclude : string;
  flag_files : string;
  flag_size : Z;
  args : list string
}.

(** The configuration [main] builds (after the version and help flags). *)
Definition configFromFlags (fl : Flags) : Config :=
  let cfg := NewConfig in
  let cfg := mkConfig (Source cfg) (flag_o fl) (flag_s fl) (IncludePatterns cfg)
                      (ExcludePatterns cfg) (MaxDirDepth cfg) (MaxFiles cfg)
                      (MaxTotalSize cfg) in
  let cfg :=
    if negb (String.eqb (flag_i fl) "") then
      mkConfig (Source cfg) (OutputFile cfg) (MaxFileSize cfg) (ParsePatterns (flag_i fl))
               (ExcludePatterns cfg) (MaxDirDepth cfg) (MaxFiles cfg) (MaxTotalSize cfg)
    else cfg in
  let cfg :=
    if negb (String.eqb (flag_e fl) "") then
      mkConfig (Source cfg) (OutputFile cfg) (MaxFileSize cfg) (IncludePatterns cfg)
               (ExcludePatterns cfg ++ ParsePatterns (flag_e fl))%list
               (MaxDirDepth cfg) (MaxFiles cfg) (MaxTotalSize cfg)
    else cfg in
  match args fl with
  | source :: _ =>
      mkConfig source (OutputFile cfg) (MaxFileSize cfg) (IncludePatterns cfg)
               (ExcludePatterns cfg) (MaxDirDepth cfg) (MaxFiles cfg) (MaxTotalSize cfg)
  | [] => cfg
  end.

(** The check of the source in [main],
    [!config.FileExists(cfg.Source) && !config.DirExists(cfg.Source)]:
    [Some true] makes [main] report that the source does not exist; [None]
    is a panic. *)
Definition sourceMissing (r : StatResult) : option bool :=
  match FileExists r with
  | None => None
  | Some isFile =>
      if negb isFile then
        match DirExists r with
        | None => None
        | Some isDir => Some (negb isDir)
        end
      else Some false
  end.

End cli.

(* ================================================================== *)
(** * Vocabulary of the statements *)
(* ================================================================== *)

Import Go config fs analyzer fmt formatter.

(** [d] is a node of the tree rooted at [n]. *)
Inductive InTree (d : FileSystemNode) : FileSystemNode -> Prop :=
| InTree_here : InTree d d
| InTree_child (c n : FileSystemNode) :
    In c (Children n) -> InTree d c -> InTree d n.

(** What [processDirectory] does to the parent when it keeps a child: the
    counters are folded in and the child is appended. *)
Definition attach (node child : FileSystemNode) : FileSystemNode :=
  if IsDir child then
    let node1 := setDirCount node (add64 (DirCount node) (add64 (DirCount child) 1)) in
    let node2 := setFileCount node1 (add64 (FileCount node1) (FileCount child)) in
    let node3 := setSize node2 (add64 (Size node2) (Size child)) in
    setChildren node3 (Children node3 ++ [child])
  else
    let node1 := setFileCount node (add64 (FileCount node) 1) in
    let node2 := setSize node1 (add64 (Size node1) (Size child)) in
    setChildren node2 (Children node2 ++ [child]).

(** A child as the walk creates it under [node]. *)
Definition childOf (node child : FileSystemNode) : Prop :=
  Path child = Join (Path node) (Name child) /\
  Depth child = add64 (Depth node) 1.

(** The nodes a walk produces: a file node is a fresh node with its content
    set; a directory node is a fresh node to which the kept children were
    attached one by one, and whose children were then sorted. [N] holds of the
    names of the entries. *)
Inductive Walked (N : string -> Prop) : FileSystemNode -> Prop :=
| Walked_file (path : string) (info : FileInfo) (depth : Z) (content : string) :
    infoIsDir info = false ->
    Walked N (setContent (NewFileSystemNode path info depth) content)
| Walked_dir (path : string) (info : FileInfo) (depth : Z) (cs : list FileSystemNode) :
    infoIsDir info = true ->
    Forall (Walked N) cs ->
    Forall (fun c => N (Name c)) cs ->
    Forall (childOf (NewFileSystemNode path info depth)) cs ->
    Walked N (sortChildren (fold_left attach cs (NewFileSystemNode path info depth))).

(** The names of all entries below [e] satisfy [N]. *)
Inductive NamesIn (N : string -> Prop) : DirEntry -> Prop :=
| NamesIn_file name size io : NamesIn N (File name size io)
| NamesIn_dir name size listing :
    (forall es, listing = Some es ->
       Forall (fun e => N (entryName e) /\ NamesIn N e) es) ->
    NamesIn N (Directory name size listing).

(** The order of the children of a directory: directories before files, then
    by lower-cased name. [childLe a b] says that [a] may stand before [b]. *)
Definition childLe (a b : FileSystemNode) : bool := negb (swapNeeded a b).

(** The order the specification asks for: as [childLe], and names that are
    equal up to case are ordered byte for byte. *)
Definition specLe (a b : FileSystemNode) : bool :=
  if IsDir a && negb (IsDir b) then true
  else if negb (IsDir a) && IsDir b then false
  else if String.ltb (ToLower (Name a)) (ToLower (Name b)) then true
  else if String.ltb (ToLower (Name b)) (ToLower (Name a)) then false
  else String.leb (Name a) (Name b).

(** Every element stands before all later ones. *)
Fixpoint sortedBy (le : FileSystemNode -> FileSystemNode -> bool)
    (l : list FileSystemNode) : bool :=
  match l with
  | [] => true
  | x :: rest => forallb (le x) rest && sortedBy le rest
  end.

Definition sumZ (l : list Z) : Z := fold_right Z.add 0 l.

(** What a child adds to the file count of its directory. *)
Definition fileContribution (c : FileSystemNode) : Z :=
  if IsDir c then FileCount c else 1.


(** A file name as a directory listing holds it: not empty, not [.] or [..],
    without separator. *)
Definition simpleName (s : string) : Prop :=
  s <> "" /\ s <> "." /\ s <> ".." /\ ContainsByte s "/"%char = false.

(** The absolute path with the elements [cs]. *)
Definition absPath (cs : list string) : string := "/" ++ join_sep cs.

(** A cleaned absolute path, as [filepath.Abs] returns it. *)
Definition cleanAbs (p : string) : Prop :=
  exists cs, Forall simpleName cs /\ p = absPath cs.

(** The file nodes of a tree, in the order the file-contents section shows
    them. *)
Fixpoint fileLeaves (n : FileSystemNode) : list FileSystemNode :=
  if negb (IsDir n) then [n] else flat_map fileLeaves (Children n).

(** The exponent of the last place of a double of magnitude [2^z]. *)
Definition fexp64 : Z -> Z := fexp 53 1024.

(** One block of the file-contents section. *)
Definition fileBlock (relPath name content : string) : string :=
  Separator ++ nl ++ "FILE: " ++ relPath ++ name ++ nl ++ Separator ++ nl ++
  content ++ nl ++ nl.

(** The identity of a node: the fields the walk never changes. *)
Definition sameIdentity (a b : FileSystemNode) : Prop :=
  Name a = Name b /\ Path a = Path b /\ IsDir a = IsDir b /\
  Depth a = Depth b /\ Content a = Content b.

(** One entry either leaves the parent as it is or attaches one walked child. *)
Definition stepShape (N : string -> Prop) (cfg : Config) (e : DirEntry) : Prop :=
  forall node stats,
    fst (visitEntry cfg e (node, stats)) = node \/
    exists child,
      Walked N child /\ N (Name child) /\ childOf node child /\
      fst (visitEntry cfg e (node, stats)) = attach node child.

(** The order the walk establishes, in words: a directory stands before a
    file; two children of the same kind stand in the order of their
    lower-cased names. *)
Definition childOrder (a b : FileSystemNode) : Prop :=
  (IsDir a = true /\ IsDir b = false) \/
  (IsDir a = IsDir b /\ String.leb (ToLower (Name a)) (ToLower (Name b)) = true).

(** The tree [ProcessPath] returns, for the examples. *)
Definition treeOf (r : option FileSystemNode * option error) : FileSystemNode :=
  match fst r with
  | Some root => root
  | None => NewFileSystemNode "" (mkFileInfo "" false 0) 0
  end.

(** The sizes of all files below [e] (and of [e], when it is a file) satisfy
    [S]. *)
Inductive SizesIn (S : Z -> Prop) : DirEntry -> Prop :=
| SizesIn_file name size io :
    (forall sz, size = Some sz -> S sz) -> SizesIn S (File name size io)
| SizesIn_dir name size listing :
    (forall es, listing = Some es -> Forall (SizesIn S) es) ->
    SizesIn S (Directory name size listing).

(** What the loop of [processDirectory] keeps, with the checks it passed.
    [Kept S cfg stats child stats'] says that [child] was attached while the
    counters went from [stats] to [stats']: a file passed the selector and the
    three budgets and was counted; a directory passed the selector, its
    listing was read only below the maximum depth, and what it keeps was
    kept, in order, with the counters threaded through ([KeptList]). *)
Inductive Kept (S : Z -> Prop) (cfg : Config) : Stats -> FileSystemNode -> Stats -> Prop :=
| Kept_file (path : string) (info : FileInfo) (depth : Z) (content : string)
    (stats : Stats) :
    infoIsDir info = false ->
    ShouldInclude cfg path = true ->
    ShouldExclude cfg path = false ->
    S (infoSize info) ->
    TotalFiles stats < MaxFiles cfg ->
    add64 (TotalSize stats) (infoSize info) <= MaxTotalSize cfg ->
    infoSize info <= MaxFileSize cfg ->
    Kept S cfg stats (setContent (NewFileSystemNode path info depth) content)
      (setTotals stats (add64 (TotalFiles stats) 1)
                 (add64 (TotalSize stats) (infoSize info)))
| Kept_dir (path : string) (info : FileInfo) (depth : Z) (cs : list FileSystemNode)
    (stats stats' : Stats) :
    infoIsDir info = true ->
    ShouldInclude cfg path = true ->
    ShouldExclude cfg path = false ->
    KeptList S cfg stats cs stats' ->
    Forall (childOf (NewFileSystemNode path info depth)) cs ->
    (cs <> [] -> depth < MaxDirDepth cfg) ->
    Kept S cfg stats (sortChildren (fold_left attach cs (NewFileSystemNode path info depth)))
      stats'
with KeptList (S : Z -> Prop) (cfg : Config) : Stats -> list FileSystemNode -> Stats -> Prop :=
| KeptList_nil (stats : Stats) : KeptList S cfg stats [] stats
| KeptList_cons (stats stats1 stats2 : Stats) (c : FileSystemNode)
    (cs : list FileSystemNode) :
    Kept S cfg stats c stats1 ->
    KeptList S cfg stats1 cs stats2 ->
    KeptList S cfg stats (c :: cs) stats2.

Scheme Kept_mutual := Minimality for Kept Sort Prop
  with KeptList_mutual := Minimality for KeptList Sort Prop.

Combined Scheme Kept_KeptList_ind from Kept_mutual, KeptList_mutual.

(** One entry either leaves the parent and the counters as they are or
    attaches one kept child. *)
Definition stepKept (S : Z -> Prop) (cfg : Config) (e : DirEntry) : Prop :=
  forall node stats,
    visitEntry cfg e (node, stats) = (node, stats) \/
    exists child stats',
      Kept S cfg stats child stats' /\ childOf node child /\
      visitEntry cfg e (node, stats) = (attach node child, stats').

(** The tree of a directory walk started by [ProcessPath]: the root, at depth
    0, is not subject to the selector; its children are what the loop keeps,
    starting from fresh counters. *)
Definition KeptRoot (S : Z -> Prop) (cfg : Config) (root : FileSystemNode) : Prop :=
  exists path info cs stats',
    infoIsDir info = true /\
    KeptList S cfg newStats cs stats' /\
    Forall (childOf (NewFileSystemNode path info 0)) cs /\
    (cs <> [] -> 0 < MaxDirDepth cfg) /\
    root = sortChildren (fold_left attach cs (NewFileSystemNode path info 0)).

(** The checks a node below the root has passed: the selector at its path
    and, for a file, the maximum single-file size. *)
Definition passedChecks (S : Z -> Prop) (cfg : Config) (d : FileSystemNode) : Prop :=
  ShouldInclude cfg (Path d) = true /\
  ShouldExclude cfg (Path d) = false /\
  (IsDir d = false -> S (Size d) /\ Size d <= MaxFileSize cfg).

(** What a child adds to the directory count of its directory. *)
Definition dirContribution (c : FileSystemNode) : Z :=
  if IsDir c then DirCount c + 1 else 0.

(** [cs] are made from some of the entries [es], in their order, one node per
    entry picked. *)
Inductive Picks (R : DirEntry -> FileSystemNode -> Prop)
  : list DirEntry -> list FileSystemNode -> Prop :=
| Picks_nil : Picks R [] []
| Picks_skip (e : DirEntry) (es : list DirEntry) (cs : list FileSystemNode) :
    Picks R es cs -> Picks R (e :: es) cs
| Picks_keep (e : DirEntry) (es : list DirEntry) (c : FileSystemNode)
    (cs : list FileSystemNode) :
    R e c -> Picks R es cs -> Picks R (e :: es) (c :: cs).

(** A node of the tree below the root reflects an entry of the file system:
    a file node has the name and the size of a file entry and, as content,
    the bytes of the file or the mark of a binary file; a directory node has
    the name and the size of a directory entry and its children, before they
    are sorted, reflect some of the entries of its listing, in their order. *)
Inductive Reflects : DirEntry -> FileSystemNode -> Prop :=
| Reflects_file (name : string) (sz : Z) (io : FileIO) (path : string) (depth : Z)
    (content : string) :
    content = "[Binary file]" \/ content = data io ->
    Reflects (File name (Some sz) io)
      (setContent (NewFileSystemNode path (mkFileInfo name false sz) depth) content)
| Reflects_dir (name : string) (sz : Z) (listing : option (list DirEntry))
    (path : string) (depth : Z) (cs : list FileSystemNode) :
    cs = [] \/ (exists es, listing = Some es /\ Picks Reflects es cs) ->
    Reflects (Directory name (Some sz) listing)
      (sortChildren
         (fold_left attach cs (NewFileSystemNode path (mkFileInfo name true sz) depth))).

(** One entry either leaves the parent as it is or attaches a child that
    reflects it. *)
Definition stepReflects (cfg : Config) (e : DirEntry) : Prop :=
  forall node stats,
    fst (visitEntry cfg e (node, stats)) = node \/
    exists child,
      Reflects e child /\ fst (visitEntry cfg e (node, stats)) = attach node child.

(** The number of file nodes of a tree and the sum of their sizes. *)
Definition numFiles (n : FileSystemNode) : Z := Z.of_nat (List.length (fileLeaves n)).

Definition filesSize (n : FileSystemNode) : Z := sumZ (map Size (fileLeaves n)).

(** The number of directory nodes strictly below [n]. *)
Fixpoint dirsBelow (n : FileSystemNode) : Z :=
  sumZ (map (fun c => if IsDir c then 1 + dirsBelow c else 0) (Children n)).

(** The nodes the directory structure shows: a node, and for a directory the
    nodes below it. *)
Fixpoint shownNodes (n : FileSystemNode) : Z :=
  if IsDir n then 1 + sumZ (map shownNodes (Children n)) else 1.

(** A pattern without operators: no star, question mark, opening bracket or
    backslash. *)
Fixpoint plain (p : string) : bool :=
  match p with
  | EmptyString => true
  | String a r =>
      negb (byte_eqb a "*"%char) && negb (byte_eqb a "?"%char) &&
      negb (byte_eqb a "["%char) && negb (byte_eqb a backslash) && plain r
  end.

(** What is left of [s] after the prefix [p], if [s] starts with [p]. *)
Fixpoint afterPrefix (p s : string) : option string :=
  match p, s with
  | EmptyString, _ => Some s
  | String a p', String b s' => if byte_eqb a b then afterPrefix p' s' else None
  | String _ _, EmptyString => None
  end.

(** The patterns of the default list and of the usage examples: a name
    without operators (which may hold separators, as [vendor/] does, but does
    not start with one), or a star followed by a suffix without operators or
    separators ([*.log]). *)
Definition simplePattern (p : string) : bool :=
  match p with
  | EmptyString => true
  | String a s =>
      if byte_eqb a "*"%char
      then plain s && negb (ContainsByte s "/"%char) && negb (String.eqb s "")
      else plain p && negb (is_sep a)
  end.

(** What a simple pattern without separator asks of a base name: to end with
    the suffix after the star, or to be the pattern. *)
Definition simpleHit (p base : string) : bool :=
  match p with
  | EmptyString => String.eqb base p
  | String a s => if byte_eqb a "*"%char then HasSuffix base s else String.eqb base p
  end.

(** The number a string of decimal digits stands for, read digit by digit
    from the left; [None] when the string is empty or holds another byte. *)
Definition digitValue (a : ascii) : option Z :=
  if (N.leb 48 (code a) && N.leb (code a) 57)%bool
  then Some (Z.of_N (code a) - 48) else None.

Fixpoint decimalFrom (acc : Z) (s : string) : option Z :=
  match s with
  | EmptyString => Some acc
  | String a r =>
      match digitValue a with
      | Some v => decimalFrom (10 * acc + v) r
      | None => None
      end
  end.

Definition decimal (s : string) : option Z :=
  match s with
  | EmptyString => None
  | _ => decimalFrom 0 s
  end.


(** [s] is a number with one decimal followed by [suffix]: the digits of an
    integer part, a point and one digit; [T] is that number in tenths. *)
Definition oneDecimal (s suffix : string) (T : Z) : Prop :=
  exists w c W k,
    s = w ++ "." ++ String c suffix /\
    decimal w = Some W /\ digitValue c = Some k /\ T = 10 * W + k.

(** [cfg] with other pattern lists. *)
Definition withPatterns (cfg : Config) (include exclude : list string) : Config :=
  mkConfig (config.Source cfg) (OutputFile cfg) (MaxFileSize cfg) include exclude
           (MaxDirDepth cfg) (MaxFiles cfg) (MaxTotalSize cfg).

(* ================================================================== *)
(** * The inputs of the examples *)
(* ================================================================== *)


(** A limit of ten bytes per file. *)
Definition cfgTenBytes : Config :=
  mkConfig "." "digest.txt" 10 [] getDefaultExcludePatterns
           DefaultDirDepth DefaultMaxFiles DefaultMaxTotalSize.

(** A directory holding an eleven-byte file and a two-byte file. *)
Definition srcBigAndSmall : Source :=
  mkSource
    (Some (Directory "proj" (Some 4096)
             (Some [ File "big.txt" (Some 11) (regular "hello world");
                     File "ok.txt" (Some 2) (regular "ok") ])))
    (Some "/home/u/proj").

(** The default configuration with maximum directory depth [limit]. *)
Definition cfgDepth (limit : Z) : Config :=
  mkConfig "." "digest.txt" DefaultMaxFileSize [] getDefaultExcludePatterns
           limit DefaultMaxFiles DefaultMaxTotalSize.

(** A directory with one subdirectory that holds one file. *)
Definition srcNested : Source :=
  mkSource
    (Some (Directory "proj" (Some 4096)
             (Some [ Directory "sub" (Some 4096)
                       (Some [ File "f.txt" (Some 5) (regular "hello") ]) ])))
    (Some "/home/u/proj").

(** A directory, whose own entry has size 4096, with one file of 12 bytes. *)
Definition srcOneFile : Source :=
  mkSource
    (Some (Directory "proj" (Some 4096)
             (Some [ File "a.go" (Some 12) (regular "package main") ])))
    (Some "/home/u/proj").

(** A directory with one file directly in it and one in a subdirectory. *)
Definition srcTwoLevels : Source :=
  mkSource
    (Some (Directory "proj" (Some 4096)
             (Some [ File "a.go" (Some 12) (regular "package main");
                     Directory "cmd" (Some 4096)
                       (Some [ File "main.go" (Some 4) (regular "main") ]) ])))
    (Some "/home/u/proj").

Definition treeTwoLevels : FileSystemNode :=
  Eval vm_compute in treeOf (ProcessPath srcTwoLevels NewConfig).

(** A directory whose listing, in the order [os.ReadDir] gives it (by file
    name), holds the files [B] and [b] and the directory [z]. *)
Definition srcCaseTie : Source :=
  mkSource
    (Some (Directory "proj" (Some 4096)
             (Some [ File "B" (Some 1) (regular "1");
                     File "b" (Some 1) (regular "2");
                     Directory "z" (Some 4096) (Some []) ])))
    (Some "/home/u/proj").


(** A file that opens and whose first bytes can be read, but on which
    [os.ReadFile] fails. *)
Definition ioUnreadable : FileIO :=
  {| data := "some text"; open_fails := false; read_fails := false;
     readfile_fails := true |}.

Definition srcUnreadable : Source :=
  mkSource
    (Some (Directory "proj" (Some 4096)
             (Some [ File "bad.txt" (Some 9) ioUnreadable;
                     File "ok.txt" (Some 2) (regular "ok") ])))
    (Some "/home/u/proj").

(** The default configuration with the include pattern [*.go]. *)
Definition cfgOnlyGo : Config :=
  mkConfig "." "digest.txt" DefaultMaxFileSize ["*.go"] getDefaultExcludePatterns
           DefaultDirDepth DefaultMaxFiles DefaultMaxTotalSize.


(** The configuration [main] builds for the command line
    [-s -1 /home/u/empty.txt]: the maximum single-file size is negative. *)
Definition cfgNegativeLimit : Config :=
  cli.configFromFlags
    (cli.mkFlags "digest.txt" "" "" "" (-1) "digest.txt" "" "" "" DefaultMaxFileSize
       ["/home/u/empty.txt"]).

(** An empty file under a name that is not binary. *)
Definition srcEmptyFile : Source :=
  mkSource (Some (File "empty.txt" (Some 0) (regular "")))
           (Some "/home/u/empty.txt").

(* ================================================================== *)
(** * Machine integers *)
(* ================================================================== *)

Lemma wrap64_small (z : Z) : in_int64 z -> wrap64 z = z.
Proof.
  unfold in_int64, wrap64. intros H.
  rewrite Z.mod_small by lia. lia.
Qed.

Lemma wrap64_idem (a b : Z) : wrap64 (wrap64 a + b) = wrap64 (a + b).
Proof.
  unfold wrap64.
  replace ((a + 2 ^ 63) mod 2 ^ 64 - 2 ^ 63 + b + 2 ^ 63)
    with ((a + 2 ^ 63) mod 2 ^ 64 + b) by lia.
  rewrite Zplus_mod_idemp_l. do 2 f_equal. lia.
Qed.

Lemma add64_wrap_l (a b : Z) : add64 (wrap64 a) b = wrap64 (a + b).
Proof. unfold add64. apply wrap64_idem. Qed.

Lemma add64_small (a b : Z) : in_int64 (a + b) -> add64 a b = a + b.
Proof. intros H. unfold add64. now apply wrap64_small. Qed.


Lemma sumZ_app (l1 l2 : list Z) : sumZ (l1 ++ l2) = sumZ l1 + sumZ l2.
Proof. induction l1 as [|x l1 IH]; simpl; [reflexivity | rewrite IH; lia]. Qed.

Lemma sumZ_perm (l1 l2 : list Z) : Permutation l1 l2 -> sumZ l1 = sumZ l2.
Proof. induction 1; simpl; lia. Qed.

(* ================================================================== *)
(** * The byte order on strings *)
(* ================================================================== *)

Lemma ascii_compare_N (a b : ascii) :
  Ascii.compare a b = N.compare (N_of_ascii a) (N_of_ascii b).
Proof. reflexivity. Qed.

Lemma string_compare_refl (s : string) : String.compare s s = Eq.
Proof.
  induction s as [|a s IH]; simpl; [reflexivity|].
  rewrite ascii_compare_N, N.compare_refl. exact IH.
Qed.

Lemma string_leb_refl (s : string) : String.leb s s = true.
Proof. unfold String.leb. now rewrite string_compare_refl. Qed.

Lemma string_leb_trans (a b c : string) :
  String.leb a b = true -> String.leb b c = true -> String.leb a c = true.
Proof.
  unfold String.leb. revert b c.
  induction a as [|x a IH]; intros [|y b] [|z c]; simpl; try congruence.
  rewrite !ascii_compare_N.
  destruct (N.compare_spec (N_of_ascii x) (N_of_ascii y)) as [E1|L1|G1];
  destruct (N.compare_spec (N_of_ascii y) (N_of_ascii z)) as [E2|L2|G2];
  destruct (N.compare_spec (N_of_ascii x) (N_of_ascii z)) as [E3|L3|G3];
  try congruence; try lia; intros H1 H2.
  apply (IH b c); assumption.
Qed.

Lemma string_gt_false_leb (a b : string) :
  string_gt a b = false <-> String.leb a b = true.
Proof.
  unfold string_gt, String.ltb, String.leb.
  rewrite (String.compare_antisym a b).
  destruct (String.compare b a); simpl; split; congruence.
Qed.

Lemma string_gt_true_leb (a b : string) :
  string_gt a b = true -> String.leb b a = true.
Proof.
  unfold string_gt, String.ltb, String.leb.
  destruct (String.compare b a); congruence.
Qed.

(* ================================================================== *)
(** * sortChildren sorts *)
(* ================================================================== *)

Lemma childLe_spec (a b : FileSystemNode) :
  childLe a b = true <->
  (IsDir a = true /\ IsDir b = false) \/
  (IsDir a = IsDir b /\ String.leb (ToLower (Name a)) (ToLower (Name b)) = true).
Proof.
  unfold childLe, swapNeeded.
  destruct (IsDir a), (IsDir b); simpl;
    rewrite ?negb_true_iff, ?string_gt_false_leb; intuition congruence.
Qed.

Lemma childLe_total (a b : FileSystemNode) :
  childLe a b = false -> childLe b a = true.
Proof.
  intros H. apply childLe_spec.
  unfold childLe, swapNeeded in H. rewrite negb_false_iff in H.
  destruct (IsDir a), (IsDir b); simpl in H; try discriminate; auto;
    right; split; auto; now apply string_gt_true_leb.
Qed.

Lemma childLe_trans (a b c : FileSystemNode) :
  childLe a b = true -> childLe b c = true -> childLe a c = true.
Proof.
  rewrite !childLe_spec.
  intros [[A1 A2]|[A1 A2]] [[B1 B2]|[B1 B2]]; try congruence.
  - left. split; congruence.
  - left. split; congruence.
  - right. split; [congruence|]. eapply string_leb_trans; eassumption.
Qed.

Lemma innerLoop_min (rest : list FileSystemNode) :
  forall ci m out,
    innerLoop ci rest = (m, out) ->
    childLe m ci = true /\
    Forall (fun x => childLe m x = true) out /\
    Permutation (ci :: rest) (m :: out) /\
    List.length out = List.length rest.
Proof.
  induction rest as [|cj rest IH]; intros ci m out H; simpl in H.
  - injection H as <- <-. repeat split; auto.
    apply childLe_spec. right. split; auto. apply string_leb_refl.
  - destruct (swapNeeded ci cj) eqn:Hsw.
    + destruct (innerLoop cj rest) as [m' out'] eqn:Hin.
      injection H as <- <-.
      destruct (IH _ _ _ Hin) as (Hm & Hall & Hperm & Hlen).
      assert (Hji : childLe cj ci = true).
      { apply childLe_total. unfold childLe. now rewrite Hsw. }
      assert (Hmi : childLe m' ci = true) by (eapply childLe_trans; eassumption).
      repeat split.
      * exact Hmi.
      * constructor; assumption.
      * eapply perm_trans; [apply perm_skip; exact Hperm | apply perm_swap].
      * simpl. now rewrite Hlen.
    + destruct (innerLoop ci rest) as [m' out'] eqn:Hin.
      injection H as <- <-.
      destruct (IH _ _ _ Hin) as (Hm & Hall & Hperm & Hlen).
      assert (Hij : childLe ci cj = true) by (unfold childLe; now rewrite Hsw).
      repeat split.
      * exact Hm.
      * constructor; [eapply childLe_trans; eassumption | assumption].
      * eapply perm_trans; [apply perm_swap|].
        eapply perm_trans; [apply perm_skip; exact Hperm | apply perm_swap].
      * simpl. now rewrite Hlen.
Qed.

Lemma outerLoop_sorts (n : nat) :
  forall cs, (List.length cs <= S n)%nat ->
    StronglySorted (fun a b => childLe a b = true) (outerLoop n cs) /\
    Permutation cs (outerLoop n cs).
Proof.
  induction n as [|n IH]; intros cs Hlen.
  - destruct cs as [|c [|c' cs]]; simpl in *; try lia; split; auto;
      repeat constructor.
  - destruct cs as [|ci rest]; simpl.
    + split; [constructor | apply perm_nil].
    + destruct (innerLoop ci rest) as [m rest'] eqn:Hin.
      destruct (innerLoop_min _ _ _ _ Hin) as (_ & Hall & Hperm & Hl).
      simpl in Hlen.
      destruct (IH rest') as [Hs Hp]; [lia|].
      split.
      * constructor; [exact Hs|].
        eapply Permutation_Forall; eassumption.
      * eapply perm_trans; [exact Hperm|]. now apply perm_skip.
Qed.

Lemma sortedChildren_sorts (cs : list FileSystemNode) :
  StronglySorted (fun a b => childLe a b = true) (sortedChildren cs) /\
  Permutation cs (sortedChildren cs).
Proof.
  unfold sortedChildren.
  destruct (Z.leb_spec (Z.of_nat (List.length cs)) 1).
  - destruct cs as [|c [|c' cs]]; simpl in *; try lia; split; auto;
      repeat constructor.
  - apply outerLoop_sorts. lia.
Qed.

(* ================================================================== *)
(** * Induction on file-system trees and on node trees *)
(* ================================================================== *)

Lemma DirEntry_nested_ind (P : DirEntry -> Prop)
    (Hfile : forall name size io, P (File name size io))
    (Hdir : forall name size listing,
        (forall es, listing = Some es -> Forall P es) ->
        P (Directory name size listing)) :
  forall e, P e.
Proof.
  fix IH 1. intros [name size io | name size [es|]].
  - apply Hfile.
  - apply Hdir. intros es' Heq. injection Heq as <-.
    revert es. fix IHes 1. intros [|e es].
    + constructor.
    + constructor; [apply IH | apply IHes].
  - apply Hdir. intros es' Heq. discriminate Heq.
Qed.

Lemma FileSystemNode_nested_ind (P : FileSystemNode -> Prop)
    (Hnode : forall n, Forall P (Children n) -> P n) :
  forall n, P n.
Proof.
  fix IH 1. intros n. apply Hnode.
  destruct n as [nm p d sz dp ct cs fc dc]. simpl.
  revert cs. fix IHcs 1. intros [|c cs].
  - constructor.
  - constructor; [apply IH | apply IHcs].
Qed.

(* ================================================================== *)
(** * Fields kept by the steps of the walk *)
(* ================================================================== *)

Lemma setChildren_same (n : FileSystemNode) : setChildren n (Children n) = n.
Proof. now destruct n. Qed.

Lemma attach_fields (n c : FileSystemNode) :
  Name (attach n c) = Name n /\ Path (attach n c) = Path n /\
  IsDir (attach n c) = IsDir n /\ Depth (attach n c) = Depth n /\
  Content (attach n c) = Content n /\
  Children (attach n c) = (Children n ++ [c])%list /\
  FileCount (attach n c) = add64 (FileCount n) (fileContribution c).
Proof.
  unfold attach, fileContribution. destruct (IsDir c); simpl; repeat split.
Qed.

Lemma fold_attach_fields (cs : list FileSystemNode) :
  forall n,
    Name (fold_left attach cs n) = Name n /\
    Path (fold_left attach cs n) = Path n /\
    IsDir (fold_left attach cs n) = IsDir n /\
    Depth (fold_left attach cs n) = Depth n /\
    Content (fold_left attach cs n) = Content n /\
    Children (fold_left attach cs n) = (Children n ++ cs)%list.
Proof.
  induction cs as [|c cs IH]; intros n; simpl.
  - rewrite app_nil_r. repeat split.
  - destruct (IH (attach n c)) as (H1 & H2 & H3 & H4 & H5 & H6).
    destruct (attach_fields n c) as (A1 & A2 & A3 & A4 & A5 & A6 & _).
    rewrite H1, H2, H3, H4, H5, H6, A1, A2, A3, A4, A5, A6, <- app_assoc.
    repeat split.
Qed.

Lemma fold_attach_FileCount (cs : list FileSystemNode) :
  forall n k,
    FileCount n = wrap64 k ->
    FileCount (fold_left attach cs n) = wrap64 (k + sumZ (map fileContribution cs)).
Proof.
  induction cs as [|c cs IH]; intros n k Hn; simpl.
  - now rewrite Z.add_0_r.
  - rewrite (IH (attach n c) (k + fileContribution c)).
    + f_equal. lia.
    + destruct (attach_fields n c) as (_ & _ & _ & _ & _ & _ & ->).
      rewrite Hn. apply add64_wrap_l.
Qed.

Lemma attach_Size (n c : FileSystemNode) :
  Size (attach n c) = add64 (Size n) (Size c).
Proof. unfold attach. destruct (IsDir c); reflexivity. Qed.

Lemma wrap64_add64 (a b : Z) : wrap64 (add64 a b) = wrap64 (a + b).
Proof.
  unfold add64. rewrite <- (Z.add_0_r (wrap64 (a + b))) at 1.
  rewrite wrap64_idem. f_equal. lia.
Qed.

Lemma fold_attach_Size (cs : list FileSystemNode) :
  forall n,
    wrap64 (Size (fold_left attach cs n)) = wrap64 (Size n + sumZ (map Size cs)).
Proof.
  induction cs as [|c cs IH]; intros n; simpl.
  - now rewrite Z.add_0_r.
  - rewrite IH, attach_Size.
    rewrite <- (wrap64_idem (add64 (Size n) (Size c))), wrap64_add64, wrap64_idem.
    f_equal. lia.
Qed.

Lemma sortChildren_fields (n : FileSystemNode) :
  Name (sortChildren n) = Name n /\ Path (sortChildren n) = Path n /\
  IsDir (sortChildren n) = IsDir n /\ Depth (sortChildren n) = Depth n /\
  Content (sortChildren n) = Content n /\ Size (sortChildren n) = Size n /\
  FileCount (sortChildren n) = FileCount n /\
  Children (sortChildren n) = sortedChildren (Children n).
Proof. repeat split. Qed.

Lemma sortChildren_leaf (n : FileSystemNode) :
  Children n = [] -> sortChildren n = n.
Proof.
  intros H. unfold sortChildren.
  replace (sortedChildren (Children n)) with (Children n)
    by (rewrite H; reflexivity).
  apply setChildren_same.
Qed.

Lemma processFile_content (node : FileSystemNode) (cfg : Config) (io : FileIO) :
  exists content,
    fst (fst (processFile node cfg io)) = setContent node content.
Proof.
  unfold processFile.
  destruct (Size node >? MaxFileSize cfg); [eexists; reflexivity|].
  destruct (isBinaryFile (Path node) io) as [[|] calls]; [eexists; reflexivity|].
  destruct (ReadFile io); eexists; reflexivity.
Qed.

(** ** The loop body, entry by entry *)

Lemma visitEntry_File (cfg : Config) (name : string) (size : option Z) (io : FileIO)
    (node : FileSystemNode) (stats : Stats) :
  visitEntry cfg (File name size io) (node, stats) =
  let entryPath := Join (Path node) name in
  if negb (ShouldInclude cfg entryPath) || ShouldExclude cfg entryPath then (node, stats)
  else
    match size with
    | None => (node, stats)
    | Some sz =>
        let child := NewFileSystemNode entryPath (mkFileInfo name false sz)
                       (add64 (Depth node) 1) in
        if TotalFiles stats >=? MaxFiles cfg then (node, stats)
        else if add64 (TotalSize stats) sz >? MaxTotalSize cfg then (node, stats)
        else if sz >? MaxFileSize cfg then (node, stats)
        else
          match processFile child cfg io with
          | (_, Some _, _) => (node, stats)
          | (child', None, _) =>
              (attach node child',
               setTotals stats (add64 (TotalFiles stats) 1)
                         (add64 (TotalSize stats) (Size child')))
          end
    end.
Proof.
  simpl.
  destruct (negb (ShouldInclude cfg (Join (Path node) name))
            || ShouldExclude cfg (Join (Path node) name)); [reflexivity|].
  destruct size as [sz|]; [|reflexivity]. simpl.
  destruct (TotalFiles stats >=? MaxFiles cfg); [reflexivity|].
  destruct (add64 (TotalSize stats) sz >? MaxTotalSize cfg); [reflexivity|].
  destruct (sz >? MaxFileSize cfg); [reflexivity|].
  pose proof (processFile_content
                (NewFileSystemNode (Join (Path node) name) (mkFileInfo name false sz)
                   (add64 (Depth node) 1)) cfg io) as [content Hc].
  destruct (processFile _ cfg io) as [[child' [err|]] calls]; [reflexivity|].
  simpl in Hc. subst child'. reflexivity.
Qed.

Lemma visitEntry_Directory (cfg : Config) (name : string) (size : option Z)
    (listing : option (list DirEntry)) (node : FileSystemNode) (stats : Stats) :
  visitEntry cfg (Directory name size listing) (node, stats) =
  let entryPath := Join (Path node) name in
  if negb (ShouldInclude cfg entryPath) || ShouldExclude cfg entryPath then (node, stats)
  else
    match size with
    | None => (node, stats)
    | Some sz =>
        let child := NewFileSystemNode entryPath (mkFileInfo name true sz)
                       (add64 (Depth node) 1) in
        match processDirectory listing child cfg stats with
        | (_, stats', Some _) => (node, stats')
        | (child', stats', None) =>
            (setChildren
               (setSize
                  (setFileCount
                     (setDirCount node (add64 (DirCount node) (add64 (DirCount child') 1)))
                     (add64 (FileCount node) (FileCount child')))
                  (add64 (Size node) (Size child')))
               (Children node ++ [child'])%list,
             stats')
        end
    end.
Proof.
  simpl.
  destruct (negb (ShouldInclude cfg (Join (Path node) name))
            || ShouldExclude cfg (Join (Path node) name)); [reflexivity|].
  destruct size as [sz|]; [|reflexivity]. simpl.
  unfold processDirectory.
  destruct (processDirectoryWith _ _ _ _ _) as [[child' stats'] [err|]]; reflexivity.
Qed.

Lemma sameIdentity_refl (a : FileSystemNode) : sameIdentity a a.
Proof. repeat split. Qed.

Lemma sameIdentity_trans (a b c : FileSystemNode) :
  sameIdentity a b -> sameIdentity b c -> sameIdentity a c.
Proof.
  unfold sameIdentity. intros (A1 & A2 & A3 & A4 & A5) (B1 & B2 & B3 & B4 & B5).
  repeat split; congruence.
Qed.

Lemma visitEntry_identity (cfg : Config) (e : DirEntry) (node : FileSystemNode)
    (stats : Stats) :
  sameIdentity (fst (visitEntry cfg e (node, stats))) node.
Proof.
  destruct e as [name size io | name size listing].
  - rewrite visitEntry_File. cbv zeta.
    repeat match goal with
           | |- context [if ?b then _ else _] => destruct b
           | |- context [match ?o with Some _ => _ | None => _ end] => destruct o
           | |- context [processFile ?c ?g ?i] => destruct (processFile c g i) as [[? ?] ?]
           end; simpl; try apply sameIdentity_refl.
    destruct (attach_fields node f) as (A1 & A2 & A3 & A4 & A5 & _).
    repeat split; assumption.
  - rewrite visitEntry_Directory. cbv zeta.
    repeat match goal with
           | |- context [if ?b then _ else _] => destruct b
           | |- context [match ?o with Some _ => _ | None => _ end] => destruct o
           | |- context [processDirectory ?l ?c ?g ?s] =>
               destruct (processDirectory l c g s) as [[? ?] ?]
           end; simpl; try apply sameIdentity_refl.
    repeat split.
Qed.

Lemma fold_visit_identity (cfg : Config) (es : list DirEntry) :
  forall st,
    sameIdentity (fst (fold_left (fun st e => visitEntry cfg e st) es st)) (fst st).
Proof.
  induction es as [|e es IH]; intros [node stats]; simpl.
  - apply sameIdentity_refl.
  - eapply sameIdentity_trans; [apply IH|].
    destruct (visitEntry cfg e (node, stats)) as [n1 s1] eqn:E. simpl.
    pose proof (visitEntry_identity cfg e node stats) as H. now rewrite E in H.
Qed.

Lemma processDirectory_identity (listing : option (list DirEntry))
    (node : FileSystemNode) (cfg : Config) (stats : Stats) :
  sameIdentity (fst (fst (processDirectory listing node cfg stats))) node.
Proof.
  unfold processDirectory, processDirectoryWith.
  destruct (Depth node >=? MaxDirDepth cfg); [apply sameIdentity_refl|].
  destruct listing as [es|]; [|apply sameIdentity_refl].
  pose proof (fold_visit_identity cfg es (node, stats)) as H.
  destruct (fold_left _ es (node, stats)) as [n' s']. simpl in *.
  destruct H as (H1 & H2 & H3 & H4 & H5). repeat split; assumption.
Qed.

(* ================================================================== *)
(** * Every node the walk returns is [Walked] *)
(* ================================================================== *)

Section WalkShape.

Variable N : string -> Prop.
Variable cfg : Config.

Lemma childOf_identity (a b c : FileSystemNode) :
  sameIdentity a b -> childOf a c -> childOf b c.
Proof.
  unfold childOf. intros (_ & HP & _ & HD & _) [H1 H2]. split; congruence.
Qed.

Lemma attach_identity (n c : FileSystemNode) : sameIdentity (attach n c) n.
Proof.
  destruct (attach_fields n c) as (A1 & A2 & A3 & A4 & A5 & _).
  repeat split; assumption.
Qed.

Lemma fold_steps_shape (es : list DirEntry) :
  Forall (stepShape N cfg) es ->
  forall node stats,
    exists cs,
      Forall (Walked N) cs /\ Forall (fun c => N (Name c)) cs /\
      Forall (childOf node) cs /\
      fst (fold_left (fun st e => visitEntry cfg e st) es (node, stats))
      = fold_left attach cs node.
Proof.
  induction 1 as [|e es He _ IH]; intros node stats; simpl.
  - exists []. repeat split; constructor.
  - destruct (visitEntry cfg e (node, stats)) as [n1 s1] eqn:E.
    destruct (He node stats) as [Hskip | (child & Hw & Hn & Hc & Hatt)];
      rewrite E in *; simpl in *; subst n1.
    + apply IH.
    + destruct (IH (attach node child) s1) as (cs & H1 & H2 & H3 & H4).
      exists (child :: cs). repeat split.
      * now constructor.
      * now constructor.
      * constructor; [assumption|].
        eapply Forall_impl; [|exact H3].
        intros c. apply childOf_identity, attach_identity.
      * exact H4.
Qed.

Lemma processDirectory_shape (listing : option (list DirEntry)) :
  (forall es, listing = Some es -> Forall (stepShape N cfg) es) ->
  forall path info depth stats,
    infoIsDir info = true ->
    Walked N (fst (fst (processDirectory listing
                          (NewFileSystemNode path info depth) cfg stats))).
Proof.
  intros Hes path info depth stats Hdir.
  assert (Hfresh : Walked N (NewFileSystemNode path info depth)).
  { rewrite <- (sortChildren_leaf (NewFileSystemNode path info depth)) by reflexivity.
    apply (Walked_dir N path info depth []); auto. }
  unfold processDirectory, processDirectoryWith.
  destruct (Depth _ >=? MaxDirDepth cfg); [exact Hfresh|].
  destruct listing as [es|]; [|exact Hfresh].
  destruct (fold_steps_shape es (Hes es eq_refl)
              (NewFileSystemNode path info depth) stats) as (cs & H1 & H2 & H3 & H4).
  destruct (fold_left _ es _) as [n' s']. simpl in *. subst n'.
  now apply Walked_dir.
Qed.

Lemma visitEntry_shape (e : DirEntry) : NamesIn N e -> N (entryName e) -> stepShape N cfg e.
Proof.
  induction e as [name size io | name size listing IH] using DirEntry_nested_ind;
    intros Hnames Hname node stats; simpl in Hname.
  - rewrite visitEntry_File. cbv zeta.
    destruct (negb _ || _); [now left|].
    destruct size as [sz|]; [|now left].
    destruct (TotalFiles stats >=? MaxFiles cfg); [now left|].
    destruct (add64 (TotalSize stats) sz >? MaxTotalSize cfg); [now left|].
    destruct (sz >? MaxFileSize cfg); [now left|].
    pose proof (processFile_content
                  (NewFileSystemNode (Join (Path node) name) (mkFileInfo name false sz)
                     (add64 (Depth node) 1)) cfg io) as [content Hc].
    destruct (processFile _ cfg io) as [[child' [err|]] calls]; [now left|].
    simpl in Hc. subst child'. right.
    eexists. split; [|split; [|split; [|reflexivity]]].
    + now apply Walked_file.
    + exact Hname.
    + split; reflexivity.
  - rewrite visitEntry_Directory. cbv zeta.
    destruct (negb _ || _); [now left|].
    destruct size as [sz|]; [|now left].
    set (child := NewFileSystemNode (Join (Path node) name) (mkFileInfo name true sz)
                    (add64 (Depth node) 1)).
    assert (Hsteps : forall es, listing = Some es -> Forall (stepShape N cfg) es).
    { intros es Hes. inversion Hnames as [|? ? ? Hsub]; subst.
      specialize (Hsub es eq_refl). specialize (IH es eq_refl).
      rewrite Forall_forall in *. intros e He.
      destruct (Hsub e He). now apply IH. }
    pose proof (processDirectory_shape listing Hsteps (Join (Path node) name)
                  (mkFileInfo name true sz) (add64 (Depth node) 1) stats eq_refl) as Hw.
    pose proof (processDirectory_identity listing child cfg stats) as Hid.
    fold child in Hw.
    destruct (processDirectory listing child cfg stats) as [[child' stats'] [err|]];
      [now left|].
    simpl in Hw, Hid. destruct Hid as (I1 & I2 & I3 & I4 & I5).
    right. exists child'. split; [exact Hw|]. split; [|split].
    + now rewrite I1.
    + split; [now rewrite I1, I2 | exact I4].
    + simpl. unfold attach. rewrite I3. reflexivity.
Qed.

(** The walk of [ProcessPath] returns a walked tree. *)
Lemma ProcessPath_Walked (src : Source) (root : FileSystemNode) (err : option error) :
  (forall e, stat src = Some e -> NamesIn N e) ->
  ProcessPath src cfg = (Some root, err) ->
  Walked N root.
Proof.
  intros Hnames. unfold ProcessPath.
  destruct (stat src) as [entry|]; [|discriminate].
  specialize (Hnames entry eq_refl).
  destruct (entryInfo entry) as [info|] eqn:Hinfo; [|discriminate].
  destruct (abs src) as [absPath|]; [|discriminate].
  destruct entry as [name size io | name size listing].
  - destruct size as [sz|]; [|discriminate]. injection Hinfo as <-.
    pose proof (processFile_content
                  (NewFileSystemNode absPath (mkFileInfo name false sz) 0) cfg io)
      as [content Hc].
    destruct (processFile _ cfg io) as [[root' err'] calls].
    simpl in Hc. intros H. injection H as <- <-. subst root'.
    now apply Walked_file.
  - destruct size as [sz|]; [|discriminate]. injection Hinfo as <-.
    assert (Hsteps : forall es, listing = Some es -> Forall (stepShape N cfg) es).
    { intros es Hes. inversion Hnames as [|? ? ? Hsub]; subst.
      specialize (Hsub es eq_refl).
      rewrite Forall_forall in *. intros e He.
      destruct (Hsub e He). now apply visitEntry_shape. }
    pose proof (processDirectory_shape listing Hsteps absPath
                  (mkFileInfo name true sz) 0 newStats eq_refl) as Hw.
    destruct (processDirectory listing _ cfg newStats) as [[root' stats'] err'].
    intros H. injection H as <- <-. exact Hw.
Qed.

End WalkShape.

(* ================================================================== *)
(** * What holds at every node of a walked tree *)
(* ================================================================== *)

Section WalkedFacts.

Variable N : string -> Prop.

Lemma Walked_dir_children (path : string) (info : FileInfo) (depth : Z)
    (cs : list FileSystemNode) :
  Permutation cs
    (Children (sortChildren (fold_left attach cs (NewFileSystemNode path info depth)))).
Proof.
  destruct (sortChildren_fields (fold_left attach cs (NewFileSystemNode path info depth)))
    as (_ & _ & _ & _ & _ & _ & _ & ->).
  destruct (fold_attach_fields cs (NewFileSystemNode path info depth))
    as (_ & _ & _ & _ & _ & ->).
  simpl. apply sortedChildren_sorts.
Qed.

Lemma Walked_children (d : FileSystemNode) :
  Walked N d ->
  Forall (fun c => Walked N c /\ N (Name c) /\ childOf d c) (Children d).
Proof.
  intros [path info depth content Hf | path info depth cs Hd Hw Hn Hc].
  - constructor.
  - eapply Permutation_Forall; [apply Walked_dir_children|].
    rewrite Forall_forall in *. intros c Hin. repeat split.
    + now apply Hw.
    + now apply Hn.
    + destruct (Hc c Hin) as [H1 _]. rewrite H1. f_equal.
      destruct (sortChildren_fields
                  (fold_left attach cs (NewFileSystemNode path info depth)))
        as (_ & -> & _).
      now destruct (fold_attach_fields cs (NewFileSystemNode path info depth))
        as (_ & -> & _).
    + destruct (Hc c Hin) as [_ H2]. rewrite H2. f_equal.
      destruct (sortChildren_fields
                  (fold_left attach cs (NewFileSystemNode path info depth)))
        as (_ & _ & _ & -> & _).
      now destruct (fold_attach_fields cs (NewFileSystemNode path info depth))
        as (_ & _ & _ & -> & _).
Qed.

Lemma InTree_Walked (root d : FileSystemNode) :
  Walked N root -> InTree d root -> Walked N d.
Proof.
  intros Hw Hin. induction Hin as [|c n Hc _ IH]; [exact Hw|].
  apply IH.
  pose proof (Walked_children n Hw) as H. rewrite Forall_forall in H.
  now destruct (H c Hc).
Qed.

Lemma Walked_sorted (d : FileSystemNode) :
  Walked N d -> StronglySorted (fun a b => childLe a b = true) (Children d).
Proof.
  intros [path info depth content Hf | path info depth cs Hd Hw Hn Hc].
  - constructor.
  - destruct (sortChildren_fields
                (fold_left attach cs (NewFileSystemNode path info depth)))
      as (_ & _ & _ & _ & _ & _ & _ & ->).
    apply sortedChildren_sorts.
Qed.

Lemma Walked_FileCount (d : FileSystemNode) :
  Walked N d ->
  FileCount d = wrap64 (sumZ (map fileContribution (Children d))).
Proof.
  intros [path info depth content Hf | path info depth cs Hd Hw Hn Hc].
  - reflexivity.
  - rewrite <- (sumZ_perm _ _ (Permutation_map fileContribution
                                 (Walked_dir_children path info depth cs))).
    destruct (sortChildren_fields
                (fold_left attach cs (NewFileSystemNode path info depth)))
      as (_ & _ & _ & _ & _ & _ & -> & _).
    apply (fold_attach_FileCount cs (NewFileSystemNode path info depth) 0).
    reflexivity.
Qed.

Lemma Walked_file_leaf (d : FileSystemNode) :
  Walked N d -> IsDir d = false -> Children d = [].
Proof.
  intros [path info depth content Hf | path info depth cs Hd Hw Hn Hc] H.
  - reflexivity.
  - destruct (sortChildren_fields
                (fold_left attach cs (NewFileSystemNode path info depth)))
      as (_ & _ & E & _).
    rewrite E in H.
    destruct (fold_attach_fields cs (NewFileSystemNode path info depth))
      as (_ & _ & E' & _).
    rewrite E' in H. simpl in H. congruence.
Qed.

End WalkedFacts.

Lemma NamesIn_True (e : DirEntry) : NamesIn (fun _ => True) e.
Proof.
  induction e as [name size io | name size listing IH] using DirEntry_nested_ind.
  - constructor.
  - constructor. intros es Hes. specialize (IH es Hes).
    rewrite Forall_forall in *. auto.
Qed.

(** [processDirectory] adds the sizes of the children it keeps to the size the
    node came with. *)
Lemma processDirectory_Size (listing : option (list DirEntry)) (node : FileSystemNode)
    (cfg : Config) (stats : Stats) :
  Children node = [] ->
  wrap64 (Size (fst (fst (processDirectory listing node cfg stats)))) =
  wrap64 (Size node +
          sumZ (map Size (Children (fst (fst (processDirectory listing node cfg stats)))))).
Proof.
  intros Hleaf. unfold processDirectory, processDirectoryWith.
  assert (Hkeep : wrap64 (Size node) = wrap64 (Size node + sumZ (map Size (Children node)))).
  { rewrite Hleaf. simpl. now rewrite Z.add_0_r. }
  destruct (Depth node >=? MaxDirDepth cfg); [exact Hkeep|].
  destruct listing as [es|]; [|exact Hkeep].
  destruct (fold_steps_shape (fun _ => True) cfg es) with (node := node) (stats := stats)
    as (cs & _ & _ & _ & Hfold).
  { rewrite Forall_forall. intros e _.
    apply visitEntry_shape; [apply NamesIn_True | exact I]. }
  destruct (fold_left _ es (node, stats)) as [n' s']. simpl in Hfold. subst n'.
  simpl fst.
  destruct (sortChildren_fields (fold_left attach cs node))
    as (_ & _ & _ & _ & _ & -> & _ & ->).
  destruct (fold_attach_fields cs node) as (_ & _ & _ & _ & _ & ->).
  rewrite Hleaf. simpl app.
  rewrite <- (sumZ_perm _ _ (Permutation_map Size (proj2 (sortedChildren_sorts cs)))).
  apply fold_attach_Size.
Qed.

(* ================================================================== *)
(** * Paths: [Join], [Dir] and [Base] on cleaned absolute paths *)
(* ================================================================== *)

Lemma append_assoc (a b c : string) : (a ++ b) ++ c = a ++ (b ++ c).
Proof. induction a as [|x a IH]; simpl; [reflexivity | now rewrite IH]. Qed.

Lemma append_nil_r (a : string) : a ++ "" = a.
Proof. induction a as [|x a IH]; simpl; [reflexivity | now rewrite IH]. Qed.

Lemma elements_noSlash (s : string) :
  ContainsByte s "/"%char = false -> elements s = [s].
Proof.
  induction s as [|a s IH]; simpl; [reflexivity|].
  intros H. apply orb_false_iff in H as [Ha Hs].
  unfold is_sep. rewrite Ha, (IH Hs). reflexivity.
Qed.

Lemma elements_nonempty (s : string) : elements s <> [].
Proof.
  induction s as [|a s IH]; simpl; [discriminate|].
  destruct (is_sep a); [discriminate|].
  destruct (elements s); [contradiction | discriminate].
Qed.

Lemma elements_app_sep (a b : string) :
  elements (a ++ String "/" b) = (elements a ++ elements b)%list.
Proof.
  induction a as [|x a IH]; simpl; [reflexivity|].
  rewrite IH. destruct (is_sep x); [reflexivity|].
  pose proof (elements_nonempty a) as Hne.
  destruct (elements a); [contradiction | reflexivity].
Qed.

Lemma join_sep_snoc (cs : list string) (n : string) :
  cs <> [] -> join_sep (cs ++ [n]) = join_sep cs ++ String "/" n.
Proof.
  induction cs as [|c cs IH]; [contradiction|]. intros _.
  destruct cs as [|c' cs].
  - reflexivity.
  - change (join_sep ((c :: c' :: cs) ++ [n]))
      with (c ++ "/" ++ join_sep ((c' :: cs) ++ [n])).
    rewrite IH by discriminate.
    change (join_sep (c :: c' :: cs)) with (c ++ "/" ++ join_sep (c' :: cs)).
    now rewrite !append_assoc.
Qed.

Lemma elements_join (cs : list string) :
  Forall simpleName cs -> cs <> [] -> elements (join_sep cs) = cs.
Proof.
  induction cs as [|c cs IH] using rev_ind; [contradiction|].
  intros Hall _. apply Forall_app in Hall as [Hcs Hc].
  inversion Hc as [|? ? (_ & _ & _ & Hns) _]; subst.
  destruct cs as [|c' cs].
  - simpl. now apply elements_noSlash.
  - rewrite join_sep_snoc by discriminate.
    rewrite elements_app_sep, IH by (assumption || discriminate).
    now rewrite (elements_noSlash c).
Qed.

Lemma clean_step_simple (rooted : bool) (out : list string) (e : string) :
  simpleName e -> clean_step rooted out e = e :: out.
Proof.
  intros (H1 & H2 & H3 & _). unfold clean_step.
  apply String.eqb_neq in H1, H2, H3. now rewrite H1, H2, H3.
Qed.

Lemma clean_fold_simple (rooted : bool) (es : list string) :
  Forall simpleName es ->
  forall out, fold_left (clean_step rooted) es out = (rev es ++ out)%list.
Proof.
  induction 1 as [|e es He _ IH]; intros out; simpl; [reflexivity|].
  rewrite clean_step_simple by assumption.
  now rewrite IH, <- app_assoc.
Qed.

(** Cleaning an absolute path whose elements are simple names, also with empty
    elements before and after them, gives the path with those elements. *)
Lemma Clean_abs (cs : list string) (tail : string) :
  Forall simpleName cs ->
  elements tail = (cs ++ [""])%list \/ elements tail = cs \/
  elements tail = ("" :: cs)%list ->
  Clean (String "/" tail) = absPath cs.
Proof.
  intros Hcs Hel. unfold Clean, absPath.
  change (is_sep "/"%char) with true. cbv iota zeta.
  change (elements (String "/" tail)) with ("" :: elements tail).
  simpl fold_left. change (clean_step true [] "") with (@nil string).
  destruct Hel as [-> | [-> | ->]].
  - rewrite fold_left_app, (clean_fold_simple true cs Hcs). simpl fold_left.
    change (clean_step true (rev cs ++ []) "") with (rev cs ++ [])%list.
    now rewrite app_nil_r, rev_involutive.
  - rewrite clean_fold_simple by assumption.
    now rewrite app_nil_r, rev_involutive.
  - simpl fold_left. change (clean_step true [] "") with (@nil string).
    rewrite clean_fold_simple by assumption.
    now rewrite app_nil_r, rev_involutive.
Qed.

Lemma simpleName_nonempty (n : string) :
  simpleName n -> exists a r, n = String a r.
Proof. intros (H & _). destruct n as [|a r]; [contradiction | eauto]. Qed.

Lemma Join_abs (cs : list string) (n : string) :
  Forall simpleName cs -> simpleName n ->
  Join (absPath cs) n = absPath (cs ++ [n]).
Proof.
  intros Hcs Hn.
  destruct (simpleName_nonempty n Hn) as (a & r & Hnr).
  assert (Hj : Join (absPath cs) n = Clean (absPath cs ++ "/" ++ n)).
  { unfold absPath. subst n. reflexivity. }
  rewrite Hj. unfold absPath at 1.
  change (("/" ++ join_sep cs) ++ "/" ++ n) with (String "/" (join_sep cs ++ String "/" n)).
  apply Clean_abs.
  - apply Forall_app. split; [assumption | now constructor].
  - destruct Hn as (_ & _ & _ & Hns).
    rewrite elements_app_sep, (elements_noSlash n Hns).
    destruct cs as [|c cs].
    + right. right. reflexivity.
    + right. left. now rewrite elements_join by (assumption || discriminate).
Qed.

Lemma Split_noSlash (n : string) :
  ContainsByte n "/"%char = false -> Split n = ("", n).
Proof.
  induction n as [|a n IH]; simpl; [reflexivity|].
  intros H. apply orb_false_iff in H as [Ha Hn].
  rewrite (IH Hn). unfold is_sep. now rewrite Ha.
Qed.

Lemma Split_app_sep (a n : string) :
  ContainsByte n "/"%char = false ->
  Split (a ++ String "/" n) = (a ++ "/", n).
Proof.
  intros Hn. induction a as [|x a IH]; simpl.
  - now rewrite (Split_noSlash n Hn).
  - rewrite IH. destruct a; reflexivity.
Qed.

Lemma absPath_snoc (cs : list string) (n : string) :
  absPath (cs ++ [n]) = match cs with [] => "" | _ => absPath cs end ++ String "/" n.
Proof.
  unfold absPath. destruct cs as [|c cs]; [reflexivity|].
  rewrite join_sep_snoc by discriminate. reflexivity.
Qed.

Lemma Dir_abs (cs : list string) (n : string) :
  Forall simpleName cs -> simpleName n ->
  Dir (absPath (cs ++ [n])) = absPath cs.
Proof.
  intros Hcs Hn. unfold Dir. rewrite absPath_snoc.
  destruct Hn as (_ & _ & _ & Hns).
  rewrite (Split_app_sep _ n Hns). simpl fst.
  destruct cs as [|c cs].
  - apply (Clean_abs [] ""); auto.
  - unfold absPath at 1.
    change (("/" ++ join_sep (c :: cs)) ++ "/")
      with (String "/" (join_sep (c :: cs) ++ String "/" "")).
    apply Clean_abs; [assumption|]. left.
    rewrite elements_app_sep. now rewrite elements_join by (assumption || discriminate).
Qed.

Lemma strip_app_simple (a n : string) :
  n <> "" -> ContainsByte n "/"%char = false ->
  strip_trailing_seps (a ++ n) = a ++ n.
Proof.
  intros Hne Hns.
  assert (Hn : strip_trailing_seps n = n /\ n <> "").
  { split; [|assumption]. clear Hne.
    induction n as [|x n IH]; [reflexivity|]. simpl in *.
    apply orb_false_iff in Hns as [Hx Hn]. rewrite (IH Hn).
    unfold is_sep. rewrite Hx. now destruct n. }
  destruct Hn as [Hn _].
  induction a as [|x a IH]; simpl; [exact Hn|].
  rewrite IH. destruct (a ++ n) eqn:E; [|reflexivity].
  destruct a; simpl in E; [contradiction | discriminate].
Qed.

Lemma Base_abs_snoc (cs : list string) (n : string) :
  simpleName n -> Base (absPath (cs ++ [n])) = n.
Proof.
  intros (Hne & _ & _ & Hns). rewrite absPath_snoc.
  set (a := match cs with [] => "" | _ => absPath cs end).
  unfold Base.
  destruct (a ++ String "/" n) eqn:E; [destruct a; discriminate|].
  rewrite <- E.
  change (a ++ String "/" n) with (a ++ "/" ++ n).
  rewrite <- append_assoc, strip_app_simple by assumption.
  rewrite append_assoc. change ("/" ++ n) with (String "/" n).
  rewrite (Split_app_sep a n Hns). simpl snd.
  destruct n; [contradiction | reflexivity].
Qed.

Lemma Base_abs_not_dot (cs : list string) :
  Forall simpleName cs -> Base (absPath cs) <> ".".
Proof.
  intros Hcs. destruct cs as [|c cs] using rev_ind.
  - discriminate.
  - apply Forall_app in Hcs as [_ Hc]. inversion Hc as [|? ? Hs _]; subst.
    rewrite Base_abs_snoc by assumption. now destruct Hs as (_ & H & _).
Qed.

Lemma cleanAbs_Join (p n : string) :
  cleanAbs p -> simpleName n ->
  cleanAbs (Join p n) /\ Dir (Join p n) = p /\ Base (Join p n) = n.
Proof.
  intros (cs & Hcs & ->) Hn.
  rewrite Join_abs by assumption. repeat split.
  - exists (cs ++ [n])%list. split; [|reflexivity].
    apply Forall_app. split; [assumption | now constructor].
  - now apply Dir_abs.
  - now apply Base_abs_snoc.
Qed.

Lemma cleanAbs_Base_not_dot (p : string) : cleanAbs p -> Base p <> ".".
Proof. intros (cs & Hcs & ->). now apply Base_abs_not_dot. Qed.

(* ================================================================== *)
(** * Entries the walk skips *)
(* ================================================================== *)

(** An entry whose visit changes nothing may as well be absent from the
    listing: the walk goes on with the entries after it. *)
Lemma processDirectory_skip (cfg : Config) (e : DirEntry) :
  (forall st, visitEntry cfg e st = st) ->
  forall before after node stats,
    processDirectory (Some (before ++ e :: after)%list) node cfg stats =
    processDirectory (Some (before ++ after)%list) node cfg stats.
Proof.
  intros Hskip before after node stats.
  unfold processDirectory, processDirectoryWith.
  destruct (Depth node >=? MaxDirDepth cfg); [reflexivity|].
  rewrite !fold_left_app. simpl. now rewrite Hskip.
Qed.

Lemma fold_left_cons {A B : Type} (f : A -> B -> A) (x : B) (l : list B) (a : A) :
  fold_left f (x :: l) a = fold_left f l (f a x).
Proof. reflexivity. Qed.

Lemma processDirectory_at_limit (listing : option (list DirEntry))
    (node : FileSystemNode) (cfg : Config) (stats : Stats) :
  MaxDirDepth cfg <= Depth node ->
  processDirectory listing node cfg stats = (node, stats, None).
Proof.
  intros H. unfold processDirectory, processDirectoryWith.
  destruct (Z.geb_spec (Depth node) (MaxDirDepth cfg)); [reflexivity | lia].
Qed.

(* ================================================================== *)
(** * Further lemmas for the claims *)
(* ================================================================== *)

Lemma StronglySorted_impl {A : Type} (R S : A -> A -> Prop) (l : list A) :
  (forall a b, R a b -> S a b) -> StronglySorted R l -> StronglySorted S l.
Proof.
  intros HRS. induction 1 as [|a l _ IH Hall]; constructor; [exact IH|].
  eapply Forall_impl; [|exact Hall]. auto.
Qed.

Lemma simpleName_intro (s : string) :
  (negb (String.eqb s "") && negb (String.eqb s ".") && negb (String.eqb s "..")
   && negb (ContainsByte s "/"%char))%bool = true ->
  simpleName s.
Proof.
  rewrite !andb_true_iff, !negb_true_iff, !String.eqb_neq. unfold simpleName. tauto.
Qed.

Lemma ProcessPath_root_path (src : Source) (cfg : Config) (root : FileSystemNode)
    (err : option error) :
  ProcessPath src cfg = (Some root, err) -> abs src = Some (Path root).
Proof.
  unfold ProcessPath.
  destruct (stat src) as [entry|]; [|discriminate].
  destruct (entryInfo entry) as [info|]; [|discriminate].
  destruct (abs src) as [absPath|]; [|discriminate].
  destruct entry as [name size io | name size listing].
  - pose proof (processFile_content (NewFileSystemNode absPath info 0) cfg io)
      as [content Hc].
    destruct (processFile _ cfg io) as [[root' err'] calls]. simpl in Hc.
    intros H. injection H as <- <-. now subst root'.
  - pose proof (processDirectory_identity listing (NewFileSystemNode absPath info 0)
                  cfg newStats) as (_ & HP & _).
    destruct (processDirectory listing _ cfg newStats) as [[root' stats'] err'].
    intros H. injection H as <- <-. simpl in HP. now rewrite HP.
Qed.

Lemma InTree_step (root d f : FileSystemNode) :
  InTree d root -> In f (Children d) -> InTree f root.
Proof.
  induction 1 as [|c n Hc _ IH]; intros Hf.
  - apply InTree_child with f; [exact Hf | apply InTree_here].
  - apply InTree_child with c; [exact Hc | now apply IH].
Qed.

Lemma InTree_cleanAbs (root d : FileSystemNode) :
  InTree d root ->
  Walked simpleName root -> cleanAbs (Path root) ->
  Walked simpleName d /\ cleanAbs (Path d).
Proof.
  induction 1 as [|c n Hc _ IH]; intros Hw Hp; [now split|].
  pose proof (Walked_children _ n Hw) as H. rewrite Forall_forall in H.
  destruct (H c Hc) as (Hwc & Hnc & Hpc & _).
  apply IH; [exact Hwc|]. rewrite Hpc. now apply cleanAbs_Join.
Qed.

Lemma cleanAbs_Base_Dir_not_dot (p : string) : cleanAbs p -> Base (Dir p) <> ".".
Proof.
  intros (cs & Hcs & ->). destruct cs as [|c cs] using rev_ind.
  - vm_compute. discriminate.
  - apply Forall_app in Hcs as [Hcs Hc]. inversion Hc; subst.
    rewrite Dir_abs by assumption. now apply Base_abs_not_dot.
Qed.



Lemma sumZ_nonneg (l : list Z) : Forall (fun z => 0 <= z) l -> 0 <= sumZ l.
Proof. induction 1; simpl; lia. Qed.





Lemma concat_empty_cons (x : string) (l : list string) :
  String.concat "" (x :: l) = x ++ String.concat "" l.
Proof. destruct l; simpl; [now rewrite append_nil_r | reflexivity]. Qed.

Lemma concat_empty_app (l1 l2 : list string) :
  String.concat "" (l1 ++ l2) = String.concat "" l1 ++ String.concat "" l2.
Proof.
  induction l1 as [|x l1 IH]; [reflexivity|].
  change ((x :: l1) ++ l2)%list with (x :: (l1 ++ l2))%list.
  now rewrite !concat_empty_cons, IH, append_assoc.
Qed.

Lemma fileLeaves_eq (n : FileSystemNode) :
  fileLeaves n = if negb (IsDir n) then [n] else flat_map fileLeaves (Children n).
Proof. destruct n. reflexivity. Qed.

Lemma formatDirectoryContent_eq (n : FileSystemNode) :
  formatDirectoryContent n =
  if negb (IsDir n) then formatFileContent n
  else String.concat "" (map formatDirectoryContent (Children n)).
Proof. destruct n. reflexivity. Qed.

(** The file-contents section is the sequence of the blocks of the file nodes. *)
Lemma formatDirectoryContent_blocks (n : FileSystemNode) :
  formatDirectoryContent n = String.concat "" (map formatFileContent (fileLeaves n)).
Proof.
  induction n as [n IH] using FileSystemNode_nested_ind.
  rewrite formatDirectoryContent_eq, fileLeaves_eq.
  destruct (negb (IsDir n)); [simpl; reflexivity|].
  induction IH as [|c cs Hc _ IHcs]; [reflexivity|].
  simpl map. simpl flat_map.
  now rewrite concat_empty_cons, map_app, concat_empty_app, Hc, IHcs.
Qed.

Lemma formatFileContents_blocks (n : FileSystemNode) :
  formatFileContents n = String.concat "" (map formatFileContent (fileLeaves n)).
Proof.
  unfold formatFileContents. rewrite <- formatDirectoryContent_blocks.
  rewrite formatDirectoryContent_eq. now destruct (negb (IsDir n)).
Qed.

Lemma fileLeaves_InTree (n f : FileSystemNode) :
  In f (fileLeaves n) -> InTree f n /\ IsDir f = false.
Proof.
  induction n as [n IH] using FileSystemNode_nested_ind.
  rewrite fileLeaves_eq. destruct (negb (IsDir n)) eqn:Hk.
  - intros [<- | []]. split; [apply InTree_here | now apply negb_true_iff].
  - intros Hin. apply in_flat_map in Hin as (c & Hc & Hf).
    rewrite Forall_forall in IH. destruct (IH c Hc Hf) as [Ht Hd].
    split; [now apply InTree_child with c | exact Hd].
Qed.

(* ================================================================== *)
(** * [float64]: the quotients the formatter prints are finite *)
(* ================================================================== *)

Lemma digits2_pos_size (p : positive) : digits2_pos p = Pos.size p.
Proof. induction p as [p IH|p IH|]; simpl; now rewrite ?IH. Qed.

Lemma Zdigits2_log2 (m : Z) : 0 < m -> Zdigits2 m = Z.log2 m + 1.
Proof.
  destruct m as [|p|p]; try lia. intros _. simpl.
  rewrite digits2_pos_size. destruct p; simpl; lia.
Qed.

Lemma Zdigits2_mono (a b : Z) : 0 <= a <= b -> Zdigits2 a <= Zdigits2 b.
Proof.
  intros [Ha Hab]. destruct (Z.eq_dec a 0) as [->|Hne].
  - destruct b; simpl; lia.
  - rewrite !Zdigits2_log2 by lia. pose proof (Z.log2_le_mono a b Hab). lia.
Qed.

Lemma Zdigits2_succ (a : Z) : 0 <= a -> Zdigits2 (a + 1) <= Zdigits2 a + 1.
Proof.
  intros Ha. destruct (Z.eq_dec a 0) as [->|Hne]; [simpl; lia|].
  rewrite !Zdigits2_log2 by lia.
  pose proof (Z.log2_succ_le a). unfold Z.succ in *. lia.
Qed.

Lemma Zdigits2_mul_pow2 (a s : Z) :
  0 < a -> 0 <= s -> Zdigits2 (a * 2 ^ s) = Zdigits2 a + s.
Proof.
  intros Ha Hs.
  rewrite !Zdigits2_log2 by (try apply Z.mul_pos_pos; try apply Z.pow_pos_nonneg; lia).
  rewrite Z.log2_mul_pow2 by lia. lia.
Qed.

Lemma iter_pos_inv {A : Type} (f : A -> A) (P : A -> Prop) :
  (forall x, P x -> P (f x)) -> forall p x, P x -> P (iter_pos f p x).
Proof.
  intros Hf. induction p as [p IH|p IH|]; intros x Hx; simpl; auto.
Qed.

Lemma shr_1_bound (M : Z) (r : shr_record) :
  0 <= shr_m r <= M -> 0 <= shr_m (shr_1 r) <= M.
Proof.
  destruct r as [m rb sb]. simpl. intros H.
  destruct m as [|[p|p|]|[p|p|]]; simpl; lia.
Qed.

Lemma fexp64_eq (z : Z) : fexp64 z = Z.max (z - 53) (-1074).
Proof. reflexivity. Qed.

Lemma shr_fexp_bound (m e : Z) (l : location) (r' : shr_record) (e' : Z) :
  0 <= m ->
  shr_fexp 53 1024 m e l = (r', e') ->
  0 <= shr_m r' <= m /\ e <= e' <= Z.max e (fexp64 (Zdigits2 m + e)).
Proof.
  intros Hm. unfold shr_fexp, shr. fold fexp64.
  assert (Hrec : shr_m (shr_record_of_loc m l) = m) by (destruct l as [|[]]; reflexivity).
  destruct (fexp64 (Zdigits2 m + e) - e) as [|n|n] eqn:Hn;
    intros H; injection H as <- <-.
  - rewrite Hrec. lia.
  - split; [|lia].
    apply (iter_pos_inv shr_1 (fun r => 0 <= shr_m r <= m)).
    + intros x. apply shr_1_bound.
    + rewrite Hrec. lia.
  - rewrite Hrec. lia.
Qed.

Lemma round_nearest_even_bound (m : Z) (l : location) :
  m <= round_nearest_even m l <= m + 1.
Proof. destruct l as [|[]]; simpl; try lia. destruct (Z.even m); lia. Qed.

(** [binary_round_aux] yields a zero or a finite double when the mantissa and
    the exponent are moderate. *)
Lemma binary_round_aux_finite (s : bool) (mx ex : Z) (lx : location) (d lo b : Z) :
  0 <= mx -> Zdigits2 mx <= d -> lo <= ex <= b ->
  0 <= d -> -1000 <= lo -> 2 * d + b <= 900 ->
  binary_round_aux 53 1024 s mx ex lx = S754_zero s \/
  exists m e, binary_round_aux 53 1024 s mx ex lx = S754_finite s m e /\
              lo <= e <= 2 * d + b + 1 /\ Zdigits2 (Z.pos m) <= d + 1.
Proof.
  intros Hmx Hd Hex Hd0 Hlo Hsum. unfold binary_round_aux.
  destruct (shr_fexp 53 1024 mx ex lx) as [r1 e1] eqn:H1.
  destruct (shr_fexp_bound _ _ _ _ _ Hmx H1) as [Hr1 He1].
  set (m1 := round_nearest_even (shr_m r1) (loc_of_shr_record r1)).
  assert (Hm1 : shr_m r1 <= m1 <= shr_m r1 + 1) by apply round_nearest_even_bound.
  destruct (shr_fexp 53 1024 m1 e1 loc_Exact) as [r2 e2] eqn:H2.
  assert (Hm1' : 0 <= m1) by lia.
  destruct (shr_fexp_bound _ _ _ _ _ Hm1' H2) as [Hr2 He2].
  rewrite fexp64_eq in He1, He2.
  assert (Hdm1 : Zdigits2 m1 <= d + 1).
  { eapply Z.le_trans; [apply (Zdigits2_mono m1 (shr_m r1 + 1)); lia|].
    eapply Z.le_trans; [apply Zdigits2_succ; lia|].
    pose proof (Zdigits2_mono (shr_m r1) mx). lia. }
  destruct (shr_m r2) as [|m|m] eqn:Hm; [now left | | lia].
  right. exists m, e2.
  destruct (Z.leb_spec e2 (1024 - 53)); [|lia].
  split; [reflexivity|]. split; [lia|].
  rewrite <- Hm. eapply Z.le_trans; [apply (Zdigits2_mono (shr_m r2) m1); lia | exact Hdm1].
Qed.

Lemma Pos_iter_xO (p d : positive) : Z.pos (Pos.iter xO p d) = Z.pos p * 2 ^ Z.pos d.
Proof.
  induction d as [|d IH] using Pos.peano_ind.
  - simpl. lia.
  - rewrite Pos.iter_succ, Pos2Z.inj_xO, IH, Pos2Z.inj_succ, Z.pow_succ_r by lia. lia.
Qed.

(** The double nearest to a positive integer below [2^63]. *)
Lemma float64_of_int_finite (z : Z) :
  0 < z < 2 ^ 63 ->
  float64_of_int z = S754_zero false \/
  exists m e, float64_of_int z = S754_finite false m e /\
              -52 <= e <= 127 /\ Zdigits2 (Z.pos m) <= 64.
Proof.
  intros Hz. destruct z as [|p|p]; try lia.
  unfold float64_of_int, binary_normalize, binary_round.
  assert (Hdp : 1 <= Zdigits2 (Z.pos p) <= 63).
  { rewrite Zdigits2_log2 by lia.
    pose proof (Z.log2_nonneg (Z.pos p)).
    assert (Z.log2 (Z.pos p) < 63) by (apply Z.log2_lt_pow2; lia). lia. }
  change (Z.pos (digits2_pos p)) with (Zdigits2 (Z.pos p)).
  fold fexp64. rewrite Z.add_0_r, fexp64_eq.
  remember (Z.max (Zdigits2 (Z.pos p) - 53) (-1074)) as f eqn:Hf.
  destruct (shl_align p 0 f) as [mz ez] eqn:Hal.
  assert (Hb : Zdigits2 (Z.pos mz) <= 63 /\ -52 <= ez <= 0).
  { unfold shl_align in Hal.
    destruct (f - 0) as [|k|k] eqn:Hk; injection Hal as <- <-; try lia.
    rewrite Pos_iter_xO, Zdigits2_mul_pow2 by lia.
    pose proof (Pos2Z.opp_pos k). lia. }
  destruct (binary_round_aux_finite false (Z.pos mz) ez loc_Exact 63 (-52) 0)
    as [H | (m & e & H & He & Hm)]; try lia; [now left|].
  right. exists m, e. repeat split; try assumption; lia.
Qed.


Lemma Sprintf_d_digit (k : Z) :
  0 <= k <= 9 ->
  exists d, Sprintf_d k = String d "" /\ (48 <= code d <= 57)%N.
Proof.
  intros Hk.
  assert (H : k = 0 \/ k = 1 \/ k = 2 \/ k = 3 \/ k = 4 \/
              k = 5 \/ k = 6 \/ k = 7 \/ k = 8 \/ k = 9) by lia.
  repeat (destruct H as [-> | H]); try subst k;
    (eexists; split; [reflexivity | vm_compute; split; discriminate]).
Qed.

(** [%.1f] prints a zero or a finite double with exactly one digit after the
    point. *)
Lemma Sprintf_f1_one_decimal (x : float64) :
  (exists s, x = S754_zero s) \/ (exists s m e, x = S754_finite s m e) ->
  exists w d,
    Sprintf_f1 x = w ++ "." ++ String d "" /\ (48 <= code d <= 57)%N.
Proof.
  intros Hx.
  assert (Hshape : exists s : bool,
             Sprintf_f1 x = (if s then "-" else "") ++
                            Sprintf_d (tenths x / 10) ++ "." ++ Sprintf_d (tenths x mod 10)).
  { destruct Hx as [[s ->] | (s & m & e & ->)]; exists s; reflexivity. }
  destruct Hshape as [s Hs]. rewrite Hs.
  destruct (Sprintf_d_digit (tenths x mod 10)) as (d & Hd & Hrange).
  { pose proof (Z.mod_pos_bound (tenths x) 10). lia. }
  exists ((if s then "-" else "") ++ Sprintf_d (tenths x / 10)), d.
  split; [|exact Hrange].
  rewrite Hd. now rewrite append_assoc.
Qed.


(* ================================================================== *)
(** * The content [processFile] sets *)
(* ================================================================== *)

Lemma Content_setContent (n : FileSystemNode) (c : string) : Content (setContent n c) = c.
Proof. reflexivity. Qed.

(* ================================================================== *)
(** * [float64]: the value of a quotient and the digits printed *)
(* ================================================================== *)

Lemma shr_1_half (r : shr_record) : 0 <= shr_m r -> shr_m (shr_1 r) = shr_m r / 2.
Proof.
  destruct r as [m rb sb]. cbn [shr_m]. intros H.
  destruct m as [|[p|p|]|p]; cbn [shr_1 shr_m]; try reflexivity; try lia.
  - rewrite Pos2Z.inj_xI. apply Z.div_unique with 1; lia.
  - rewrite Pos2Z.inj_xO. apply Z.div_unique with 0; lia.
Qed.

Lemma iter_shr_1_value (p : positive) :
  forall r, 0 <= shr_m r -> shr_m (iter_pos shr_1 p r) = shr_m r / 2 ^ Z.pos p.
Proof.
  assert (Hnn : forall q r, 0 <= shr_m r -> 0 <= shr_m (iter_pos shr_1 q r)).
  { intros q r Hr.
    apply (iter_pos_inv shr_1 (fun x => 0 <= shr_m x)); [|exact Hr].
    intros x Hx. rewrite shr_1_half by exact Hx. apply Z.div_pos; lia. }
  assert (HI : forall q, 2 ^ Z.pos q~1 = 2 * 2 ^ Z.pos q * 2 ^ Z.pos q).
  { intros q. replace (Z.pos q~1) with (1 + Z.pos q + Z.pos q) by lia.
    rewrite !Z.pow_add_r by lia. reflexivity. }
  assert (HO : forall q, 2 ^ Z.pos q~0 = 2 ^ Z.pos q * 2 ^ Z.pos q).
  { intros q. replace (Z.pos q~0) with (Z.pos q + Z.pos q) by lia.
    rewrite !Z.pow_add_r by lia. reflexivity. }
  induction p as [p IH|p IH|]; intros r Hr; simpl iter_pos.
  - assert (H1 : 0 <= shr_m (shr_1 r)) by (rewrite shr_1_half by exact Hr; apply Z.div_pos; lia).
    rewrite IH by (apply Hnn; exact H1). rewrite IH by exact H1.
    rewrite shr_1_half by exact Hr.
    rewrite !Z.div_div by (try apply Z.pow_pos_nonneg; lia).
    rewrite HI. f_equal. lia.
  - rewrite IH by (apply Hnn; exact Hr). rewrite IH by exact Hr.
    rewrite !Z.div_div by (try apply Z.pow_pos_nonneg; lia).
    rewrite HO. f_equal.
  - now apply shr_1_half.
Qed.

(** [shr_fexp] divides the mantissa by a power of two and adds the exponent
    of that power to the exponent. *)
Lemma shr_fexp_value (m e : Z) (l : location) (r' : shr_record) (e' : Z) :
  0 <= m ->
  shr_fexp 53 1024 m e l = (r', e') ->
  e <= e' <= Z.max e (fexp64 (Zdigits2 m + e)) /\ shr_m r' = m / 2 ^ (e' - e).
Proof.
  intros Hm H.
  split; [apply (shr_fexp_bound m e l r' e' Hm H)|].
  revert H. unfold shr_fexp, shr. fold fexp64.
  assert (Hrec : shr_m (shr_record_of_loc m l) = m) by (destruct l as [|[]]; reflexivity).
  destruct (fexp64 (Zdigits2 m + e) - e) as [|n|n] eqn:Hn;
    intros H; injection H as <- <-.
  - rewrite Hrec, Z.sub_diag. simpl. now rewrite Z.div_1_r.
  - rewrite iter_shr_1_value by (rewrite Hrec; exact Hm).
    rewrite Hrec. f_equal. f_equal. lia.
  - rewrite Hrec, Z.sub_diag. simpl. now rewrite Z.div_1_r.
Qed.

Lemma Zdigits2_lt_pow2 (a n : Z) : 0 <= a < 2 ^ n -> 0 <= n -> Zdigits2 a <= n.
Proof.
  intros [Ha Hlt] Hn. destruct (Z.eq_dec a 0) as [->|Hne]; [simpl; lia|].
  rewrite Zdigits2_log2 by lia.
  assert (Z.log2 a < n) by (apply Z.log2_lt_pow2; lia). lia.
Qed.

Lemma Zdigits2_bound (a : Z) : 0 <= a -> a < 2 ^ Zdigits2 a.
Proof.
  intros Ha. destruct (Z.eq_dec a 0) as [->|Hne]; [simpl; lia|].
  rewrite Zdigits2_log2 by lia.
  pose proof (Z.log2_spec a). unfold Z.succ in *. lia.
Qed.

Lemma Zdigits2_nonneg (a : Z) : 0 <= Zdigits2 a.
Proof. destruct a; simpl; lia. Qed.

Lemma Zdigits2_div_pow2 (a t : Z) :
  0 <= a -> 0 <= t -> Zdigits2 (a / 2 ^ t) <= Z.max 0 (Zdigits2 a - t).
Proof.
  intros Ha Ht.
  pose proof (Zdigits2_bound a Ha) as Hb.
  pose proof (Zdigits2_nonneg a) as Hd.
  assert (Hp : 0 < 2 ^ t) by (apply Z.pow_pos_nonneg; lia).
  destruct (Z.le_gt_cases (Zdigits2 a) t) as [Hle|Hgt].
  - assert (a < 2 ^ t).
    { eapply Z.lt_le_trans; [exact Hb|]. apply Z.pow_le_mono_r; lia. }
    rewrite Z.div_small by lia. simpl. lia.
  - apply Zdigits2_lt_pow2; [|lia]. split; [apply Z.div_pos; lia|].
    apply Z.div_lt_upper_bound; [lia|].
    rewrite <- Z.pow_add_r by lia.
    replace (t + Z.max 0 (Zdigits2 a - t)) with (Zdigits2 a) by lia. exact Hb.
Qed.

(** The mantissa [binary_round_aux] returns is the given one divided by a
    power of two, or one more; the exponent grows by the exponent of that
    power, by no more than rounding to 53 digits asks for. *)
Lemma binary_round_aux_value (s : bool) (mx ex : Z) (lx : location) :
  0 <= mx ->
  exists M e,
    ex <= e <= Z.max ex (fexp64 (Zdigits2 mx + ex)) + 1 /\
    mx / 2 ^ (e - ex) <= M <= mx / 2 ^ (e - ex) + 1 /\
    (e <= 971 ->
     binary_round_aux 53 1024 s mx ex lx =
     match M with
     | Z.pos m => S754_finite s m e
     | _ => S754_zero s
     end).
Proof.
  intros Hmx. unfold binary_round_aux.
  destruct (shr_fexp 53 1024 mx ex lx) as [r1 e1] eqn:H1.
  destruct (shr_fexp_value _ _ _ _ _ Hmx H1) as [He1 Hr1].
  set (m1 := round_nearest_even (shr_m r1) (loc_of_shr_record r1)).
  assert (Hm1 : shr_m r1 <= m1 <= shr_m r1 + 1) by apply round_nearest_even_bound.
  assert (Hp1 : 0 < 2 ^ (e1 - ex)) by (apply Z.pow_pos_nonneg; lia).
  assert (Ha : 0 <= shr_m r1) by (rewrite Hr1; apply Z.div_pos; lia).
  destruct (shr_fexp 53 1024 m1 e1 loc_Exact) as [r2 e2] eqn:H2.
  assert (Hm1' : 0 <= m1) by lia.
  destruct (shr_fexp_value _ _ _ _ _ Hm1' H2) as [He2 Hr2].
  assert (Hp2 : 0 < 2 ^ (e2 - e1)) by (apply Z.pow_pos_nonneg; lia).
  rewrite fexp64_eq in He1, He2.
  pose proof (Zdigits2_div_pow2 mx (e1 - ex) Hmx ltac:(lia)) as Hda.
  rewrite <- Hr1 in Hda.
  assert (Hdm1 : Zdigits2 m1 <= Zdigits2 (shr_m r1) + 1).
  { eapply Z.le_trans; [apply (Zdigits2_mono m1 (shr_m r1 + 1)); lia|].
    apply Zdigits2_succ; lia. }
  exists (shr_m r2), e2.
  assert (Hsplit : mx / 2 ^ (e2 - ex) = shr_m r1 / 2 ^ (e2 - e1)).
  { rewrite Hr1, Z.div_div by lia. f_equal.
    rewrite <- Z.pow_add_r by lia. f_equal. lia. }
  split; [rewrite fexp64_eq; lia|]. split.
  - rewrite Hsplit, Hr2. split.
    + apply Z.div_le_mono; lia.
    + eapply Z.le_trans; [apply (Z.div_le_mono m1 (shr_m r1 + 1)); lia|].
      assert (shr_m r1 + 1 <= shr_m r1 + 1 * 2 ^ (e2 - e1)) by lia.
      eapply Z.le_trans; [apply Z.div_le_mono; [lia | eassumption]|].
      rewrite Z.div_add by lia. lia.
  - intros Hsmall.
    assert (Hr2nn : 0 <= shr_m r2) by (rewrite Hr2; apply Z.div_pos; lia).
    destruct (shr_m r2) as [|m|m]; [reflexivity | | lia].
    destruct (Z.leb_spec e2 (1024 - 53)); [reflexivity | lia].
Qed.

(** A mantissa of 53 digits with a moderate exponent is returned as it is. *)
Lemma binary_round_aux_exact (s : bool) (m : positive) (e : Z) :
  Zdigits2 (Z.pos m) = 53 -> -1074 <= e <= 971 ->
  binary_round_aux 53 1024 s (Z.pos m) e loc_Exact = S754_finite s m e.
Proof.
  intros Hd He.
  assert (Hshr : forall m', Zdigits2 (Z.pos m') = 53 ->
            shr_fexp 53 1024 (Z.pos m') e loc_Exact
            = (shr_record_of_loc (Z.pos m') loc_Exact, e)).
  { intros m' Hd'. unfold shr_fexp. fold fexp64. rewrite Hd', fexp64_eq.
    replace (Z.max (53 + e - 53) (-1074) - e) with 0 by lia. reflexivity. }
  unfold binary_round_aux. rewrite (Hshr m Hd). cbn [shr_record_of_loc shr_m loc_of_shr_record round_nearest_even].
  rewrite (Hshr m Hd). cbn [shr_record_of_loc shr_m].
  destruct (Z.leb_spec e (1024 - 53)); [reflexivity | lia].
Qed.

(** The double of a positive integer below [2^53] is that integer: its
    mantissa is the integer shifted to 53 digits. *)
Lemma float64_of_int_exact (z : Z) :
  0 < z < 2 ^ 53 ->
  exists m, float64_of_int z = S754_finite false m (Zdigits2 z - 53) /\
            Z.pos m = z * 2 ^ (53 - Zdigits2 z) /\
            Zdigits2 (Z.pos m) = 53.
Proof.
  intros Hz. destruct z as [|p|p]; try lia.
  unfold float64_of_int, binary_normalize, binary_round.
  assert (Hdp : 1 <= Zdigits2 (Z.pos p) <= 53).
  { rewrite Zdigits2_log2 by lia.
    pose proof (Z.log2_nonneg (Z.pos p)).
    assert (Z.log2 (Z.pos p) < 53) by (apply Z.log2_lt_pow2; lia). lia. }
  change (Z.pos (digits2_pos p)) with (Zdigits2 (Z.pos p)).
  fold fexp64. rewrite Z.add_0_r, fexp64_eq.
  replace (Z.max (Zdigits2 (Z.pos p) - 53) (-1074)) with (Zdigits2 (Z.pos p) - 53) by lia.
  unfold shl_align.
  destruct (Zdigits2 (Z.pos p) - 53 - 0) as [|k|k] eqn:Hk; try lia.
  - assert (H53 : Zdigits2 (Z.pos p) = 53) by lia.
    exists p. split; [|split; [rewrite H53; simpl; lia | exact H53]].
    rewrite H53. change (53 - 53) with 0.
    apply binary_round_aux_exact; [exact H53 | lia].
  - exists (Pos.iter xO p k).
    assert (Hk' : Z.pos k = 53 - Zdigits2 (Z.pos p)) by lia.
    assert (Hdk : Zdigits2 (Z.pos (Pos.iter xO p k)) = 53).
    { rewrite Pos_iter_xO, Zdigits2_mul_pow2 by lia. lia. }
    split; [|split; [rewrite Pos_iter_xO, Hk'; reflexivity | exact Hdk]].
    apply binary_round_aux_exact; [exact Hdk | lia].
Qed.

(** The quotient of two positive integers below [2^53], as a double: a
    mantissa [M] and an exponent [e] with [M * 2^e] within one unit of the
    last place of the exact quotient. *)
Lemma float64_div_value (x d : Z) :
  0 < x < 2 ^ 53 -> 0 < d < 2 ^ 53 ->
  Zdigits2 x - Zdigits2 d <= 50 ->
  exists M e,
    0 <= M /\ e <= Zdigits2 x - Zdigits2 d - 51 /\
    (M - 1) * d <= x * 2 ^ (- e) < (M + 1) * d /\
    float64_div (float64_of_int x) (float64_of_int d) =
    match M with
    | Z.pos m => S754_finite false m e
    | _ => S754_zero false
    end.
Proof.
  intros Hx Hd HL.
  destruct (float64_of_int_exact x Hx) as (mx & -> & Hmx & Hdx).
  destruct (float64_of_int_exact d Hd) as (my & -> & Hmy & Hdy).
  assert (HDx : 1 <= Zdigits2 x <= 53).
  { rewrite Zdigits2_log2 by lia. pose proof (Z.log2_nonneg x).
    assert (Z.log2 x < 53) by (apply Z.log2_lt_pow2; lia). lia. }
  assert (HDd : 1 <= Zdigits2 d <= 53).
  { rewrite Zdigits2_log2 by lia. pose proof (Z.log2_nonneg d).
    assert (Z.log2 d < 53) by (apply Z.log2_lt_pow2; lia). lia. }
  set (a := 53 - Zdigits2 x) in *. set (b := 53 - Zdigits2 d) in *.
  unfold float64_div, SFdiv, SFdiv_core_binary. fold fexp64.
  rewrite Hdx, Hdy, fexp64_eq.
  set (ex := Zdigits2 x - 53). set (ey := Zdigits2 d - 53).
  replace (Z.min (Z.max (53 + ex - (53 + ey) - 53) (-1074)) (ex - ey))
    with (ex - ey - 53) by lia.
  replace (ex - ey - (ex - ey - 53)) with 53 by lia.
  rewrite Z.shiftl_mul_pow2 by lia.
  set (m' := Z.pos mx * 2 ^ 53).
  pose proof (Z_div_mod m' (Z.pos my) eq_refl) as Hdiv.
  destruct (Z.div_eucl m' (Z.pos my)) as [q r].
  destruct Hdiv as [Hq Hr].
  assert (Hm'pos : 0 < m') by (unfold m'; lia).
  assert (Hq0 : 0 <= q) by nia.
  assert (HPa : 0 < 2 ^ a) by (apply Z.pow_pos_nonneg; lia).
  assert (HPb : 0 < 2 ^ b) by (apply Z.pow_pos_nonneg; lia).
  assert (Hmyl : 2 ^ 52 <= Z.pos my).
  { pose proof (Zdigits2_log2 (Z.pos my) ltac:(lia)) as Hl. rewrite Hdy in Hl.
    assert (Hl52 : Z.log2 (Z.pos my) = 52) by lia.
    pose proof (Z.log2_spec (Z.pos my) ltac:(lia)) as Hs. rewrite Hl52 in Hs. lia. }
  assert (Hmxu : Z.pos mx < 2 ^ 53).
  { pose proof (Zdigits2_bound (Z.pos mx) ltac:(lia)) as Hbd. rewrite Hdx in Hbd. exact Hbd. }
  assert (Hqd : Zdigits2 q <= 54).
  { apply Zdigits2_lt_pow2; [|lia]. split; [exact Hq0|].
    assert (q * 2 ^ 52 < 2 ^ 54 * 2 ^ 52); [|nia].
    assert (m' < 2 ^ 53 * 2 ^ 53) by (unfold m'; nia).
    change (2 ^ 54 * 2 ^ 52) with (2 ^ 53 * 2 ^ 53). nia. }
  destruct (binary_round_aux_value (xorb false false) q (ex - ey - 53)
              (new_location (Z.pos my) r) Hq0) as (M & e & He & HM & Heq).
  rewrite fexp64_eq in He.
  exists M, e.
  set (t := e - (ex - ey - 53)) in *.
  assert (Ht : 0 <= t <= 2) by (unfold t; lia).
  assert (HPt : 0 < 2 ^ t) by (apply Z.pow_pos_nonneg; lia).
  pose proof (Z.div_mod q (2 ^ t) ltac:(lia)) as Hqt.
  pose proof (Z.mod_pos_bound q (2 ^ t) HPt) as Hqm.
  assert (HM0 : 0 <= M).
  { assert (0 <= q / 2 ^ t) by (apply Z.div_pos; lia). lia. }
  split; [exact HM0|]. split; [unfold ex, ey in He; lia|]. split.
  - (* the value *)
    assert (Hlow : (M - 1) * 2 ^ t <= q) by nia.
    assert (Hhigh : q + 1 <= (M + 1) * 2 ^ t) by nia.
    assert (Hexp : - e + (t + b) = a + 53) by (unfold t, ex, ey, a, b; lia).
    assert (Hne : 0 <= - e) by (unfold ex, ey in He; lia).
    set (P := 2 ^ (t + b)).
    assert (HP : 0 < P) by (apply Z.pow_pos_nonneg; lia).
    assert (Hm'eq : m' = x * 2 ^ (- e) * P).
    { assert (Hpw : 2 ^ (- e) * 2 ^ (t + b) = 2 ^ a * 2 ^ 53).
      { rewrite <- !Z.pow_add_r by lia. f_equal. exact Hexp. }
      unfold m', P. rewrite Hmx, <- !Z.mul_assoc, Hpw. reflexivity. }
    assert (Hmyeq : 2 ^ t * Z.pos my = d * P).
    { unfold P. rewrite Hmy, Z.pow_add_r by lia. lia. }
    split.
    + apply (Z.mul_le_mono_pos_r _ _ P HP).
      replace ((M - 1) * d * P) with ((M - 1) * (2 ^ t * Z.pos my)) by (rewrite Hmyeq; lia).
      rewrite <- Hm'eq. nia.
    + apply (Z.mul_lt_mono_pos_r P _ _ HP).
      replace ((M + 1) * d * P) with ((M + 1) * (2 ^ t * Z.pos my)) by (rewrite Hmyeq; lia).
      rewrite <- Hm'eq. nia.
  - apply Heq. unfold ex, ey in He. lia.
Qed.

(** [round_half_even num den] is within a half of [num / den]. *)
Lemma round_half_even_spec (num den : Z) :
  0 <= num -> 0 < den ->
  0 <= round_half_even num den /\
  2 * Z.abs (round_half_even num den * den - num) <= den.
Proof.
  intros Hn Hd. unfold round_half_even.
  pose proof (Z.div_mod num den ltac:(lia)) as Hdm.
  pose proof (Z.mod_pos_bound num den Hd) as Hr.
  assert (Hq : 0 <= num / den) by (apply Z.div_pos; lia).
  set (q := num / den) in *. set (r := num mod den) in *.
  assert (Hqd : q * den = num - r) by lia.
  assert (Hqd' : (q + 1) * den = num - r + den) by lia.
  destruct (Z.ltb_spec (2 * r) den).
  - split; [exact Hq|]. rewrite Hqd. lia.
  - destruct (Z.gtb_spec (2 * r) den).
    + split; [lia|]. rewrite Hqd'. lia.
    + destruct (Z.even q); (split; [lia|]); rewrite ?Hqd, ?Hqd'; lia.
Qed.

(** ** [%d] prints the decimal digits of the number *)

Lemma decimalFrom_pos (d : Decimal.uint) :
  forall a : positive,
    decimalFrom (Z.pos a) (NilEmpty.string_of_uint d) = Some (Z.pos (Pos.of_uint_acc d a)).
Proof.
  induction d as [|d IH|d IH|d IH|d IH|d IH|d IH|d IH|d IH|d IH|d IH]; intros a;
    cbn [NilEmpty.string_of_uint decimalFrom Pos.of_uint_acc]; [reflexivity|..];
    match goal with
    | |- context [digitValue ?c] =>
        let v := eval vm_compute in (digitValue c) in change (digitValue c) with v
    end;
    cbv iota beta; rewrite <- IH; f_equal; lia.
Qed.

Lemma decimalFrom_zero (d : Decimal.uint) :
  decimalFrom 0 (NilEmpty.string_of_uint d) = Some (Z.of_N (Pos.of_uint d)).
Proof.
  induction d as [|d IH|d IH|d IH|d IH|d IH|d IH|d IH|d IH|d IH|d IH];
    cbn [NilEmpty.string_of_uint decimalFrom Pos.of_uint]; [reflexivity|..];
    match goal with
    | |- context [digitValue ?c] =>
        let v := eval vm_compute in (digitValue c) in change (digitValue c) with v
    end;
    cbv iota beta; [exact IH | apply decimalFrom_pos ..].
Qed.

Lemma decimal_Sprintf_d (z : Z) : 0 <= z -> decimal (Sprintf_d z) = Some z.
Proof.
  intros Hz. destruct z as [|p|p]; [reflexivity | | lia].
  unfold Sprintf_d. cbn [Z.to_int NilZero.string_of_int].
  pose proof (DecimalPos.Unsigned.of_to p) as Hp.
  pose proof (decimalFrom_zero (Pos.to_uint p)) as Hd. rewrite Hp in Hd.
  destruct (Pos.to_uint p); [discriminate Hp | exact Hd ..].
Qed.

Lemma Sprintf_d_digit_value (k : Z) :
  0 <= k <= 9 ->
  exists c, Sprintf_d k = String c "" /\ digitValue c = Some k.
Proof.
  intros Hk.
  assert (H : k = 0 \/ k = 1 \/ k = 2 \/ k = 3 \/ k = 4 \/
              k = 5 \/ k = 6 \/ k = 7 \/ k = 8 \/ k = 9) by lia.
  repeat (destruct H as [-> | H]); try subst k;
    (eexists; split; reflexivity).
Qed.

(** ** [%.1f] of a quotient of integers *)

(** The quotient of two integers, the dividend below [2^46], is printed as a
    number with one decimal within a half of a tenth of the exact quotient. *)
Lemma Sprintf_f1_quotient (x d : Z) :
  0 < x < 2 ^ 46 -> 0 < d < 2 ^ 53 ->
  exists T,
    oneDecimal (Sprintf_f1 (float64_div (float64_of_int x) (float64_of_int d))) "" T /\
    2 * Z.abs (T * d - 10 * x) <= d.
Proof.
  intros Hx Hd.
  assert (HDx : 1 <= Zdigits2 x <= 46).
  { rewrite Zdigits2_log2 by lia. pose proof (Z.log2_nonneg x).
    assert (Z.log2 x < 46) by (apply Z.log2_lt_pow2; lia). lia. }
  assert (HDd : 1 <= Zdigits2 d).
  { rewrite Zdigits2_log2 by lia. pose proof (Z.log2_nonneg d). lia. }
  destruct (float64_div_value x d) as (M & e & HM & He & [Hlo Hhi] & Heq); try lia.
  set (res := float64_div (float64_of_int x) (float64_of_int d)) in *.
  set (N := 2 ^ (- e)) in *.
  assert (HN : 32 * d < N).
  { pose proof (Zdigits2_bound d ltac:(lia)) as Hb.
    assert (2 ^ (Zdigits2 d + 5) <= N) by (apply Z.pow_le_mono_r; lia).
    rewrite Z.pow_add_r in * by lia. change (2 ^ 5) with 32 in *. lia. }
  destruct (round_half_even_spec (10 * M) N ltac:(lia) ltac:(lia)) as [HT0 HT].
  set (T := round_half_even (10 * M) N) in *.
  assert (Hten : tenths res = T /\
                 Sprintf_f1 res = Sprintf_d (tenths res / 10) ++ "." ++ Sprintf_d (tenths res mod 10)).
  { rewrite Heq. destruct M as [|m|m]; [| |lia].
    - split; [|reflexivity]. unfold T, round_half_even. cbn [tenths].
      change (10 * 0) with 0. rewrite Z.div_0_l, Z.mod_0_l by lia.
      destruct (Z.ltb_spec (2 * 0) N); [reflexivity | lia].
    - split; [|reflexivity]. cbn [tenths].
      destruct (Z.leb_spec 0 e); [lia | reflexivity]. }
  destruct Hten as [Hten Hpr]. rewrite Hpr, Hten.
  exists T. split.
  - destruct (Sprintf_d_digit_value (T mod 10)) as (c & Hc & Hv).
    { pose proof (Z.mod_pos_bound T 10). lia. }
    exists (Sprintf_d (T / 10)), c, (T / 10), (T mod 10).
    rewrite Hc. repeat split; try assumption.
    + apply decimal_Sprintf_d. apply Z.div_pos; lia.
    + pose proof (Z.div_mod T 10). lia.
  - assert (HTd : 2 * Z.abs (T * N - 10 * M) * d <= N * d) by nia.
    destruct (Z.le_gt_cases (2 * Z.abs (T * d - 10 * x)) d) as [Hok|Hbad]; [exact Hok|].
    exfalso.
    assert (Hbad' : (d + 1) * N <= 2 * Z.abs (T * d - 10 * x) * N) by nia.
    assert (Habs : Z.abs (T * d - 10 * x) * N = Z.abs (T * d * N - 10 * x * N)).
    { rewrite <- (Z.abs_eq N) at 1 by lia. rewrite <- Z.abs_mul. f_equal. lia. }
    assert (Habs2 : Z.abs (T * N - 10 * M) * d = Z.abs (T * N * d - 10 * M * d)).
    { rewrite <- (Z.abs_eq d) at 1 by lia. rewrite <- Z.abs_mul. f_equal. lia. }
    lia.
Qed.

(** ** The numbers [formatTokenCount] prints *)

Lemma oneDecimal_suffix (s suffix : string) (T : Z) :
  oneDecimal s "" T -> oneDecimal (s ++ suffix) suffix T.
Proof.
  intros (w & c & W & k & -> & HW & Hc & HT).
  exists w, c, W, k. repeat split; try assumption.
  now rewrite !append_assoc.
Qed.


(* ================================================================== *)
(** * The claims *)
(* ================================================================== *)

(** ** C1: exclusion and inclusion *)




(** ** C2: the aggregates of a directory *)

(** C2, on the code: the size of a directory node starts from the size its
    own [FileInfo] reports, not from zero, and [processDirectory] adds the
    sizes of the children to it (in 64-bit arithmetic). An empty directory is
    returned with the size of its own entry and no children; the directory of
    the example has size 4108 while the sizes of its children sum to 12. Its
    file count, 1, is the sum over its children. *)
Theorem C2_directory_size_starts_from_own_size :
  (forall listing path info depth cfg stats,
      let d := fst (fst (processDirectory listing (NewFileSystemNode path info depth)
                           cfg stats)) in
      wrap64 (Size d) = wrap64 (infoSize info + sumZ (map Size (Children d)))) /\
  (forall name own path cfg,
      ProcessPath (mkSource (Some (Directory name (Some own) (Some []))) (Some path)) cfg
      = (Some (NewFileSystemNode path (mkFileInfo name true own) 0), None)) /\
  Size (treeOf (ProcessPath srcOneFile NewConfig)) = 4108 /\
  sumZ (map Size (Children (treeOf (ProcessPath srcOneFile NewConfig)))) = 12 /\
  FileCount (treeOf (ProcessPath srcOneFile NewConfig)) = 1 /\
  sumZ (map fileContribution (Children (treeOf (ProcessPath srcOneFile NewConfig)))) = 1.
Proof.
  split; [|split; [|repeat split; vm_compute; reflexivity]].
  - intros listing path info depth cfg stats.
    apply (processDirectory_Size listing (NewFileSystemNode path info depth)).
    reflexivity.
  - intros name own path cfg. unfold ProcessPath. simpl.
    unfold processDirectory, processDirectoryWith. simpl.
    destruct (0 >=? MaxDirDepth cfg); reflexivity.
Qed.

(** The file count of every directory of a walked tree is the sum over its
    children of 1 for a file and of the child's file count for a directory
    (in 64-bit arithmetic). *)
Theorem FileCount_is_sum_over_children (src : Source) (cfg : Config)
    (root d : FileSystemNode) (err : option error) :
  ProcessPath src cfg = (Some root, err) ->
  InTree d root ->
  FileCount d = wrap64 (sumZ (map fileContribution (Children d))).
Proof.
  intros Hrun Hin.
  apply (Walked_FileCount (fun _ => True)).
  eapply InTree_Walked; [|exact Hin].
  eapply ProcessPath_Walked; [|exact Hrun].
  intros e _. apply NamesIn_True.
Qed.

Lemma FileCount_is_sum_witness :
  FileCount treeTwoLevels = wrap64 (sumZ (map fileContribution (Children treeTwoLevels))).
Proof.
  refine (FileCount_is_sum_over_children srcTwoLevels NewConfig treeTwoLevels
            treeTwoLevels None _ (InTree_here _)).
  vm_compute. reflexivity.
Defined.

(** ** C3: a file larger than the maximum single-file size *)

(** C3, as stated, fails: the file over the limit is not among the children
    of the directory; only the small file is. *)
Lemma C3_oversized_file_is_omitted :
  option_map (fun root => map Name (Children root))
             (fst (ProcessPath srcBigAndSmall cfgTenBytes)) = Some ["ok.txt"] /\
  option_map FileCount (fst (ProcessPath srcBigAndSmall cfgTenBytes)) = Some 1.
Proof. split; vm_compute; reflexivity. Qed.

(** C3, amended: in a directory walk a file whose size exceeds the maximum
    single-file size is skipped before [processFile] is called: the parent
    and the counters are unchanged, the walk returns what it returns without
    that entry, hence the same token estimate; when [processFile] is called
    on such a file (the scan root), the content of the node it returns is the
    sentinel ["[File too large]"], there is no error, no call on the file was
    made and the other fields of the node are as they were. *)
Theorem C3_oversized_file_skipped_in_walk (cfg : Config) (name : string) (size : Z)
    (io : FileIO) :
  MaxFileSize cfg < size ->
  (forall st, visitEntry cfg (File name (Some size) io) st = st) /\
  (forall before after node stats,
      processDirectory (Some (before ++ File name (Some size) io :: after)%list)
        node cfg stats =
      processDirectory (Some (before ++ after)%list) node cfg stats) /\
  (forall before after node stats,
      estimateTokens
        (fst (fst (processDirectory
                     (Some (before ++ File name (Some size) io :: after)%list)
                     node cfg stats))) =
      estimateTokens
        (fst (fst (processDirectory (Some (before ++ after)%list) node cfg stats)))) /\
  (forall path depth,
      Content (fst (fst (processFile
                           (NewFileSystemNode path (mkFileInfo name false size) depth)
                           cfg io))) = "[File too large]" /\
      processFile (NewFileSystemNode path (mkFileInfo name false size) depth) cfg io =
      (setContent (NewFileSystemNode path (mkFileInfo name false size) depth)
                  "[File too large]", None, [])).
Proof.
  intros Hbig.
  assert (Hgt : (size >? MaxFileSize cfg) = true) by (apply Z.gtb_lt; lia).
  assert (Hskip : forall st, visitEntry cfg (File name (Some size) io) st = st).
  { intros [node stats]. rewrite visitEntry_File. cbv zeta. rewrite Hgt.
    destruct (negb _ || _); [reflexivity|].
    destruct (TotalFiles stats >=? MaxFiles cfg); [reflexivity|].
    destruct (add64 (TotalSize stats) size >? MaxTotalSize cfg); reflexivity. }
  split; [exact Hskip|]. split; [|split].
  - now apply processDirectory_skip.
  - intros. now rewrite (processDirectory_skip cfg _ Hskip).
  - intros path depth.
    assert (Hpf : processFile (NewFileSystemNode path (mkFileInfo name false size) depth)
                    cfg io =
                  (setContent (NewFileSystemNode path (mkFileInfo name false size) depth)
                     "[File too large]", None, [])).
    { unfold processFile. simpl Size. now rewrite Hgt. }
    split; [|exact Hpf]. rewrite Hpf. cbn [fst]. apply Content_setContent.
Qed.

Lemma C3_oversized_file_witness :
  MaxFileSize cfgTenBytes < 11 /\
  (forall st, visitEntry cfgTenBytes (File "big.txt" (Some 11) (regular "hello world")) st = st) /\
  Content (fst (fst (processFile
                       (NewFileSystemNode "/home/u/big.txt" (mkFileInfo "big.txt" false 11) 0)
                       cfgTenBytes (regular "hello world")))) = "[File too large]".
Proof.
  assert (Hbig : MaxFileSize cfgTenBytes < 11) by (vm_compute; reflexivity).
  split; [exact Hbig|].
  pose proof (C3_oversized_file_skipped_in_walk cfgTenBytes "big.txt" 11
                (regular "hello world") Hbig) as (Hskip & _ & _ & Hroot).
  split; [exact Hskip|]. exact (proj1 (Hroot "/home/u/big.txt" 0)).
Defined.

(** ** C4: the header of a file block *)

(** C4, as stated, fails: the block of [a.go], whose parent is the scan root,
    is headed [FILE: proj/a.go]; its relative path is not empty. *)
Lemma C4_root_file_header_not_empty :
  option_map formatFileContents (fst (ProcessPath srcTwoLevels NewConfig)) =
  Some (fileBlock "cmd/" "main.go" "main" ++ fileBlock "proj/" "a.go" "package main").
Proof. vm_compute. reflexivity. Qed.

(** C4, amended: the names in the listings being file names and the path of
    the root a cleaned absolute path, the block of every file of the tree is
    headed by the base name of the directory part of its path, a separator
    and its name, and for a file [f] that is a child of [d] that directory
    part is the path of [d]: the relative path is never empty, and for a file
    directly in the scan root it is the base name of the root's absolute
    path. The file-contents section is the sequence of these blocks. *)
Theorem C4_file_header (src : Source) (cfg : Config) (root : FileSystemNode)
    (err : option error) :
  (forall e, stat src = Some e -> NamesIn simpleName e) ->
  (forall p, abs src = Some p -> cleanAbs p) ->
  ProcessPath src cfg = (Some root, err) ->
  (forall f, InTree f root -> IsDir f = false ->
     formatFileContent f = fileBlock (Base (Dir (Path f)) ++ "/") (Name f) (Content f)) /\
  (forall d f, InTree d root -> In f (Children d) ->
     Dir (Path f) = Path d /\ Base (Path f) = Name f) /\
  (forall d f, InTree d root -> In f (Children d) -> IsDir f = false ->
     formatFileContent f = fileBlock (Base (Path d) ++ "/") (Name f) (Content f)) /\
  formatFileContents root =
  String.concat "" (map (fun f => fileBlock (Base (Dir (Path f)) ++ "/") (Name f) (Content f))
                        (fileLeaves root)).
Proof.
  intros Hnames Habs Hrun.
  assert (Hw : Walked simpleName root) by (eapply ProcessPath_Walked; eassumption).
  assert (Hp : cleanAbs (Path root)).
  { apply Habs. eapply ProcessPath_root_path; eassumption. }
  assert (Hblock : forall f, InTree f root -> IsDir f = false ->
            formatFileContent f =
            fileBlock (Base (Dir (Path f)) ++ "/") (Name f) (Content f)).
  { intros f Hin Hfile.
    destruct (InTree_cleanAbs root f Hin Hw Hp) as [_ Hpf].
    unfold formatFileContent, fileBlock. rewrite Hfile.
    apply cleanAbs_Base_Dir_not_dot, String.eqb_neq in Hpf. now rewrite Hpf. }
  assert (Hparent : forall d f, InTree d root -> In f (Children d) ->
            Dir (Path f) = Path d /\ Base (Path f) = Name f).
  { intros d f Hin Hf.
    destruct (InTree_cleanAbs root d Hin Hw Hp) as [Hwd Hpd].
    pose proof (Walked_children _ d Hwd) as H. rewrite Forall_forall in H.
    destruct (H f Hf) as (_ & Hnf & Hpf & _).
    rewrite Hpf. now destruct (cleanAbs_Join (Path d) (Name f) Hpd Hnf) as (_ & ? & ?). }
  split; [exact Hblock|]. split; [exact Hparent|]. split.
  - intros d f Hin Hf Hfile.
    rewrite <- (proj1 (Hparent d f Hin Hf)).
    apply Hblock; [|exact Hfile]. now apply InTree_step with d.
  - rewrite formatFileContents_blocks. f_equal.
    apply map_ext_in. intros f Hf.
    destruct (fileLeaves_InTree root f Hf). now apply Hblock.
Qed.

Lemma C4_file_header_witness :
  (forall f, InTree f treeTwoLevels -> IsDir f = false ->
     formatFileContent f = fileBlock (Base (Dir (Path f)) ++ "/") (Name f) (Content f)) /\
  (forall d f, InTree d treeTwoLevels -> In f (Children d) ->
     Dir (Path f) = Path d /\ Base (Path f) = Name f) /\
  (forall d f, InTree d treeTwoLevels -> In f (Children d) -> IsDir f = false ->
     formatFileContent f = fileBlock (Base (Path d) ++ "/") (Name f) (Content f)) /\
  formatFileContents treeTwoLevels =
  String.concat "" (map (fun f => fileBlock (Base (Dir (Path f)) ++ "/") (Name f) (Content f))
                        (fileLeaves treeTwoLevels)).
Proof.
  apply (C4_file_header srcTwoLevels NewConfig treeTwoLevels None).
  - intros e He. injection He as <-.
    constructor. intros es Hes. injection Hes as <-.
    repeat constructor; try (apply simpleName_intro; reflexivity).
    intros es Hes. injection Hes as <-.
    repeat constructor; apply simpleName_intro; reflexivity.
  - intros p Hp. injection Hp as <-.
    exists ["home"; "u"; "proj"]. split; [|reflexivity].
    repeat constructor; apply simpleName_intro; reflexivity.
  - vm_compute. reflexivity.
Defined.

(** ** C5: the order of the children *)

(** C5, as stated, fails: [b] ends up before [B], although the names are equal
    up to case and [B] is the smaller one byte for byte; the order the
    specification describes does not hold of the children. *)
Lemma C5_case_tie_not_byte_ordered :
  option_map (fun root => map Name (Children root))
             (fst (ProcessPath srcCaseTie NewConfig)) = Some ["z"; "b"; "B"] /\
  option_map (fun root => sortedBy specLe (Children root))
             (fst (ProcessPath srcCaseTie NewConfig)) = Some false /\
  String.ltb "B" "b" = true.
Proof. repeat split; vm_compute; reflexivity. Qed.

(** C5, amended: after a walk, at every node of the tree the children are
    ordered, directories before files and, within a kind, by lower-cased name
    (every child stands in [childOrder] before all later ones); [sortChildren]
    only permutes the children it is given. Nothing orders two names that are
    equal up to case. *)
Theorem C5_children_sorted (src : Source) (cfg : Config) (root d : FileSystemNode)
    (err : option error) :
  ProcessPath src cfg = (Some root, err) ->
  InTree d root ->
  StronglySorted childOrder (Children d) /\
  (forall n, Permutation (Children n) (Children (sortChildren n))).
Proof.
  intros Hrun Hin. split.
  - assert (Hw : Walked (fun _ => True) d).
    { eapply InTree_Walked; [|exact Hin].
      eapply ProcessPath_Walked; [|exact Hrun].
      intros e _. apply NamesIn_True. }
    eapply StronglySorted_impl; [|apply (Walked_sorted _ d Hw)].
    intros a b. apply childLe_spec.
  - intros n. apply sortedChildren_sorts.
Qed.

Lemma C5_children_sorted_witness :
  StronglySorted childOrder
    (Children (mkNode "proj" "/home/u/proj" true 8194 0 ""
       [ mkNode "z" "/home/u/proj/z" true 4096 1 "" [] 0 0;
         mkNode "b" "/home/u/proj/b" false 1 1 "2" [] 0 0;
         mkNode "B" "/home/u/proj/B" false 1 1 "1" [] 0 0 ] 2 1)).
Proof.
  refine (proj1 (C5_children_sorted srcCaseTie NewConfig _ _ None _ (InTree_here _))).
  vm_compute. reflexivity.
Defined.

(** ** C6: a NUL byte in the first 512 bytes *)



(** ** C7: the token estimate *)




(** The estimate and the summary of the two-level example: sixteen bytes of
    content, four tokens. *)
Example summary_two_levels :
  estimateTokens treeTwoLevels = 4 /\
  formatSummary treeTwoLevels NewConfig =
  "Directory: proj" ++ nl ++ nl ++ "Files analyzed: 2" ++ nl ++
  "Total size: 8.0 KB" ++ nl ++ nl ++ "Estimated tokens: 4" ++ nl.
Proof. split; vm_compute; reflexivity. Qed.

(** The renderings of some counts; [%.1f] rounds the double nearest to the
    quotient, so 1050 prints as [1.1k] and 1250 as [1.2k]. *)
Example formatTokenCount_samples :
  map formatTokenCount [0; 999; 1000; 1050; 1250; 4500; 999949; 999950; 1000000; 1234567]
  = ["0"; "999"; "1.0k"; "1.1k"; "1.2k"; "4.5k"; "999.9k"; "1000.0k"; "1.0M"; "1.2M"].
Proof. vm_compute. reflexivity. Qed.

(** ** C8: a file that cannot be read after it passed the checks *)

(** C8, as stated, fails: the file that could not be read is not in the tree;
    the walk went on and kept the file after it. *)
Lemma C8_unreadable_file_is_dropped :
  option_map (fun root => map Name (Children root))
             (fst (ProcessPath srcUnreadable NewConfig)) = Some ["ok.txt"] /\
  option_map FileCount (fst (ProcessPath srcUnreadable NewConfig)) = Some 1 /\
  snd (ProcessPath srcUnreadable NewConfig) = None.
Proof. repeat split; vm_compute; reflexivity. Qed.

(** C8, amended: when a file passes the size and binary checks and
    [os.ReadFile] fails, the content of the node [processFile] returns is
    ["[Error reading file]"] and the error is returned (the other fields of
    the node are as they were); in a directory walk the
    entry is then skipped (the parent and the counters are unchanged: the file
    is not in the tree) and the walk goes on: it returns what it returns
    without that entry. *)
Theorem C8_read_failure_skips_entry (cfg : Config) (name : string) (size : Z)
    (io : FileIO) (node : FileSystemNode) :
  size <= MaxFileSize cfg ->
  fst (isBinaryFile (Join (Path node) name) io) = false ->
  ReadFile io = None ->
  let child := NewFileSystemNode (Join (Path node) name) (mkFileInfo name false size)
                 (add64 (Depth node) 1) in
  Content (fst (fst (processFile child cfg io))) = "[Error reading file]" /\
  snd (fst (processFile child cfg io)) = Some (ErrReadFile (Path child)) /\
  (exists calls,
      processFile child cfg io =
      (setContent child "[Error reading file]", Some (ErrReadFile (Path child)), calls)) /\
  (forall stats, visitEntry cfg (File name (Some size) io) (node, stats) = (node, stats)) /\
  (forall before after stats,
      processDirectory (Some (before ++ File name (Some size) io :: after)%list)
        node cfg stats =
      processDirectory (Some (before ++ after)%list) node cfg stats).
Proof.
  intros Hsize Hbin Hread child.
  assert (Hpf : exists calls,
             processFile child cfg io =
             (setContent child "[Error reading file]",
              Some (ErrReadFile (Path child)), calls)).
  { unfold processFile. simpl Size.
    destruct (Z.gtb_spec size (MaxFileSize cfg)) as [Hgt|_]; [lia|].
    simpl Path. destruct (isBinaryFile (Join (Path node) name) io) as [b calls].
    simpl in Hbin. subst b. rewrite Hread. eexists. reflexivity. }
  assert (Hskip : forall n stats, Path n = Path node -> Depth n = Depth node ->
             visitEntry cfg (File name (Some size) io) (n, stats) = (n, stats)).
  { intros n stats HP HD. rewrite visitEntry_File. cbv zeta. rewrite HP, HD.
    fold child. destruct Hpf as [calls ->].
    repeat match goal with |- context [if ?b then _ else _] => destruct b end;
      reflexivity. }
  split; [|split; [|split; [exact Hpf|split]]].
  - destruct Hpf as [calls ->]. cbn [fst]. apply Content_setContent.
  - destruct Hpf as [calls ->]. reflexivity.
  - intros stats. now apply Hskip.
  - intros before after stats.
    unfold processDirectory, processDirectoryWith.
    destruct (Depth node >=? MaxDirDepth cfg); [reflexivity|].
    rewrite !fold_left_app, fold_left_cons.
    pose proof (fold_visit_identity cfg before (node, stats)) as Hid.
    destruct (fold_left _ before (node, stats)) as [n1 s1]. simpl in Hid.
    destruct Hid as (_ & HP & _ & HD & _).
    now rewrite (Hskip n1 s1 HP HD).
Qed.

Lemma C8_read_failure_witness :
  9 <= MaxFileSize NewConfig /\
  Content (fst (fst (processFile
                       (NewFileSystemNode (Join "/home/u/proj" "bad.txt")
                          (mkFileInfo "bad.txt" false 9) (add64 0 1))
                       NewConfig ioUnreadable))) = "[Error reading file]" /\
  (forall stats,
      visitEntry NewConfig (File "bad.txt" (Some 9) ioUnreadable)
        (NewFileSystemNode "/home/u/proj" (mkFileInfo "proj" true 4096) 0, stats) =
      (NewFileSystemNode "/home/u/proj" (mkFileInfo "proj" true 4096) 0, stats)).
Proof.
  assert (Hsize : 9 <= MaxFileSize NewConfig) by (vm_compute; discriminate).
  split; [exact Hsize|].
  pose proof (C8_read_failure_skips_entry NewConfig "bad.txt" 9 ioUnreadable
                (NewFileSystemNode "/home/u/proj" (mkFileInfo "proj" true 4096) 0)
                Hsize eq_refl eq_refl) as (Hcontent & _ & _ & Hskip & _).
  split; [exact Hcontent | exact Hskip].
Defined.

(** ** C9: the depth limit *)

(** C9, as stated, fails: with maximum depth 0 the root is at the limit, its
    entries are not read and the subdirectory is not listed. *)
Lemma C9_depth_zero_lists_nothing :
  option_map (fun root => map Name (Children root))
             (fst (ProcessPath srcNested (cfgDepth 0))) = Some [] /\
  snd (ProcessPath srcNested (cfgDepth 0)) = None.
Proof. split; vm_compute; reflexivity. Qed.

(** With maximum depth 1 the subdirectory is listed, without children. *)
Example depth_one_lists_subdirectory :
  option_map (fun root => map (fun c => (Name c, Depth c, Children c, FileCount c))
                              (Children root))
             (fst (ProcessPath srcNested (cfgDepth 1))) = Some [("sub", 1, [], 0)] /\
  option_map FileCount (fst (ProcessPath srcNested (cfgDepth 1))) = Some 0.
Proof. split; vm_compute; reflexivity. Qed.

(** C9, amended: a directory whose depth has reached the maximum depth is
    returned as it is, whatever its listing holds: its entries are not read.
    With maximum depth 0 this is the root, so the tree is the root alone, with
    no children and file count 0. A subdirectory at the limit (depth 1 under
    maximum depth 1) that passes the selector is attached to its parent as a
    fresh node: listed, with no children and file count 0. *)
Theorem C9_depth_limit (cfg : Config) :
  (forall listing node stats,
      MaxDirDepth cfg <= Depth node ->
      processDirectory listing node cfg stats = (node, stats, None)) /\
  (forall src root err,
      MaxDirDepth cfg <= 0 ->
      ProcessPath src cfg = (Some root, err) -> IsDir root = true ->
      Children root = [] /\ FileCount root = 0 /\ err = None) /\
  (forall parent stats name size listing,
      MaxDirDepth cfg <= add64 (Depth parent) 1 ->
      ShouldInclude cfg (Join (Path parent) name) = true ->
      ShouldExclude cfg (Join (Path parent) name) = false ->
      visitEntry cfg (Directory name (Some size) listing) (parent, stats) =
      (attach parent
         (NewFileSystemNode (Join (Path parent) name) (mkFileInfo name true size)
            (add64 (Depth parent) 1)),
       stats)).
Proof.
  split; [|split].
  - intros. now apply processDirectory_at_limit.
  - intros src root err Hlim. unfold ProcessPath.
    destruct (stat src) as [entry|]; [|discriminate].
    destruct (entryInfo entry) as [info|] eqn:Hinfo; [|discriminate].
    destruct (abs src) as [absPath|]; [|discriminate].
    destruct entry as [name size io | name size listing].
    + destruct size as [sz|]; [|discriminate]. injection Hinfo as <-.
      pose proof (processFile_content
                    (NewFileSystemNode absPath (mkFileInfo name false sz) 0) cfg io)
        as [content Hc].
      destruct (processFile _ cfg io) as [[root' err'] calls]. simpl in Hc.
      intros H. injection H as <- <-. subst root'. simpl. discriminate.
    + rewrite processDirectory_at_limit by exact Hlim.
      intros H. injection H as <- <-. intros _.
      destruct size; [|discriminate]. injection Hinfo as <-. repeat split.
  - intros parent stats name size listing Hlim Hinc Hexc.
    rewrite visitEntry_Directory. cbv zeta. rewrite Hinc, Hexc. simpl.
    rewrite processDirectory_at_limit by exact Hlim. reflexivity.
Qed.

Lemma C9_depth_limit_witness :
  MaxDirDepth (cfgDepth 1) <= add64 0 1 /\
  (forall stats listing,
      visitEntry (cfgDepth 1) (Directory "sub" (Some 4096) listing)
        (NewFileSystemNode "/home/u/proj" (mkFileInfo "proj" true 4096) 0, stats) =
      (attach (NewFileSystemNode "/home/u/proj" (mkFileInfo "proj" true 4096) 0)
         (NewFileSystemNode "/home/u/proj/sub" (mkFileInfo "sub" true 4096) 1),
       stats)).
Proof.
  split; [vm_compute; discriminate|].
  intros stats listing.
  refine (proj2 (proj2 (C9_depth_limit (cfgDepth 1)))
            (NewFileSystemNode "/home/u/proj" (mkFileInfo "proj" true 4096) 0)
            stats "sub" 4096 listing _ _ _).
  - vm_compute. discriminate.
  - vm_compute. reflexivity.
  - vm_compute. reflexivity.
Defined.

(** ** C10: an empty file *)

(** C10, as stated, fails: under a negative maximum single-file size, which
    the command line [-s -1] gives, the empty file does not pass the size
    check that precedes the binary check: its content is
    ["[File too large]"], not ["[Binary file]"], although the classifier
    calls it binary. *)
Lemma C10_empty_file_over_negative_limit :
  MaxFileSize cfgNegativeLimit = -1 /\
  stat srcEmptyFile = Some (File "empty.txt" (Some 0) (regular "")) /\
  fst (isBinaryFile "/home/u/empty.txt" (regular "")) = true /\
  option_map Content (fst (ProcessPath srcEmptyFile cfgNegativeLimit))
  = Some "[File too large]".
Proof. repeat split; vm_compute; reflexivity. Qed.

(** C10, amended: for a file without content whose extension is not a known
    binary one, the first read on the opened file fails (end of file) and
    [isBinaryFile] returns true, whether or not the file can be opened.
    [processFile] consults it after the size check: when the size of the node
    is within the maximum single-file size (as size 0 is under every maximum
    that is not negative), the content of the node it returns is
    ["[Binary file]"], there is no error and [os.ReadFile] is not called;
    when the size exceeds the maximum, the content is ["[File too large]"]. *)
Theorem C10_empty_file_is_binary (node : FileSystemNode) (cfg : Config) (io : FileIO) :
  data io = "" ->
  isBinaryExt (ToLower (Ext (Path node))) = false ->
  Read io 512 = None /\
  fst (isBinaryFile (Path node) io) = true /\
  (Size node <= MaxFileSize cfg ->
   Content (fst (fst (processFile node cfg io))) = "[Binary file]" /\
   snd (fst (processFile node cfg io)) = None /\
   ~ In (CallReadFile (Path node)) (snd (processFile node cfg io)) /\
   exists calls,
     processFile node cfg io = (setContent node "[Binary file]", None, calls)) /\
  (MaxFileSize cfg < Size node ->
   Content (fst (fst (processFile node cfg io))) = "[File too large]").
Proof.
  intros Hdata Hext.
  assert (Hread : Read io 512 = None).
  { unfold Read. rewrite Hdata. now destruct (read_fails io). }
  split; [exact Hread|].
  unfold processFile, isBinaryFile. rewrite Hext, Hread.
  split; [now destruct (open_fails io)|]. split.
  - intros Hsize.
    destruct (Z.gtb_spec (Size node) (MaxFileSize cfg)) as [Hgt|_]; [lia|].
    destruct (open_fails io); cbn [fst snd];
      (split; [apply Content_setContent|]); (split; [reflexivity|]);
      (split; [|eexists; reflexivity]); simpl.
    + intros [H|[]]. discriminate H.
    + intros [H|[H|[H|[]]]]; discriminate H.
  - intros Hsize.
    destruct (Z.gtb_spec (Size node) (MaxFileSize cfg)) as [_|Hle]; [|lia].
    cbn [fst]. apply Content_setContent.
Qed.

Lemma C10_empty_file_witness :
  Size (NewFileSystemNode "/home/u/proj/empty.txt" (mkFileInfo "empty.txt" false 0) 1)
  <= MaxFileSize NewConfig /\
  Content (fst (fst (processFile
                       (NewFileSystemNode "/home/u/proj/empty.txt"
                          (mkFileInfo "empty.txt" false 0) 1)
                       NewConfig (regular "")))) = "[Binary file]".
Proof.
  assert (Hsize : Size (NewFileSystemNode "/home/u/proj/empty.txt"
                          (mkFileInfo "empty.txt" false 0) 1) <= MaxFileSize NewConfig)
    by (vm_compute; discriminate).
  split; [exact Hsize|].
  refine (proj1 (proj1 (proj2 (proj2 (C10_empty_file_is_binary
            (NewFileSystemNode "/home/u/proj/empty.txt" (mkFileInfo "empty.txt" false 0) 1)
            NewConfig (regular "") _ _))) Hsize)).
  - reflexivity.
  - vm_compute. reflexivity.
Defined.

(* ================================================================== *)
(** * Further properties of the code *)
(* ================================================================== *)
(* ================================================================== *)
(** * What the walk keeps *)
(* ================================================================== *)

Section KeptShape.

Variable S : Z -> Prop.
Variable cfg : Config.

Lemma fold_steps_kept (es : list DirEntry) :
  Forall (stepKept S cfg) es ->
  forall node stats,
    exists cs stats',
      KeptList S cfg stats cs stats' /\ Forall (childOf node) cs /\
      fold_left (fun st e => visitEntry cfg e st) es (node, stats)
      = (fold_left attach cs node, stats').
Proof.
  induction 1 as [|e es He _ IH]; intros node stats; simpl.
  - exists [], stats. repeat split; constructor.
  - destruct (He node stats) as [Hskip | (child & s1 & Hk & Hc & Hatt)].
    + rewrite Hskip. apply IH.
    + rewrite Hatt.
      destruct (IH (attach node child) s1) as (cs & s2 & H1 & H2 & H3).
      exists (child :: cs), s2. split; [econstructor; eassumption|]. split.
      * constructor; [assumption|].
        eapply Forall_impl; [|exact H2].
        intros c. apply childOf_identity, attach_identity.
      * exact H3.
Qed.

(** [processDirectory] on a fresh directory node: the node with the kept
    children attached and sorted; when it returns an error nothing was kept
    and the counters are as before. *)
Lemma processDirectory_kept (listing : option (list DirEntry)) :
  (forall es, listing = Some es -> Forall (stepKept S cfg) es) ->
  forall path info depth stats,
    exists cs stats',
      KeptList S cfg stats cs stats' /\
      Forall (childOf (NewFileSystemNode path info depth)) cs /\
      (cs <> [] -> depth < MaxDirDepth cfg) /\
      fst (processDirectory listing (NewFileSystemNode path info depth) cfg stats)
      = (sortChildren (fold_left attach cs (NewFileSystemNode path info depth)), stats') /\
      (snd (processDirectory listing (NewFileSystemNode path info depth) cfg stats) <> None ->
       stats' = stats).
Proof.
  intros Hes path info depth stats.
  assert (Hnone : forall err : option error,
            exists cs stats',
              KeptList S cfg stats cs stats' /\
              Forall (childOf (NewFileSystemNode path info depth)) cs /\
              (cs <> [] -> depth < MaxDirDepth cfg) /\
              fst (NewFileSystemNode path info depth, stats, err)
              = (sortChildren (fold_left attach cs (NewFileSystemNode path info depth)),
                 stats') /\
              (snd (NewFileSystemNode path info depth, stats, err) <> None ->
               stats' = stats)).
  { intros err. exists [], stats. split; [constructor|]. split; [constructor|].
    split; [intros H; now elim H|]. split; [reflexivity | reflexivity]. }
  unfold processDirectory, processDirectoryWith.
  destruct (Z.geb_spec (Depth (NewFileSystemNode path info depth)) (MaxDirDepth cfg))
    as [Hge|Hlt]; [apply Hnone|].
  destruct listing as [es|]; [|apply Hnone].
  destruct (fold_steps_kept es (Hes es eq_refl) (NewFileSystemNode path info depth) stats)
    as (cs & stats' & H1 & H2 & H3).
  rewrite H3. exists cs, stats'. simpl in Hlt.
  split; [exact H1|]. split; [exact H2|]. split; [intros _; exact Hlt|].
  split; [reflexivity|]. simpl. intros H. now elim H.
Qed.

Lemma attach_dir (node child : FileSystemNode) :
  IsDir child = true ->
  attach node child =
  setChildren
    (setSize
       (setFileCount
          (setDirCount node (add64 (DirCount node) (add64 (DirCount child) 1)))
          (add64 (FileCount node) (FileCount child)))
       (add64 (Size node) (Size child)))
    (Children node ++ [child])%list.
Proof. intros H. unfold attach. now rewrite H. Qed.

Lemma selector_passes (p : string) :
  negb (ShouldInclude cfg p) || ShouldExclude cfg p = false ->
  ShouldInclude cfg p = true /\ ShouldExclude cfg p = false.
Proof.
  destruct (ShouldInclude cfg p), (ShouldExclude cfg p); simpl; intros H;
    try discriminate; now split.
Qed.

Lemma visitEntry_kept (e : DirEntry) : SizesIn S e -> stepKept S cfg e.
Proof.
  induction e as [name size io | name size listing IH] using DirEntry_nested_ind;
    intros Hsizes node stats.
  - rewrite visitEntry_File. cbv zeta.
    destruct (negb _ || _) eqn:Hsel; [now left|].
    apply selector_passes in Hsel. destruct Hsel as [Hinc Hexc].
    destruct size as [sz|]; [|now left].
    destruct (Z.geb_spec (TotalFiles stats) (MaxFiles cfg)) as [|Hfiles]; [now left|].
    destruct (Z.gtb_spec (add64 (TotalSize stats) sz) (MaxTotalSize cfg)) as [|Htotal];
      [now left|].
    destruct (Z.gtb_spec sz (MaxFileSize cfg)) as [|Hsize]; [now left|].
    pose proof (processFile_content
                  (NewFileSystemNode (Join (Path node) name) (mkFileInfo name false sz)
                     (add64 (Depth node) 1)) cfg io) as [content Hc].
    destruct (processFile _ cfg io) as [[child' [err|]] calls]; [now left|].
    simpl in Hc. subst child'. right.
    eexists. eexists. split; [|split; [|reflexivity]].
    + apply (Kept_file S cfg (Join (Path node) name) (mkFileInfo name false sz)
               (add64 (Depth node) 1) content stats); try assumption; try reflexivity.
      inversion Hsizes as [? ? ? Hsz|]; subst. now apply Hsz.
    + split; reflexivity.
  - rewrite visitEntry_Directory. cbv zeta.
    destruct (negb _ || _) eqn:Hsel; [now left|].
    apply selector_passes in Hsel. destruct Hsel as [Hinc Hexc].
    destruct size as [sz|]; [|now left].
    assert (Hsteps : forall es, listing = Some es -> Forall (stepKept S cfg) es).
    { intros es Hes. inversion Hsizes as [|? ? ? Hsub]; subst.
      specialize (Hsub es eq_refl). specialize (IH es eq_refl).
      rewrite Forall_forall in *. intros e He. apply IH; auto. }
    destruct (processDirectory_kept listing Hsteps (Join (Path node) name)
                (mkFileInfo name true sz) (add64 (Depth node) 1) stats)
      as (cs & stats' & H1 & H2 & H3 & H4 & H5).
    destruct (processDirectory listing _ cfg stats) as [[child' s'] [err|]];
      simpl in H4, H5; injection H4 as -> ->.
    + left. rewrite H5 by discriminate. reflexivity.
    + right. eexists. exists stats'. split; [|split].
      * apply (Kept_dir S cfg (Join (Path node) name) (mkFileInfo name true sz)
                 (add64 (Depth node) 1) cs stats stats'); try assumption; reflexivity.
      * destruct (sortChildren_fields
                    (fold_left attach cs
                       (NewFileSystemNode (Join (Path node) name) (mkFileInfo name true sz)
                          (add64 (Depth node) 1)))) as (E1 & E2 & _ & E4 & _).
        destruct (fold_attach_fields cs
                    (NewFileSystemNode (Join (Path node) name) (mkFileInfo name true sz)
                       (add64 (Depth node) 1))) as (F1 & F2 & _ & F4 & _).
        split; [now rewrite E1, E2, F1, F2 | now rewrite E4, F4].
      * rewrite attach_dir; [reflexivity|].
        destruct (sortChildren_fields
                    (fold_left attach cs
                       (NewFileSystemNode (Join (Path node) name) (mkFileInfo name true sz)
                          (add64 (Depth node) 1)))) as (_ & _ & E3 & _).
        destruct (fold_attach_fields cs
                    (NewFileSystemNode (Join (Path node) name) (mkFileInfo name true sz)
                       (add64 (Depth node) 1))) as (_ & _ & F3 & _).
        now rewrite E3, F3.
Qed.

(** A directory walk started by [ProcessPath] returns a kept tree. *)
Lemma ProcessPath_KeptRoot (src : Source) (root : FileSystemNode) (err : option error) :
  (forall e, stat src = Some e -> SizesIn S e) ->
  ProcessPath src cfg = (Some root, err) ->
  IsDir root = true ->
  KeptRoot S cfg root.
Proof.
  intros Hsizes. unfold ProcessPath.
  destruct (stat src) as [entry|]; [|discriminate].
  specialize (Hsizes entry eq_refl).
  destruct (entryInfo entry) as [info|] eqn:Hinfo; [|discriminate].
  destruct (abs src) as [absPath|]; [|discriminate].
  destruct entry as [name size io | name size listing].
  - destruct size as [sz|]; [|discriminate]. injection Hinfo as <-.
    pose proof (processFile_content
                  (NewFileSystemNode absPath (mkFileInfo name false sz) 0) cfg io)
      as [content Hc].
    destruct (processFile _ cfg io) as [[root' err'] calls].
    simpl in Hc. intros H. injection H as <- <-. subst root'. discriminate.
  - destruct size as [sz|]; [|discriminate]. injection Hinfo as <-.
    assert (Hsteps : forall es, listing = Some es -> Forall (stepKept S cfg) es).
    { intros es Hes. inversion Hsizes as [|? ? ? Hsub]; subst.
      specialize (Hsub es eq_refl).
      rewrite Forall_forall in *. intros e He. apply visitEntry_kept; auto. }
    destruct (processDirectory_kept listing Hsteps absPath (mkFileInfo name true sz) 0
                newStats) as (cs & stats' & H1 & H2 & H3 & H4 & _).
    destruct (processDirectory listing _ cfg newStats) as [[root' s'] err'].
    simpl in H4. injection H4 as -> ->.
    intros H _. injection H as <- <-.
    exists absPath, (mkFileInfo name true sz), cs, stats'.
    repeat split; assumption.
Qed.

End KeptShape.

Lemma SizesIn_True (e : DirEntry) : SizesIn (fun _ => True) e.
Proof.
  induction e as [name size io | name size listing IH] using DirEntry_nested_ind.
  - constructor. auto.
  - constructor. exact IH.
Qed.

(* ================================================================== *)
(** * What holds of the kept nodes *)
(* ================================================================== *)

Lemma InTree_inv (d n : FileSystemNode) :
  InTree d n -> d = n \/ exists c, In c (Children n) /\ InTree d c.
Proof. intros [|c n' Hc Hd]; [now left | right; eauto]. Qed.

Lemma dir_node_fields (path : string) (info : FileInfo) (depth : Z)
    (cs : list FileSystemNode) :
  let d := sortChildren (fold_left attach cs (NewFileSystemNode path info depth)) in
  Name d = infoName info /\ Path d = path /\ IsDir d = infoIsDir info /\
  Depth d = depth /\ forall c, In c (Children d) <-> In c cs.
Proof.
  intros d.
  destruct (sortChildren_fields (fold_left attach cs (NewFileSystemNode path info depth)))
    as (E1 & E2 & E3 & E4 & _).
  destruct (fold_attach_fields cs (NewFileSystemNode path info depth))
    as (F1 & F2 & F3 & F4 & _).
  unfold d. rewrite E1, E2, E3, E4, F1, F2, F3, F4. repeat split.
  - apply Permutation_in. symmetry. apply Walked_dir_children.
  - apply Permutation_in. apply Walked_dir_children.
Qed.

Lemma InTree_dir_node (d : FileSystemNode) (path : string) (info : FileInfo) (depth : Z)
    (cs : list FileSystemNode) :
  InTree d (sortChildren (fold_left attach cs (NewFileSystemNode path info depth))) ->
  d = sortChildren (fold_left attach cs (NewFileSystemNode path info depth)) \/
  exists c, In c cs /\ InTree d c.
Proof.
  intros H. apply InTree_inv in H as [H | (c & Hc & Hd)]; [now left|].
  right. exists c. split; [|exact Hd].
  now apply (dir_node_fields path info depth cs).
Qed.

Lemma InTree_file_node (d : FileSystemNode) (path : string) (info : FileInfo) (depth : Z)
    (content : string) :
  InTree d (setContent (NewFileSystemNode path info depth) content) ->
  d = setContent (NewFileSystemNode path info depth) content.
Proof.
  intros H. apply InTree_inv in H as [H | (c & Hc & _)]; [exact H | destruct Hc].
Qed.

(** ** The selector and the single-file limit *)

Lemma Kept_passedChecks (S : Z -> Prop) (cfg : Config) :
  (forall st c st', Kept S cfg st c st' ->
     forall d, InTree d c -> passedChecks S cfg d) /\
  (forall st cs st', KeptList S cfg st cs st' ->
     forall c d, In c cs -> InTree d c -> passedChecks S cfg d).
Proof.
  apply Kept_KeptList_ind.
  - intros path info depth content stats Hfile Hinc Hexc HS _ _ Hsize d Hd.
    apply InTree_file_node in Hd. subst d. repeat split; assumption.
  - intros path info depth cs stats stats' Hdir Hinc Hexc _ IH _ _ d Hd.
    apply InTree_dir_node in Hd as [-> | (c & Hc & Hd)].
    + destruct (dir_node_fields path info depth cs) as (_ & E2 & E3 & _).
      unfold passedChecks. rewrite E2, E3, Hdir. repeat split; try assumption; discriminate.
    + now apply IH with c.
  - intros stats c d [].
  - intros stats stats1 stats2 c cs _ IHc _ IHcs c' d [<- | Hin] Hd.
    + now apply IHc.
    + now apply IHcs with c'.
Qed.

(** ** The depth of the nodes *)

Lemma dir_node_depths (cfg : Config) (path : string) (info : FileInfo) (depth : Z)
    (cs : list FileSystemNode) :
  MaxDirDepth cfg < 2 ^ 63 ->
  0 <= depth ->
  Forall (childOf (NewFileSystemNode path info depth)) cs ->
  (cs <> [] -> depth < MaxDirDepth cfg) ->
  (forall c d, In c cs -> 0 <= Depth c -> InTree d c ->
     Depth c <= Depth d <= Z.max (Depth c) (MaxDirDepth cfg) /\
     forall x, In x (Children d) -> Depth x = Depth d + 1) ->
  forall d,
    InTree d (sortChildren (fold_left attach cs (NewFileSystemNode path info depth))) ->
    depth <= Depth d <= Z.max depth (MaxDirDepth cfg) /\
    forall x, In x (Children d) -> Depth x = Depth d + 1.
Proof.
  intros Hmax H0 Hchild Hlim IH d Hd.
  assert (Hstep : forall c, In c cs -> Depth c = depth + 1 /\ depth < MaxDirDepth cfg).
  { intros c Hc. rewrite Forall_forall in Hchild. destruct (Hchild c Hc) as [_ HD].
    assert (Hlt : depth < MaxDirDepth cfg) by (apply Hlim; intros ->; destruct Hc).
    split; [|exact Hlt]. rewrite HD. simpl. apply add64_small. unfold in_int64. lia. }
  apply InTree_dir_node in Hd as [-> | (c & Hc & Hd)].
  - destruct (dir_node_fields path info depth cs) as (_ & _ & _ & E4 & E5).
    rewrite E4. split; [lia|]. intros x Hx. apply E5 in Hx.
    now destruct (Hstep x Hx).
  - destruct (Hstep c Hc) as [HD Hlt].
    destruct (IH c d Hc) as [Hb Hx]; [lia | exact Hd |].
    split; [lia | exact Hx].
Qed.

Lemma Kept_depths (S : Z -> Prop) (cfg : Config) :
  MaxDirDepth cfg < 2 ^ 63 ->
  (forall st c st', Kept S cfg st c st' ->
     forall d, 0 <= Depth c -> InTree d c ->
       Depth c <= Depth d <= Z.max (Depth c) (MaxDirDepth cfg) /\
       forall x, In x (Children d) -> Depth x = Depth d + 1) /\
  (forall st cs st', KeptList S cfg st cs st' ->
     forall c d, In c cs -> 0 <= Depth c -> InTree d c ->
       Depth c <= Depth d <= Z.max (Depth c) (MaxDirDepth cfg) /\
       forall x, In x (Children d) -> Depth x = Depth d + 1).
Proof.
  intros Hmax. apply Kept_KeptList_ind.
  - intros path info depth content stats _ _ _ _ _ _ _ d H0 Hd.
    apply InTree_file_node in Hd. subst d. simpl. split; [lia | intros x []].
  - intros path info depth cs stats stats' _ _ _ _ IH Hchild Hlim d H0 Hd.
    destruct (dir_node_fields path info depth cs) as (_ & _ & _ & E4 & _).
    rewrite E4 in *.
    now apply (dir_node_depths cfg path info depth cs).
  - intros stats c d [].
  - intros stats stats1 stats2 c cs _ IHc _ IHcs c' d [<- | Hin] H0 Hd.
    + now apply IHc.
    + now apply IHcs.
Qed.

(** ** The file budget *)

Lemma length_flat_map {A B : Type} (f : A -> list B) (l : list A) :
  Z.of_nat (List.length (flat_map f l)) =
  sumZ (map (fun x => Z.of_nat (List.length (f x))) l).
Proof.
  induction l as [|x l IH]; [reflexivity|].
  simpl. rewrite length_app, Nat2Z.inj_add, IH. reflexivity.
Qed.

Lemma numFiles_eq (n : FileSystemNode) :
  numFiles n = if IsDir n then sumZ (map numFiles (Children n)) else 1.
Proof.
  unfold numFiles. rewrite fileLeaves_eq.
  destruct (IsDir n); [|reflexivity]. simpl negb. cbv iota.
  apply length_flat_map.
Qed.

Lemma numFiles_nonneg (n : FileSystemNode) : 0 <= numFiles n.
Proof. unfold numFiles. lia. Qed.

Lemma numFiles_dir_node (path : string) (info : FileInfo) (depth : Z)
    (cs : list FileSystemNode) :
  infoIsDir info = true ->
  numFiles (sortChildren (fold_left attach cs (NewFileSystemNode path info depth)))
  = sumZ (map numFiles cs).
Proof.
  intros Hdir. rewrite numFiles_eq.
  destruct (dir_node_fields path info depth cs) as (_ & _ & E3 & _).
  rewrite E3, Hdir.
  symmetry. apply sumZ_perm, Permutation_map, Walked_dir_children.
Qed.

Lemma Kept_file_budget (S : Z -> Prop) (cfg : Config) :
  MaxFiles cfg < 2 ^ 63 ->
  (forall st c st', Kept S cfg st c st' ->
     0 <= TotalFiles st <= MaxFiles cfg ->
     TotalFiles st' = TotalFiles st + numFiles c /\
     TotalFiles st' <= MaxFiles cfg /\
     forall d, InTree d c -> numFiles d <= MaxFiles cfg) /\
  (forall st cs st', KeptList S cfg st cs st' ->
     0 <= TotalFiles st <= MaxFiles cfg ->
     TotalFiles st' = TotalFiles st + sumZ (map numFiles cs) /\
     TotalFiles st' <= MaxFiles cfg /\
     forall c d, In c cs -> InTree d c -> numFiles d <= MaxFiles cfg).
Proof.
  intros Hmax. apply Kept_KeptList_ind.
  - intros path info depth content stats Hfile _ _ _ Hfiles _ _ Hst.
    assert (Hn : numFiles (setContent (NewFileSystemNode path info depth) content) = 1).
    { rewrite numFiles_eq. simpl. now rewrite Hfile. }
    rewrite Hn. simpl TotalFiles.
    rewrite add64_small by (unfold in_int64; lia).
    split; [reflexivity|]. split; [lia|].
    intros d Hd. apply InTree_file_node in Hd. subst d. rewrite Hn. lia.
  - intros path info depth cs stats stats' Hdir _ _ _ IH _ _ Hst.
    destruct (IH Hst) as (H1 & H2 & H3).
    rewrite (numFiles_dir_node path info depth cs Hdir).
    split; [exact H1|]. split; [exact H2|].
    intros d Hd. apply InTree_dir_node in Hd as [-> | (c & Hc & Hd)].
    + rewrite (numFiles_dir_node path info depth cs Hdir).
      pose proof (sumZ_nonneg (map numFiles cs)) as Hnn.
      assert (0 <= sumZ (map numFiles cs)); [|lia].
      apply Hnn. rewrite Forall_forall. intros z Hz.
      apply in_map_iff in Hz as (c & <- & _). apply numFiles_nonneg.
    + now apply H3 with c.
  - intros stats Hst. simpl. split; [lia|]. split; [lia|]. intros c d [].
  - intros stats stats1 stats2 c cs _ IHc _ IHcs Hst.
    destruct (IHc Hst) as (H1 & H2 & H3).
    pose proof (numFiles_nonneg c) as Hnn.
    destruct IHcs as (K1 & K2 & K3); [lia|].
    simpl. split; [lia|]. split; [lia|].
    intros c' d [<- | Hin] Hd; [now apply H3 | now apply K3 with c'].
Qed.

(** ** The size budget *)

Lemma filesSize_eq (n : FileSystemNode) :
  filesSize n = if IsDir n then sumZ (map filesSize (Children n)) else Size n.
Proof.
  unfold filesSize. rewrite fileLeaves_eq.
  destruct (IsDir n); simpl negb; cbv iota; [|simpl; lia].
  induction (Children n) as [|c cs IH]; [reflexivity|].
  simpl. rewrite map_app, sumZ_app, IH. reflexivity.
Qed.

Lemma filesSize_dir_node (path : string) (info : FileInfo) (depth : Z)
    (cs : list FileSystemNode) :
  infoIsDir info = true ->
  filesSize (sortChildren (fold_left attach cs (NewFileSystemNode path info depth)))
  = sumZ (map filesSize cs).
Proof.
  intros Hdir. rewrite filesSize_eq.
  destruct (dir_node_fields path info depth cs) as (_ & _ & E3 & _).
  rewrite E3, Hdir.
  symmetry. apply sumZ_perm, Permutation_map, Walked_dir_children.
Qed.

Lemma Kept_size_budget (cfg : Config) :
  MaxTotalSize cfg + MaxFileSize cfg < 2 ^ 63 ->
  (forall st c st', Kept (fun z => 0 <= z) cfg st c st' ->
     0 <= TotalSize st <= MaxTotalSize cfg ->
     TotalSize st' = TotalSize st + filesSize c /\
     0 <= filesSize c /\
     TotalSize st' <= MaxTotalSize cfg) /\
  (forall st cs st', KeptList (fun z => 0 <= z) cfg st cs st' ->
     0 <= TotalSize st <= MaxTotalSize cfg ->
     TotalSize st' = TotalSize st + sumZ (map filesSize cs) /\
     0 <= sumZ (map filesSize cs) /\
     TotalSize st' <= MaxTotalSize cfg).
Proof.
  intros Hmax. apply Kept_KeptList_ind.
  - intros path info depth content stats Hfile _ _ Hnn _ Htotal Hsize Hst.
    assert (Hn : filesSize (setContent (NewFileSystemNode path info depth) content)
                 = infoSize info).
    { rewrite filesSize_eq. simpl. now rewrite Hfile. }
    rewrite Hn. simpl TotalSize.
    rewrite add64_small in * by (unfold in_int64; lia).
    split; [reflexivity|]. split; [exact Hnn | exact Htotal].
  - intros path info depth cs stats stats' Hdir _ _ _ IH _ _ Hst.
    rewrite (filesSize_dir_node path info depth cs Hdir). now apply IH.
  - intros stats Hst. simpl. lia.
  - intros stats stats1 stats2 c cs _ IHc _ IHcs Hst.
    destruct (IHc Hst) as (H1 & H2 & H3).
    destruct IHcs as (K1 & K2 & K3); [lia|].
    simpl. lia.
Qed.

(** ** The counters of a directory node *)

Lemma wrap64_wrap64 (a : Z) : wrap64 (wrap64 a) = wrap64 a.
Proof.
  rewrite <- (Z.add_0_r (wrap64 a)) at 1. rewrite wrap64_idem. f_equal. lia.
Qed.

Lemma wrap64_sum_congr {A : Type} (f g : A -> Z) (l : list A) :
  (forall x, In x l -> wrap64 (f x) = wrap64 (g x)) ->
  wrap64 (sumZ (map f l)) = wrap64 (sumZ (map g l)).
Proof.
  induction l as [|x l IH]; intros H; [reflexivity|].
  simpl.
  rewrite <- wrap64_idem, (H x (or_introl eq_refl)), wrap64_idem.
  rewrite (Z.add_comm (g x)), <- wrap64_idem, IH, wrap64_idem by (intros; apply H; now right).
  f_equal. lia.
Qed.

Lemma attach_DirCount (n c : FileSystemNode) :
  wrap64 (DirCount (attach n c)) = wrap64 (DirCount n + dirContribution c).
Proof.
  unfold attach, dirContribution. destruct (IsDir c); simpl.
  - rewrite wrap64_add64. unfold add64 at 1.
    rewrite (Z.add_comm (DirCount n)), wrap64_idem. f_equal. lia.
  - f_equal. lia.
Qed.

Lemma attach_DirCount_range (n c : FileSystemNode) :
  wrap64 (DirCount n) = DirCount n ->
  wrap64 (DirCount (attach n c)) = DirCount (attach n c).
Proof.
  unfold attach. destruct (IsDir c); simpl; [|auto].
  intros _. unfold add64 at 1. apply wrap64_wrap64.
Qed.

Lemma fold_attach_DirCount (cs : list FileSystemNode) :
  forall n,
    wrap64 (DirCount n) = DirCount n ->
    DirCount (fold_left attach cs n) = wrap64 (DirCount n + sumZ (map dirContribution cs)).
Proof.
  induction cs as [|c cs IH]; intros n Hn; simpl.
  - now rewrite Z.add_0_r.
  - rewrite IH by now apply attach_DirCount_range.
    rewrite <- wrap64_idem, attach_DirCount, wrap64_idem. f_equal. lia.
Qed.

Lemma dirsBelow_eq (n : FileSystemNode) :
  dirsBelow n = sumZ (map (fun c => if IsDir c then 1 + dirsBelow c else 0) (Children n)).
Proof. destruct n. reflexivity. Qed.

Lemma dir_node_counters (path : string) (info : FileInfo) (depth : Z)
    (cs : list FileSystemNode) :
  infoIsDir info = true ->
  (forall c, In c cs ->
     FileCount c = wrap64 (if IsDir c then numFiles c else 0) /\
     DirCount c = wrap64 (dirsBelow c)) ->
  let d := sortChildren (fold_left attach cs (NewFileSystemNode path info depth)) in
  FileCount d = wrap64 (numFiles d) /\ DirCount d = wrap64 (dirsBelow d).
Proof.
  intros Hdir IH d. split.
  - unfold d. rewrite (numFiles_dir_node path info depth cs Hdir).
    change (FileCount (sortChildren ?n)) with (FileCount n).
    rewrite (fold_attach_FileCount cs (NewFileSystemNode path info depth) 0) by reflexivity.
    rewrite Z.add_0_l. apply wrap64_sum_congr. intros c Hc.
    destruct (IH c Hc) as [HF _]. unfold fileContribution.
    rewrite numFiles_eq in *. destruct (IsDir c); [|reflexivity].
    rewrite HF. apply wrap64_wrap64.
  - unfold d. rewrite dirsBelow_eq.
    rewrite <- (sumZ_perm _ _ (Permutation_map _ (Walked_dir_children path info depth cs))).
    change (DirCount (sortChildren ?n)) with (DirCount n).
    rewrite fold_attach_DirCount by reflexivity.
    change (DirCount (NewFileSystemNode path info depth)) with 0. rewrite Z.add_0_l. apply wrap64_sum_congr. intros c Hc.
    destruct (IH c Hc) as [_ HD]. unfold dirContribution.
    destruct (IsDir c); [|reflexivity].
    rewrite HD, wrap64_idem. apply f_equal. lia.
Qed.

Lemma Kept_counters (S : Z -> Prop) (cfg : Config) :
  (forall st c st', Kept S cfg st c st' ->
     forall d, InTree d c ->
       FileCount d = wrap64 (if IsDir d then numFiles d else 0) /\
       DirCount d = wrap64 (dirsBelow d)) /\
  (forall st cs st', KeptList S cfg st cs st' ->
     forall c d, In c cs -> InTree d c ->
       FileCount d = wrap64 (if IsDir d then numFiles d else 0) /\
       DirCount d = wrap64 (dirsBelow d)).
Proof.
  apply Kept_KeptList_ind.
  - intros path info depth content stats Hfile _ _ _ _ _ _ d Hd.
    apply InTree_file_node in Hd. subst d. simpl. rewrite Hfile. split; reflexivity.
  - intros path info depth cs stats stats' Hdir _ _ _ IH _ _ d Hd.
    apply InTree_dir_node in Hd as [-> | (c & Hc & Hd)].
    + destruct (dir_node_fields path info depth cs) as (_ & _ & E3 & _).
      rewrite E3, Hdir.
      apply dir_node_counters; [exact Hdir|].
      intros c Hc. apply (IH c c Hc), InTree_here.
    + now apply IH with c.
  - intros stats c d [].
  - intros stats stats1 stats2 c cs _ IHc _ IHcs c' d [<- | Hin] Hd.
    + now apply IHc.
    + now apply IHcs with c'.
Qed.

Lemma root_file_alone (N : string -> Prop) (root d : FileSystemNode) :
  Walked N root -> IsDir root = false -> InTree d root -> d = root.
Proof.
  intros Hw Hfile Hd. apply InTree_inv in Hd as [H | (c & Hc & _)]; [exact H|].
  rewrite (Walked_file_leaf N root Hw Hfile) in Hc. destruct Hc.
Qed.

Lemma ProcessPath_root_depth (src : Source) (cfg : Config) (root : FileSystemNode)
    (err : option error) :
  ProcessPath src cfg = (Some root, err) -> Depth root = 0.
Proof.
  unfold ProcessPath.
  destruct (stat src) as [entry|]; [|discriminate].
  destruct (entryInfo entry) as [info|]; [|discriminate].
  destruct (abs src) as [absPath|]; [|discriminate].
  destruct entry as [name size io | name size listing].
  - pose proof (processFile_content (NewFileSystemNode absPath info 0) cfg io)
      as [content Hc].
    destruct (processFile _ cfg io) as [[root' err'] calls]. simpl in Hc.
    intros H. injection H as <- <-. now subst root'.
  - pose proof (processDirectory_identity listing (NewFileSystemNode absPath info 0)
                  cfg newStats) as (_ & _ & _ & HD & _).
    destruct (processDirectory listing _ cfg newStats) as [[root' s'] err'].
    intros H. injection H as <- <-. exact HD.
Qed.

(** ** The tree [ProcessPath] returns *)

Lemma ProcessPath_cases (src : Source) (cfg : Config) (root : FileSystemNode)
    (err : option error) (S : Z -> Prop) :
  (forall e, stat src = Some e -> SizesIn S e) ->
  ProcessPath src cfg = (Some root, err) ->
  (IsDir root = false /\ Children root = [] /\ forall d, InTree d root -> d = root) \/
  (IsDir root = true /\ KeptRoot S cfg root).
Proof.
  intros Hsizes Hrun. destruct (IsDir root) eqn:Hdir.
  - right. split; [reflexivity|]. eapply ProcessPath_KeptRoot; eassumption.
  - left. split; [reflexivity|].
    assert (Hw : Walked (fun _ => True) root).
    { eapply ProcessPath_Walked; [|exact Hrun]. intros e _. apply NamesIn_True. }
    split; [now apply (Walked_file_leaf _ root Hw)|].
    intros d Hd. now apply (root_file_alone (fun _ => True)).
Qed.

Lemma KeptRoot_below (S : Z -> Prop) (cfg : Config) (root parent d : FileSystemNode) :
  KeptRoot S cfg root -> InTree parent root -> In d (Children parent) ->
  exists st c st', Kept S cfg st c st' /\ InTree d c.
Proof.
  intros (path & info & cs & stats' & Hdir & Hk & _ & _ & ->) Hp Hd.
  assert (Hin : forall st l st', KeptList S cfg st l st' ->
            forall c, In c l -> exists s1 s2, Kept S cfg s1 c s2).
  { induction 1 as [|st st1 st2 c l Hc _ IH]; intros c' [].
    - subst c'. eauto.
    - now apply IH. }
  apply InTree_dir_node in Hp as [-> | (c & Hc & Hp)].
  - apply (dir_node_fields path info 0 cs) in Hd.
    destruct (Hin _ _ _ Hk d Hd) as (s1 & s2 & Hkd).
    exists s1, d, s2. split; [exact Hkd | apply InTree_here].
  - destruct (Hin _ _ _ Hk c Hc) as (s1 & s2 & Hkc).
    exists s1, c, s2. split; [exact Hkc | now apply InTree_step with parent].
Qed.

Lemma KeptRoot_passedChecks (S : Z -> Prop) (cfg : Config)
    (root parent d : FileSystemNode) :
  KeptRoot S cfg root -> InTree parent root -> In d (Children parent) ->
  passedChecks S cfg d.
Proof.
  intros Hroot Hp Hd.
  destruct (KeptRoot_below S cfg root parent d Hroot Hp Hd) as (st & c & st' & Hk & Hin).
  exact (proj1 (Kept_passedChecks S cfg) st c st' Hk d Hin).
Qed.

Lemma KeptRoot_depths (S : Z -> Prop) (cfg : Config) (root d : FileSystemNode) :
  MaxDirDepth cfg < 2 ^ 63 ->
  KeptRoot S cfg root -> InTree d root ->
  0 <= Depth d <= Z.max 0 (MaxDirDepth cfg) /\
  (forall x, In x (Children d) -> Depth x = Depth d + 1).
Proof.
  intros Hmax (path & info & cs & stats' & Hdir & Hk & Hchild & Hlim & ->) Hd.
  apply (dir_node_depths cfg path info 0 cs); try assumption; [lia|].
  intros c d' Hc Hc0 Hd'.
  now apply (proj2 (Kept_depths S cfg Hmax) newStats cs stats' Hk c d').
Qed.

Lemma KeptRoot_counters (S : Z -> Prop) (cfg : Config) (root d : FileSystemNode) :
  KeptRoot S cfg root -> InTree d root ->
  FileCount d = wrap64 (if IsDir d then numFiles d else 0) /\
  DirCount d = wrap64 (dirsBelow d).
Proof.
  intros (path & info & cs & stats' & Hidir & Hk & _ & _ & ->) Hd.
  apply InTree_dir_node in Hd as [-> | (c & Hc & Hd)].
  - destruct (dir_node_fields path info 0 cs) as (_ & _ & E3 & _).
    rewrite E3, Hidir.
    apply dir_node_counters; [exact Hidir|].
    intros c Hc.
    apply (proj2 (Kept_counters S cfg) newStats cs stats' Hk c c Hc), InTree_here.
  - exact (proj2 (Kept_counters S cfg) newStats cs stats' Hk c d Hc Hd).
Qed.

Lemma KeptRoot_file_budget (S : Z -> Prop) (cfg : Config) (root : FileSystemNode) :
  0 <= MaxFiles cfg < 2 ^ 63 ->
  KeptRoot S cfg root ->
  forall d, InTree d root -> numFiles d <= MaxFiles cfg.
Proof.
  intros Hmax (path & info & cs & stats' & Hidir & Hk & _ & _ & ->) d Hd.
  destruct (proj2 (Kept_file_budget S cfg (proj2 Hmax)) newStats cs stats' Hk)
    as (H1 & H2 & H3); [simpl; lia|].
  simpl in H1.
  apply InTree_dir_node in Hd as [-> | (c & Hc & Hd)]; [|now apply H3 with c].
  rewrite (numFiles_dir_node path info 0 cs Hidir). lia.
Qed.

Lemma KeptRoot_size_budget (cfg : Config) (root : FileSystemNode) :
  0 <= MaxTotalSize cfg ->
  MaxTotalSize cfg + MaxFileSize cfg < 2 ^ 63 ->
  KeptRoot (fun z => 0 <= z) cfg root ->
  0 <= filesSize root <= MaxTotalSize cfg.
Proof.
  intros H0 Hmax (path & info & cs & stats' & Hidir & Hk & _ & _ & ->).
  destruct (proj2 (Kept_size_budget cfg Hmax) newStats cs stats' Hk)
    as (H1 & H2 & H3); [simpl; lia|].
  simpl in H1.
  rewrite (filesSize_dir_node path info 0 cs Hidir). lia.
Qed.

(** Every node below the root of the tree [ProcessPath] returns passed the
    selector at its own path: [ShouldInclude] is true and [ShouldExclude] is
    false there (so a directory that the include patterns do not match is not
    entered); and every file below the root is within the maximum single-file
    size. *)
Theorem walk_keeps_only_selected (src : Source) (cfg : Config)
    (root parent d : FileSystemNode) (err : option error) :
  ProcessPath src cfg = (Some root, err) ->
  InTree parent root -> In d (Children parent) ->
  ShouldInclude cfg (Path d) = true /\
  ShouldExclude cfg (Path d) = false /\
  (IsDir d = false -> Size d <= MaxFileSize cfg).
Proof.
  intros Hrun Hp Hd.
  destruct (ProcessPath_cases src cfg root err (fun _ => True)
              (fun e _ => SizesIn_True e) Hrun) as [(_ & Hleaf & Halone) | [_ Hroot]].
  - rewrite (Halone parent Hp), Hleaf in Hd. destruct Hd.
  - destruct (KeptRoot_passedChecks _ cfg root parent d Hroot Hp Hd) as (H1 & H2 & H3).
    split; [exact H1|]. split; [exact H2|]. intros Hf. now apply H3.
Qed.

Lemma walk_keeps_only_selected_witness :
  ShouldInclude NewConfig (Path (nth 0 (Children treeTwoLevels) treeTwoLevels)) = true /\
  ShouldExclude NewConfig (Path (nth 0 (Children treeTwoLevels) treeTwoLevels)) = false /\
  (IsDir (nth 0 (Children treeTwoLevels) treeTwoLevels) = false ->
   Size (nth 0 (Children treeTwoLevels) treeTwoLevels) <= MaxFileSize NewConfig).
Proof.
  refine (walk_keeps_only_selected srcTwoLevels NewConfig treeTwoLevels treeTwoLevels
            (nth 0 (Children treeTwoLevels) treeTwoLevels) None _ (InTree_here _) _).
  - vm_compute. reflexivity.
  - vm_compute. left. reflexivity.
Defined.

(** In the tree [ProcessPath] returns the depth of a node is its distance
    from the root (the root has depth 0, a child the depth of its parent plus
    one, without wrap-around) and no node lies deeper than the maximum
    directory depth. *)
Theorem walk_depth_bounded (src : Source) (cfg : Config) (root d : FileSystemNode)
    (err : option error) :
  MaxDirDepth cfg < 2 ^ 63 ->
  ProcessPath src cfg = (Some root, err) ->
  InTree d root ->
  Depth root = 0 /\
  0 <= Depth d <= Z.max 0 (MaxDirDepth cfg) /\
  (forall x, In x (Children d) -> Depth x = Depth d + 1).
Proof.
  intros Hmax Hrun Hd.
  pose proof (ProcessPath_root_depth src cfg root err Hrun) as H0.
  split; [exact H0|].
  destruct (ProcessPath_cases src cfg root err (fun _ => True)
              (fun e _ => SizesIn_True e) Hrun) as [(_ & Hleaf & Halone) | [_ Hroot]].
  - rewrite (Halone d Hd), H0, Hleaf. split; [lia | intros x []].
  - exact (KeptRoot_depths (fun _ => True) cfg root d Hmax Hroot Hd).
Qed.

Lemma walk_depth_bounded_witness :
  Depth treeTwoLevels = 0 /\
  0 <= Depth treeTwoLevels <= Z.max 0 (MaxDirDepth NewConfig) /\
  (forall x, In x (Children treeTwoLevels) -> Depth x = Depth treeTwoLevels + 1).
Proof.
  refine (walk_depth_bounded srcTwoLevels NewConfig treeTwoLevels treeTwoLevels None
            _ _ (InTree_here _)).
  - vm_compute. reflexivity.
  - vm_compute. reflexivity.
Defined.

(** A directory walk keeps at most [MaxFiles] files, and the file count of
    every directory of the tree, which the summary prints for the root, is
    exactly the number of file nodes below it: the number of [FILE] blocks of
    the file-contents section. *)
Theorem walk_file_budget (src : Source) (cfg : Config) (root : FileSystemNode)
    (err : option error) :
  0 <= MaxFiles cfg < 2 ^ 63 ->
  ProcessPath src cfg = (Some root, err) ->
  IsDir root = true ->
  numFiles root <= MaxFiles cfg /\
  (forall d, InTree d root -> IsDir d = true -> FileCount d = numFiles d) /\
  formatFileContents root =
  String.concat "" (map formatFileContent (fileLeaves root)).
Proof.
  intros Hmax Hrun Hdir.
  pose proof (ProcessPath_KeptRoot (fun _ => True) cfg src root err
                (fun e _ => SizesIn_True e) Hrun Hdir) as Hroot.
  split; [|split; [|apply formatFileContents_blocks]].
  - apply (KeptRoot_file_budget _ cfg root Hmax Hroot), InTree_here.
  - intros d Hd Hdd.
    destruct (KeptRoot_counters _ cfg root d Hroot Hd) as [Hcount _].
    rewrite Hdd in Hcount. rewrite Hcount. apply wrap64_small.
    pose proof (numFiles_nonneg d).
    pose proof (KeptRoot_file_budget _ cfg root Hmax Hroot d Hd).
    unfold in_int64. lia.
Qed.

Lemma walk_file_budget_witness :
  numFiles treeTwoLevels <= MaxFiles NewConfig /\
  (forall d, InTree d treeTwoLevels -> IsDir d = true -> FileCount d = numFiles d) /\
  formatFileContents treeTwoLevels =
  String.concat "" (map formatFileContent (fileLeaves treeTwoLevels)).
Proof.
  refine (walk_file_budget srcTwoLevels NewConfig treeTwoLevels None _ _ _).
  - vm_compute. split; [discriminate | reflexivity].
  - vm_compute. reflexivity.
  - vm_compute. reflexivity.
Defined.

(** A directory walk over files of non-negative size keeps files of at most
    [MaxTotalSize] bytes in total, provided the sum of the two size limits
    does not overflow. *)
Theorem walk_size_budget (src : Source) (cfg : Config) (root : FileSystemNode)
    (err : option error) :
  (forall e, stat src = Some e -> SizesIn (fun z => 0 <= z) e) ->
  0 <= MaxTotalSize cfg ->
  MaxTotalSize cfg + MaxFileSize cfg < 2 ^ 63 ->
  ProcessPath src cfg = (Some root, err) ->
  IsDir root = true ->
  0 <= filesSize root <= MaxTotalSize cfg.
Proof.
  intros Hsizes H0 Hmax Hrun Hdir.
  apply KeptRoot_size_budget; try assumption.
  eapply ProcessPath_KeptRoot; eassumption.
Qed.

Lemma walk_size_budget_witness :
  0 <= filesSize treeTwoLevels <= MaxTotalSize NewConfig.
Proof.
  refine (walk_size_budget srcTwoLevels NewConfig treeTwoLevels None _ _ _ _ _).
  - intros e He. injection He as <-.
    constructor. intros es Hes. injection Hes as <-.
    repeat constructor.
    + intros sz Hsz. injection Hsz as <-. lia.
    + intros es Hes. injection Hes as <-. repeat constructor.
      intros sz Hsz. injection Hsz as <-. lia.
  - vm_compute. discriminate.
  - vm_compute. reflexivity.
  - vm_compute. reflexivity.
  - vm_compute. reflexivity.
Defined.

(** The directory count of every node of the tree [ProcessPath] returns is
    the number of directory nodes below it (in 64-bit arithmetic). *)
Theorem DirCount_counts_directories (src : Source) (cfg : Config)
    (root d : FileSystemNode) (err : option error) :
  ProcessPath src cfg = (Some root, err) ->
  InTree d root ->
  DirCount d = wrap64 (dirsBelow d).
Proof.
  intros Hrun Hd.
  destruct (ProcessPath_cases src cfg root err (fun _ => True)
              (fun e _ => SizesIn_True e) Hrun) as [(Hfile & Hleaf & Halone) | [_ Hroot]].
  - rewrite (Halone d Hd), dirsBelow_eq, Hleaf.
    assert (Hw : Walked (fun _ => True) root).
    { eapply ProcessPath_Walked; [|exact Hrun]. intros e _. apply NamesIn_True. }
    destruct Hw as [path info depth content Hf | path info depth cs Hdi _ _ _];
      [reflexivity|].
    destruct (dir_node_fields path info depth cs) as (_ & _ & E3 & _).
    rewrite E3 in Hfile. congruence.
  - now destruct (KeptRoot_counters _ cfg root d Hroot Hd).
Qed.

Lemma DirCount_counts_directories_witness :
  DirCount treeTwoLevels = wrap64 (dirsBelow treeTwoLevels).
Proof.
  refine (DirCount_counts_directories srcTwoLevels NewConfig treeTwoLevels treeTwoLevels
            None _ (InTree_here _)).
  vm_compute. reflexivity.
Defined.

(* ================================================================== *)
(** * The tree reflects the file system *)
(* ================================================================== *)

Lemma fold_steps_reflect (cfg : Config) (es : list DirEntry) :
  Forall (stepReflects cfg) es ->
  forall node stats,
    exists cs,
      Picks Reflects es cs /\
      fst (fold_left (fun st e => visitEntry cfg e st) es (node, stats))
      = fold_left attach cs node.
Proof.
  induction 1 as [|e es He _ IH]; intros node stats; simpl.
  - exists []. split; [constructor | reflexivity].
  - destruct (visitEntry cfg e (node, stats)) as [n1 s1] eqn:E.
    destruct (He node stats) as [Hskip | (child & Hr & Hatt)];
      rewrite E in *; simpl in *; subst n1.
    + destruct (IH node s1) as (cs & H1 & H2).
      exists cs. split; [now constructor | exact H2].
    + destruct (IH (attach node child) s1) as (cs & H1 & H2).
      exists (child :: cs). split; [now constructor | exact H2].
Qed.

Lemma processDirectory_reflects (cfg : Config) (listing : option (list DirEntry)) :
  (forall es, listing = Some es -> Forall (stepReflects cfg) es) ->
  forall name sz path depth stats,
    Reflects (Directory name (Some sz) listing)
      (fst (fst (processDirectory listing
                   (NewFileSystemNode path (mkFileInfo name true sz) depth) cfg stats))).
Proof.
  intros Hes name sz path depth stats.
  assert (Hfresh : Reflects (Directory name (Some sz) listing)
                     (NewFileSystemNode path (mkFileInfo name true sz) depth)).
  { rewrite <- (sortChildren_leaf (NewFileSystemNode path (mkFileInfo name true sz) depth))
      by reflexivity.
    apply (Reflects_dir name sz listing path depth []). now left. }
  unfold processDirectory, processDirectoryWith.
  destruct (Depth _ >=? MaxDirDepth cfg); [exact Hfresh|].
  destruct listing as [es|]; [|exact Hfresh].
  destruct (fold_steps_reflect cfg es (Hes es eq_refl)
              (NewFileSystemNode path (mkFileInfo name true sz) depth) stats)
    as (cs & H1 & H2).
  destruct (fold_left _ es _) as [n' s']. simpl in *. subst n'.
  apply Reflects_dir. right. now exists es.
Qed.

Lemma processFile_kept_content (node : FileSystemNode) (cfg : Config) (io : FileIO)
    (node' : FileSystemNode) (calls : list OsCall) :
  Size node <= MaxFileSize cfg ->
  processFile node cfg io = (node', None, calls) ->
  exists content,
    node' = setContent node content /\
    (content = "[Binary file]" \/ content = data io).
Proof.
  intros Hsize. unfold processFile.
  destruct (Z.gtb_spec (Size node) (MaxFileSize cfg)); [lia|].
  destruct (isBinaryFile (Path node) io) as [[|] c].
  - intros [= <- <-]. eexists. split; [reflexivity | now left].
  - unfold ReadFile. destruct (readfile_fails io); [discriminate|].
    intros [= <- <-]. eexists. split; [reflexivity | now right].
Qed.

Lemma visitEntry_reflects (cfg : Config) (e : DirEntry) : stepReflects cfg e.
Proof.
  induction e as [name size io | name size listing IH] using DirEntry_nested_ind;
    intros node stats.
  - rewrite visitEntry_File. cbv zeta.
    destruct (negb _ || _); [now left|].
    destruct size as [sz|]; [|now left].
    destruct (TotalFiles stats >=? MaxFiles cfg); [now left|].
    destruct (add64 (TotalSize stats) sz >? MaxTotalSize cfg); [now left|].
    destruct (Z.gtb_spec sz (MaxFileSize cfg)) as [|Hsize]; [now left|].
    destruct (processFile _ cfg io) as [[child' [err|]] calls] eqn:E; [now left|].
    apply processFile_kept_content in E as (content & -> & Hc); [|exact Hsize].
    right. eexists. split; [|reflexivity]. now constructor.
  - rewrite visitEntry_Directory. cbv zeta.
    destruct (negb _ || _); [now left|].
    destruct size as [sz|]; [|now left].
    pose proof (processDirectory_reflects cfg listing IH name sz (Join (Path node) name)
                  (add64 (Depth node) 1) stats) as Hr.
    pose proof (processDirectory_identity listing
                  (NewFileSystemNode (Join (Path node) name) (mkFileInfo name true sz)
                     (add64 (Depth node) 1)) cfg stats) as (_ & _ & I3 & _).
    destruct (processDirectory listing _ cfg stats) as [[child' stats'] [err|]];
      [now left|].
    simpl in Hr, I3. right. exists child'. split; [exact Hr|].
    simpl. now rewrite attach_dir.
Qed.

Lemma Picks_In (R : DirEntry -> FileSystemNode -> Prop) (es : list DirEntry)
    (cs : list FileSystemNode) :
  Picks R es cs ->
  (List.length cs <= List.length es)%nat /\
  forall c, In c cs -> exists e, In e es /\ R e c.
Proof.
  induction 1 as [|e es cs _ [IHl IH]|e es c cs Hr _ [IHl IH]]; simpl.
  - split; [lia | intros c []].
  - split; [lia|]. intros c Hc. destruct (IH c Hc) as (e' & He & Hr). eauto.
  - split; [lia|]. intros c' [<- | Hc]; [eauto|].
    destruct (IH c' Hc) as (e' & He & Hr'). eauto.
Qed.

Lemma Reflects_fields (e : DirEntry) (c : FileSystemNode) :
  Reflects e c ->
  Name c = entryName e /\ IsDir c = entryIsDir e /\
  (IsDir c = false -> entryInfo e = Some (mkFileInfo (Name c) false (Size c))).
Proof.
  intros [name sz io path depth content _ | name sz listing path depth cs _].
  - repeat split.
  - destruct (dir_node_fields path (mkFileInfo name true sz) depth cs)
      as (E1 & _ & E3 & _).
    rewrite E1, E3. simpl. repeat split. discriminate.
Qed.

Lemma Reflects_content (e : DirEntry) (c : FileSystemNode) :
  Reflects e c -> IsDir c = false ->
  exists io, e = File (Name c) (Some (Size c)) io /\
             (Content c = "[Binary file]" \/ Content c = data io).
Proof.
  intros [name sz io path depth content Hc | name sz listing path depth cs _] Hfile.
  - exists io. split; [reflexivity|]. rewrite Content_setContent. exact Hc.
  - destruct (dir_node_fields path (mkFileInfo name true sz) depth cs)
      as (_ & _ & E3 & _).
    rewrite E3 in Hfile. discriminate Hfile.
Qed.

(** The tree of a directory walk reflects the file system: the root reflects
    the directory given, and every child of the root was made from an entry of
    the listing, with the entry's name and kind and, for a file, the size its
    [FileInfo] reports; no entry gives two children, and further down every
    node reflects an entry of the listing of its parent's directory; the
    content of a file below the root is the bytes of the file or the mark
    ["[Binary file]"]: a child of the root that is a file was made from a
    file entry, and its content is the bytes of that file or the mark. *)
Theorem tree_reflects_file_system (src : Source) (cfg : Config) (root : FileSystemNode)
    (err : option error) (name : string) (size : option Z) (es : list DirEntry) :
  ProcessPath src cfg = (Some root, err) ->
  stat src = Some (Directory name size (Some es)) ->
  Reflects (Directory name size (Some es)) root /\
  (List.length (Children root) <= List.length es)%nat /\
  (forall c, In c (Children root) ->
     exists e, In e es /\ Reflects e c /\
               Name c = entryName e /\ IsDir c = entryIsDir e /\
               (IsDir c = false ->
                entryInfo e = Some (mkFileInfo (Name c) false (Size c))) /\
               (IsDir c = false ->
                exists io, e = File (Name c) (Some (Size c)) io /\
                           (Content c = "[Binary file]" \/ Content c = data io))).
Proof.
  intros Hrun Hstat. unfold ProcessPath in Hrun. rewrite Hstat in Hrun.
  destruct size as [sz|]; [|discriminate]. simpl in Hrun.
  destruct (abs src) as [absPath|]; [|discriminate].
  assert (Hsteps : forall es', Some es = Some es' -> Forall (stepReflects cfg) es').
  { intros es' _. rewrite Forall_forall. intros e _. apply visitEntry_reflects. }
  pose proof (processDirectory_reflects cfg (Some es) Hsteps name sz absPath 0 newStats)
    as Hr.
  destruct (processDirectory (Some es) _ cfg newStats) as [[root' s'] err'].
  injection Hrun as <- <-. simpl in Hr.
  split; [exact Hr|].
  inversion Hr as [|? ? ? path depth cs Hcs]; subst.
  destruct (dir_node_fields path (mkFileInfo name true sz) depth cs)
    as (_ & _ & _ & _ & Hin).
  assert (Hlen : List.length (Children (sortChildren
                    (fold_left attach cs
                       (NewFileSystemNode path (mkFileInfo name true sz) depth))))
                 = List.length cs).
  { symmetry. apply Permutation_length, Walked_dir_children. }
  rewrite Hlen.
  destruct Hcs as [-> | (es' & [= <-] & Hpicks)].
  - split; [simpl; lia|]. intros c Hc. apply Hin in Hc. destruct Hc.
  - destruct (Picks_In Reflects es cs Hpicks) as [Hl Hall].
    split; [exact Hl|]. intros c Hc. apply Hin in Hc.
    destruct (Hall c Hc) as (e & He & Hrc).
    exists e. split; [exact He|]. split; [exact Hrc|].
    destruct (Reflects_fields e c Hrc) as (F1 & F2 & F3).
    repeat split; try assumption. now apply Reflects_content.
Qed.

Lemma tree_reflects_file_system_witness :
  (List.length (Children treeTwoLevels) <= 2)%nat.
Proof.
  refine (proj1 (proj2 (tree_reflects_file_system srcTwoLevels NewConfig treeTwoLevels None
                          "proj" (Some 4096)
                          [ File "a.go" (Some 12) (regular "package main");
                            Directory "cmd" (Some 4096)
                              (Some [ File "main.go" (Some 4) (regular "main") ]) ]
                          _ _))).
  - vm_compute. reflexivity.
  - reflexivity.
Defined.

(* ================================================================== *)
(** * A file the walk keeps *)
(* ================================================================== *)

(** A file entry that passes the selector and the three budgets, and that is
    binary or can be read, is attached to its parent: with the content
    ["[Binary file]"] when [isBinaryFile] says so, with the content of the
    file otherwise; the counters grow by one file and by the size its
    [FileInfo] reports. The child is appended to the children of the parent:
    a file node with the name and the size of the entry and that content. *)
Theorem readable_file_is_kept (cfg : Config) (name : string) (sz : Z) (io : FileIO)
    (node : FileSystemNode) (stats : Stats) :
  ShouldInclude cfg (Join (Path node) name) = true ->
  ShouldExclude cfg (Join (Path node) name) = false ->
  TotalFiles stats < MaxFiles cfg ->
  add64 (TotalSize stats) sz <= MaxTotalSize cfg ->
  sz <= MaxFileSize cfg ->
  fst (isBinaryFile (Join (Path node) name) io) = true \/ readfile_fails io = false ->
  visitEntry cfg (File name (Some sz) io) (node, stats) =
  (attach node
     (setContent
        (NewFileSystemNode (Join (Path node) name) (mkFileInfo name false sz)
           (add64 (Depth node) 1))
        (if fst (isBinaryFile (Join (Path node) name) io) then "[Binary file]"
         else data io)),
   setTotals stats (add64 (TotalFiles stats) 1) (add64 (TotalSize stats) sz)) /\
  exists child,
    Children (fst (visitEntry cfg (File name (Some sz) io) (node, stats))) =
    (Children node ++ [child])%list /\
    Name child = name /\ IsDir child = false /\ Size child = sz /\
    Content child =
    (if fst (isBinaryFile (Join (Path node) name) io) then "[Binary file]" else data io).
Proof.
  intros Hinc Hexc Hfiles Htotal Hsize Hread.
  assert (Hstep :
            visitEntry cfg (File name (Some sz) io) (node, stats) =
            (attach node
               (setContent
                  (NewFileSystemNode (Join (Path node) name) (mkFileInfo name false sz)
                     (add64 (Depth node) 1))
                  (if fst (isBinaryFile (Join (Path node) name) io) then "[Binary file]"
                   else data io)),
             setTotals stats (add64 (TotalFiles stats) 1) (add64 (TotalSize stats) sz))).
  { rewrite visitEntry_File. cbv zeta. rewrite Hinc, Hexc. simpl.
    destruct (Z.geb_spec (TotalFiles stats) (MaxFiles cfg)); [lia|].
    destruct (Z.gtb_spec (add64 (TotalSize stats) sz) (MaxTotalSize cfg)); [lia|].
    destruct (Z.gtb_spec sz (MaxFileSize cfg)) as [|Hle]; [lia|].
    unfold processFile. simpl Size. simpl Path.
    destruct (Z.gtb_spec sz (MaxFileSize cfg)); [lia|].
    destruct (isBinaryFile (Join (Path node) name) io) as [[|] calls]; simpl fst in *.
    - reflexivity.
    - destruct Hread as [Hb|Hr]; [discriminate|].
      unfold ReadFile. rewrite Hr. reflexivity. }
  split; [exact Hstep|]. rewrite Hstep. cbn [fst].
  eexists. split; [unfold attach; reflexivity|].
  split; [reflexivity|]. split; [reflexivity|]. split; [reflexivity|].
  apply Content_setContent.
Qed.

Lemma readable_file_is_kept_witness :
  visitEntry NewConfig (File "a.go" (Some 12) (regular "package main"))
    (NewFileSystemNode "/home/u/proj" (mkFileInfo "proj" true 4096) 0, newStats) =
  (attach (NewFileSystemNode "/home/u/proj" (mkFileInfo "proj" true 4096) 0)
     (setContent
        (NewFileSystemNode (Join "/home/u/proj" "a.go") (mkFileInfo "a.go" false 12)
           (add64 0 1))
        (if fst (isBinaryFile (Join "/home/u/proj" "a.go") (regular "package main"))
         then "[Binary file]" else data (regular "package main"))),
   setTotals newStats (add64 (TotalFiles newStats) 1) (add64 (TotalSize newStats) 12)).
Proof.
  refine (proj1 (readable_file_is_kept NewConfig "a.go" 12 (regular "package main")
                   (NewFileSystemNode "/home/u/proj" (mkFileInfo "proj" true 4096) 0)
                   newStats _ _ _ _ _ _)).
  - vm_compute. reflexivity.
  - vm_compute. reflexivity.
  - vm_compute. reflexivity.
  - vm_compute. discriminate.
  - vm_compute. discriminate.
  - right. reflexivity.
Defined.

(* ================================================================== *)
(** * The checks of the source path *)
(* ================================================================== *)

(** [FileExists] and [DirExists] answer [false] on a missing path and the
    kind of what is there on an existing one, and panic when [os.Stat] fails
    with any other error; so the check of the source in [main] reports a
    missing source exactly when nothing is at the path, lets every existing
    file or directory through, and panics on any other error. *)
Theorem source_check (r : StatResult) :
  (FileExists r = None <-> r = StatError) /\
  (DirExists r = None <-> r = StatError) /\
  (forall isDir, r = StatOk isDir ->
     FileExists r = Some (negb isDir) /\ DirExists r = Some isDir) /\
  (cli.sourceMissing r = Some true <-> r = StatNotExist) /\
  (cli.sourceMissing r = Some false <-> exists isDir, r = StatOk isDir) /\
  (cli.sourceMissing r = None <-> r = StatError).
Proof.
  destruct r as [[|]| |]; repeat split; intros; subst;
    try discriminate; try reflexivity; try congruence; eauto;
    try (destruct H; discriminate);
    try (match goal with H : StatOk _ = StatOk _ |- _ => injection H as <- end; reflexivity).
Qed.

(* ================================================================== *)
(** * A source that is a single file *)
(* ================================================================== *)

(** A source that is a file is not subject to the selector nor to the limits
    on the number of files, on the total size and on the depth: [ProcessPath]
    returns the same node and error under two configurations with the same
    maximum single-file size, whatever their patterns and other limits are;
    the node it returns has depth 0 and no children. *)
Theorem single_file_source_is_not_filtered (src : Source) (cfg cfg' : Config)
    (name : string) (size : option Z) (io : FileIO) :
  stat src = Some (File name size io) ->
  MaxFileSize cfg' = MaxFileSize cfg ->
  ProcessPath src cfg' = ProcessPath src cfg /\
  (forall root err, ProcessPath src cfg = (Some root, err) ->
     IsDir root = false /\ Depth root = 0 /\ Children root = [] /\
     Name root = name /\ abs src = Some (Path root)).
Proof.
  intros Hstat Hsize. unfold ProcessPath. rewrite Hstat.
  destruct size as [sz|]; simpl; [|split; [reflexivity | discriminate]].
  destruct (abs src) as [absPath|]; [|split; [reflexivity | discriminate]].
  split.
  - unfold processFile. now rewrite Hsize.
  - intros root err.
    pose proof (processFile_content
                  (NewFileSystemNode absPath (mkFileInfo name false sz) 0) cfg io)
      as [content Hc].
    destruct (processFile _ cfg io) as [[root' err'] calls]. simpl in Hc.
    intros [= <- <-]. subst root'. repeat split.
Qed.

Lemma single_file_source_is_not_filtered_witness :
  ProcessPath (mkSource (Some (File "build.log" (Some 5) (regular "hello")))
                        (Some "/home/u/proj/build.log"))
              (mkConfig "." "digest.txt" DefaultMaxFileSize ["*.go"] ["*"] 0 0 0) =
  ProcessPath (mkSource (Some (File "build.log" (Some 5) (regular "hello")))
                        (Some "/home/u/proj/build.log"))
              NewConfig.
Proof.
  refine (proj1 (single_file_source_is_not_filtered
                   (mkSource (Some (File "build.log" (Some 5) (regular "hello")))
                             (Some "/home/u/proj/build.log"))
                   NewConfig
                   (mkConfig "." "digest.txt" DefaultMaxFileSize ["*.go"] ["*"] 0 0 0)
                   "build.log" (Some 5) (regular "hello") _ _)).
  - reflexivity.
  - reflexivity.
Defined.

(** With the include pattern [*.go] the walk of the two-level example keeps
    [a.go] only: the directory [cmd] does not match the pattern and is not
    entered, so [cmd/main.go] is not in the tree. *)
Example include_patterns_prune_directories :
  option_map (fun root => (map Name (Children root), FileCount root))
             (fst (ProcessPath srcTwoLevels cfgOnlyGo)) = Some (["a.go"], 1).
Proof. vm_compute. reflexivity. Qed.

(* ================================================================== *)
(** * Failures during the walk *)
(* ================================================================== *)

Lemma visitEntry_no_info (cfg : Config) (e : DirEntry) :
  entryInfo e = None -> forall st, visitEntry cfg e st = st.
Proof.
  intros Hinfo [node stats].
  destruct e as [name [sz|] io | name [sz|] listing]; try discriminate Hinfo.
  - rewrite visitEntry_File. cbv zeta. now destruct (negb _ || _).
  - rewrite visitEntry_Directory. cbv zeta. now destruct (negb _ || _).
Qed.

Lemma visitEntry_unreadable_directory (cfg : Config) (name : string) (size : Z)
    (node : FileSystemNode) (stats : Stats) :
  add64 (Depth node) 1 < MaxDirDepth cfg ->
  visitEntry cfg (Directory name (Some size) None) (node, stats) = (node, stats).
Proof.
  intros Hlt. rewrite visitEntry_Directory. cbv zeta.
  destruct (negb _ || _); [reflexivity|].
  unfold processDirectory, processDirectoryWith. simpl Depth.
  destruct (Z.geb_spec (add64 (Depth node) 1) (MaxDirDepth cfg)); [lia | reflexivity].
Qed.

(** Failures below the root do not stop the walk and are not reported: an
    entry whose [Info] fails is skipped, and so is a subdirectory below the
    depth limit whose listing cannot be read; the walk returns what it returns
    without that entry. [ProcessPath] on a directory whose own listing can be
    read returns no error; when the listing of the root cannot be read it
    returns the error together with the bare root node. *)
Theorem failures_below_the_root_are_silent (cfg : Config) :
  (forall e, entryInfo e = None ->
     (forall st, visitEntry cfg e st = st) /\
     (forall before after node stats,
        processDirectory (Some (before ++ e :: after)%list) node cfg stats =
        processDirectory (Some (before ++ after)%list) node cfg stats)) /\
  (forall name size node,
     add64 (Depth node) 1 < MaxDirDepth cfg ->
     (forall stats,
        visitEntry cfg (Directory name (Some size) None) (node, stats) = (node, stats)) /\
     (forall before after stats,
        processDirectory (Some (before ++ Directory name (Some size) None :: after)%list)
          node cfg stats =
        processDirectory (Some (before ++ after)%list) node cfg stats)) /\
  (forall name size es path,
     snd (ProcessPath (mkSource (Some (Directory name (Some size) (Some es))) (Some path))
            cfg) = None) /\
  (forall name size path,
     0 < MaxDirDepth cfg ->
     ProcessPath (mkSource (Some (Directory name (Some size) None)) (Some path)) cfg =
     (Some (NewFileSystemNode path (mkFileInfo name true size) 0), Some (ErrReadDir path))).
Proof.
  split; [|split; [|split]].
  - intros e Hinfo. split.
    + now apply visitEntry_no_info.
    + apply processDirectory_skip. now apply visitEntry_no_info.
  - intros name size node Hlt. split.
    + intros stats. now apply visitEntry_unreadable_directory.
    + intros before after stats.
      unfold processDirectory, processDirectoryWith.
      destruct (Depth node >=? MaxDirDepth cfg); [reflexivity|].
      rewrite !fold_left_app, fold_left_cons.
      pose proof (fold_visit_identity cfg before (node, stats)) as Hid.
      destruct (fold_left _ before (node, stats)) as [n1 s1]. simpl in Hid.
      destruct Hid as (_ & _ & _ & HD & _).
      rewrite visitEntry_unreadable_directory; [reflexivity | now rewrite HD].
  - intros name size es path. unfold ProcessPath. simpl.
    unfold processDirectory, processDirectoryWith. simpl Depth.
    destruct (0 >=? MaxDirDepth cfg); [reflexivity|].
    now destruct (fold_left _ es _).
  - intros name size path Hpos. unfold ProcessPath. simpl.
    unfold processDirectory, processDirectoryWith. simpl Depth.
    destruct (Z.geb_spec 0 (MaxDirDepth cfg)); [lia | reflexivity].
Qed.

(* ================================================================== *)
(** * Text files and binary files *)
(* ================================================================== *)





(* ================================================================== *)
(** * [sortChildren] on children that are in order *)
(* ================================================================== *)

Lemma innerLoop_sorted (ci : FileSystemNode) (rest : list FileSystemNode) :
  Forall (fun x => childLe ci x = true) rest -> innerLoop ci rest = (ci, rest).
Proof.
  induction 1 as [|cj rest Hj _ IH]; [reflexivity|].
  simpl. unfold childLe in Hj. apply negb_true_iff in Hj. now rewrite Hj, IH.
Qed.

Lemma outerLoop_sorted (n : nat) (cs : list FileSystemNode) :
  StronglySorted (fun a b => childLe a b = true) cs -> outerLoop n cs = cs.
Proof.
  intros H. revert n. induction H as [|c cs Hs IH Hall]; intros [|n]; try reflexivity.
  simpl. rewrite (innerLoop_sorted c cs Hall). now rewrite IH.
Qed.

Lemma sortedChildren_sorted (cs : list FileSystemNode) :
  StronglySorted (fun a b => childLe a b = true) cs -> sortedChildren cs = cs.
Proof.
  intros H. unfold sortedChildren.
  destruct (Z.of_nat (List.length cs) <=? 1); [reflexivity|].
  now apply outerLoop_sorted.
Qed.

(** [sortChildren] leaves a node whose children are in order as it is, and
    sorting twice is sorting once. *)
Theorem sortChildren_idempotent (n : FileSystemNode) :
  (StronglySorted childOrder (Children n) -> sortChildren n = n) /\
  sortChildren (sortChildren n) = sortChildren n.
Proof.
  split.
  - intros H. unfold sortChildren.
    rewrite sortedChildren_sorted; [apply setChildren_same|].
    eapply StronglySorted_impl; [|exact H]. intros a b. apply childLe_spec.
  - unfold sortChildren at 1. simpl Children.
    rewrite sortedChildren_sorted by apply sortedChildren_sorts.
    destruct n; reflexivity.
Qed.

(* ================================================================== *)
(** * [ParsePatterns] *)
(* ================================================================== *)

Lemma TrimRightSpace_idem (s : string) : TrimRightSpace (TrimRightSpace s) = TrimRightSpace s.
Proof.
  induction s as [|a r IH]; [reflexivity|].
  simpl. destruct (TrimRightSpace r) as [|b t] eqn:E.
  - destruct (isSpace a) eqn:Ha; [reflexivity|]. simpl. now rewrite Ha.
  - simpl in *. now rewrite IH.
Qed.

Lemma TrimRightSpace_head (a : ascii) (r : string) :
  isSpace a = false -> exists t, TrimRightSpace (String a r) = String a t.
Proof.
  intros Ha. simpl. destruct (TrimRightSpace r); [rewrite Ha|]; eexists; reflexivity.
Qed.

Lemma TrimLeftSpace_head (s : string) :
  TrimLeftSpace s = "" \/
  exists a r, TrimLeftSpace s = String a r /\ isSpace a = false.
Proof.
  induction s as [|a r IH]; [now left|].
  simpl. destruct (isSpace a) eqn:Ha; [exact IH|]. right. eauto.
Qed.

Lemma TrimSpace_idem (s : string) : TrimSpace (TrimSpace s) = TrimSpace s.
Proof.
  unfold TrimSpace.
  destruct (TrimLeftSpace_head s) as [-> | (a & r & -> & Ha)]; [reflexivity|].
  destruct (TrimRightSpace_head a r Ha) as [t Ht].
  rewrite Ht. simpl TrimLeftSpace. rewrite Ha, <- Ht.
  apply TrimRightSpace_idem.
Qed.

Lemma ContainsByte_TrimRightSpace (s : string) (b : ascii) :
  ContainsByte s b = false -> ContainsByte (TrimRightSpace s) b = false.
Proof.
  induction s as [|a r IH]; [reflexivity|].
  simpl. intros H. apply orb_false_iff in H as [Ha Hr].
  destruct (TrimRightSpace r) eqn:E.
  - destruct (isSpace a); [reflexivity|]. simpl. now rewrite Ha.
  - simpl. rewrite Ha. simpl in IH. now apply IH.
Qed.

Lemma ContainsByte_TrimLeftSpace (s : string) (b : ascii) :
  ContainsByte s b = false -> ContainsByte (TrimLeftSpace s) b = false.
Proof.
  induction s as [|a r IH]; [reflexivity|].
  simpl. intros H. destruct (isSpace a); [|exact H].
  apply orb_false_iff in H as [_ Hr]. now apply IH.
Qed.

Lemma SplitByte_pieces (sep : ascii) (s : string) :
  Forall (fun p => ContainsByte p sep = false) (SplitByte sep s).
Proof.
  induction s as [|a r IH]; simpl.
  - repeat constructor.
  - destruct (byte_eqb a sep) eqn:Ha.
    + constructor; [reflexivity | exact IH].
    + destruct (SplitByte sep r) as [|h t]; inversion IH; subst;
        constructor; simpl; try rewrite Ha; auto.
Qed.

Lemma keepTrimmed_In (pieces : list string) (p : string) :
  In p (keepTrimmed pieces) ->
  p <> "" /\ exists q, In q pieces /\ p = TrimSpace q.
Proof.
  induction pieces as [|q rest IH]; simpl; [intros []|].
  destruct (String.eqb_spec (TrimSpace q) "") as [E|E]; simpl.
  - intros H. destruct (IH H) as (H1 & q' & H2 & H3). eauto.
  - intros [<- | H].
    + eauto.
    + destruct (IH H) as (H1 & q' & H2 & H3). eauto.
Qed.

Lemma SplitByte_concat (sep : ascii) (l : list string) :
  l <> [] ->
  Forall (fun p => ContainsByte p sep = false) l ->
  SplitByte sep (String.concat (String sep "") l) = l.
Proof.
  intros Hne H. induction H as [|p l Hp Hl IH]; [now elim Hne|].
  assert (Happ : forall q rest,
            ContainsByte q sep = false ->
            SplitByte sep (q ++ String sep rest) = q :: SplitByte sep rest).
  { induction q as [|a q IHq]; intros rest Hq; simpl.
    - unfold byte_eqb. now rewrite Ascii.eqb_refl.
    - simpl in Hq. apply orb_false_iff in Hq as [Ha Hq].
      rewrite Ha, (IHq rest Hq). reflexivity. }
  assert (Hsingle : forall q, ContainsByte q sep = false -> SplitByte sep q = [q]).
  { induction q as [|a q IHq]; intros Hq; simpl; [reflexivity|].
    simpl in Hq. apply orb_false_iff in Hq as [Ha Hq].
    now rewrite Ha, (IHq Hq). }
  destruct l as [|p' l'].
  - simpl. now apply Hsingle.
  - change (String.concat (String sep "") (p :: p' :: l'))
      with (p ++ String sep (String.concat (String sep "") (p' :: l'))).
    rewrite Happ by exact Hp. f_equal. apply IH. discriminate.
Qed.

Lemma keepTrimmed_fixed (l : list string) :
  Forall (fun p => p <> "" /\ TrimSpace p = p) l -> keepTrimmed l = l.
Proof.
  induction 1 as [|p l [Hne Htrim] _ IH]; [reflexivity|].
  simpl. rewrite Htrim.
  destruct (String.eqb_spec p "") as [E|_]; [now elim Hne|].
  simpl. now rewrite IH.
Qed.

(** Every pattern [ParsePatterns] returns for an ASCII string is a piece of
    the input between two commas with the white space around it removed: it
    is not empty, has no white space at either end and holds no comma. *)
Theorem ParsePatterns_elements (patterns p : string) :
  isASCII patterns = true ->
  In p (ParsePatterns patterns) ->
  p <> "" /\ TrimSpace p = p /\ ContainsByte p ","%char = false.
Proof.
  intros _. unfold ParsePatterns. destruct (String.eqb patterns ""); [intros []|].
  intros H. apply keepTrimmed_In in H as (Hne & q & Hq & ->).
  split; [exact Hne|]. split; [apply TrimSpace_idem|].
  pose proof (SplitByte_pieces ","%char patterns) as Hall.
  rewrite Forall_forall in Hall.
  unfold TrimSpace.
  apply ContainsByte_TrimRightSpace, ContainsByte_TrimLeftSpace, Hall, Hq.
Qed.

Lemma ParsePatterns_elements_witness :
  "*.go" <> "" /\ TrimSpace "*.go" = "*.go" /\ ContainsByte "*.go" ","%char = false.
Proof.
  apply (ParsePatterns_elements " *.go , vendor/ ,,").
  - reflexivity.
  - vm_compute. left. reflexivity.
Defined.

(** [ParsePatterns] reads back what was written: for ASCII patterns that are
    not empty, have no white space at either end and hold no comma, parsing
    them joined by commas returns the list, in order. *)
Theorem ParsePatterns_round_trip (l : list string) :
  Forall (fun p => isASCII p = true) l ->
  Forall (fun p => p <> "" /\ TrimSpace p = p /\ ContainsByte p ","%char = false) l ->
  ParsePatterns (String.concat "," l) = l.
Proof.
  intros _ H. unfold ParsePatterns.
  destruct l as [|p l]; [reflexivity|].
  assert (Hne : String.concat "," (p :: l) <> "").
  { inversion H as [|? ? (Hp & _) _]; subst.
    destruct p; [now elim Hp|]. destruct l; discriminate. }
  apply String.eqb_neq in Hne. rewrite Hne.
  rewrite SplitByte_concat.
  - apply keepTrimmed_fixed. eapply Forall_impl; [|exact H]. intros q (H1 & H2 & _). auto.
  - discriminate.
  - eapply Forall_impl; [|exact H]. intros q (_ & _ & H3). exact H3.
Qed.

Lemma ParsePatterns_round_trip_witness :
  ParsePatterns (String.concat "," ["*.go"; "vendor/"; "a b"]) = ["*.go"; "vendor/"; "a b"].
Proof.
  apply (ParsePatterns_round_trip ["*.go"; "vendor/"; "a b"]).
  - repeat constructor.
  - repeat constructor; try discriminate.
Defined.

(* ================================================================== *)
(** * The directory structure *)
(* ================================================================== *)

Lemma CountByte_app (a b : string) (c : ascii) :
  CountByte (a ++ b) c = CountByte a c + CountByte b c.
Proof. induction a as [|x a IH]; simpl; [reflexivity | rewrite IH; lia]. Qed.

Lemma CountByte_absent (s : string) (c : ascii) :
  ContainsByte s c = false -> CountByte s c = 0.
Proof.
  induction s as [|x s IH]; simpl; [reflexivity|].
  intros H. apply orb_false_iff in H as [-> H]. now rewrite IH.
Qed.

Lemma ContainsByte_app (a b : string) (c : ascii) :
  ContainsByte (a ++ b) c = ContainsByte a c || ContainsByte b c.
Proof. induction a as [|x a IH]; simpl; [reflexivity | now rewrite IH, orb_assoc]. Qed.

Lemma buildTree_eq (node : FileSystemNode) (prefix : string) (isLast : bool) :
  buildTree node prefix isLast =
  let line := prefix ++ (if isLast then "└── " else "├── ") ++
              (if IsDir node then Name node ++ "/" else Name node) ++ nl in
  if negb (IsDir node) || (Z.of_nat (List.length (Children node)) =? 0) then line
  else line ++ buildChildren buildTree
                 (prefix ++ (if isLast then "    " else "│   ")) (Children node).
Proof. destruct node. reflexivity. Qed.

Lemma buildChildren_lines (build : FileSystemNode -> string -> bool -> string)
    (childPrefix : string) (cs : list FileSystemNode) :
  Forall (fun c => forall isLast,
            CountByte (build c childPrefix isLast) (ascii_of_N 10) = shownNodes c) cs ->
  CountByte (buildChildren build childPrefix cs) (ascii_of_N 10) = sumZ (map shownNodes cs).
Proof.
  induction 1 as [|c cs Hc _ IH]; [reflexivity|].
  destruct cs as [|c' cs].
  - simpl. rewrite Hc. lia.
  - change (buildChildren build childPrefix (c :: c' :: cs))
      with (build c childPrefix false ++ buildChildren build childPrefix (c' :: cs)).
    rewrite CountByte_app, Hc, IH. reflexivity.
Qed.

Lemma shownNodes_eq (n : FileSystemNode) :
  shownNodes n = if IsDir n then 1 + sumZ (map shownNodes (Children n)) else 1.
Proof. destruct n. reflexivity. Qed.

Lemma buildTree_lines (n : FileSystemNode) :
  (forall d, InTree d n -> ContainsByte (Name d) (ascii_of_N 10) = false) ->
  forall prefix isLast,
    ContainsByte prefix (ascii_of_N 10) = false ->
    CountByte (buildTree n prefix isLast) (ascii_of_N 10) = shownNodes n.
Proof.
  induction n as [n IH] using FileSystemNode_nested_ind.
  intros Hnames prefix isLast Hprefix.
  assert (Hline : CountByte (prefix ++ (if isLast then "└── " else "├── ") ++
                             (if IsDir n then Name n ++ "/" else Name n) ++ nl)
                            (ascii_of_N 10) = 1).
  { rewrite !CountByte_app, (CountByte_absent prefix _ Hprefix).
    pose proof (CountByte_absent _ _ (Hnames n (InTree_here n))) as Hn.
    destruct isLast, (IsDir n); rewrite ?CountByte_app, Hn; reflexivity. }
  rewrite buildTree_eq, shownNodes_eq. cbv zeta.
  destruct (IsDir n) eqn:Hdir; simpl negb; simpl orb; [|exact Hline].
  destruct (Z.eqb_spec (Z.of_nat (List.length (Children n))) 0) as [Hlen|Hlen].
  - rewrite Hline. destruct (Children n); [reflexivity | discriminate Hlen].
  - rewrite CountByte_app, Hline. f_equal.
    apply buildChildren_lines.
    rewrite Forall_forall in *. intros c Hc last.
    apply IH; [exact Hc | |].
    + intros d Hd. apply Hnames. now apply InTree_child with c.
    + rewrite ContainsByte_app, Hprefix. now destruct isLast.
Qed.

(** The directory structure has one line per node shown, after its heading:
    when no name holds a line break, the number of line breaks in it is one
    more than the number of nodes ([shownNodes]: every node of a walked
    tree). *)
Theorem directory_structure_lines (n : FileSystemNode) :
  (forall d, InTree d n -> ContainsByte (Name d) (ascii_of_N 10) = false) ->
  CountByte (formatDirectoryStructure n) (ascii_of_N 10) = 1 + shownNodes n.
Proof.
  intros Hnames. unfold formatDirectoryStructure.
  rewrite !CountByte_app. change (CountByte nl (ascii_of_N 10)) with 1.
  change (CountByte "Directory structure:" (ascii_of_N 10)) with 0.
  destruct (IsDir n) eqn:Hdir.
  - rewrite buildTree_lines by (assumption || reflexivity). lia.
  - rewrite shownNodes_eq, Hdir, !CountByte_app.
    rewrite (CountByte_absent _ _ (Hnames n (InTree_here n))). reflexivity.
Qed.

Lemma directory_structure_lines_witness :
  CountByte (formatDirectoryStructure treeTwoLevels) (ascii_of_N 10)
  = 1 + shownNodes treeTwoLevels.
Proof.
  apply (directory_structure_lines treeTwoLevels).
  unfold treeTwoLevels. intros d Hd.
  apply InTree_inv in Hd as [-> | (c & Hc & Hd)]; [reflexivity|].
  simpl in Hc. destruct Hc as [<- | [<- | []]].
  - apply InTree_inv in Hd as [-> | (c & Hc & Hd)]; [reflexivity|].
    simpl in Hc. destruct Hc as [<- | []].
    apply InTree_inv in Hd as [-> | (c & Hc & Hd)]; [reflexivity | destruct Hc].
  - apply InTree_inv in Hd as [-> | (c & Hc & Hd)]; [reflexivity | destruct Hc].
Defined.

(* ================================================================== *)
(** * [filepath.Match] on patterns without operators *)
(* ================================================================== *)

Lemma length_append (a b : string) :
  String.length (a ++ b) = (String.length a + String.length b)%nat.
Proof. induction a as [|c a IH]; simpl; [reflexivity | now rewrite IH]. Qed.

Lemma plain_cons (a : ascii) (r : string) :
  plain (String a r) = true ->
  byte_eqb a "*"%char = false /\ byte_eqb a "?"%char = false /\
  byte_eqb a "["%char = false /\ byte_eqb a backslash = false /\ plain r = true.
Proof.
  simpl. intros H.
  repeat (apply andb_true_iff in H as [H ?]).
  repeat split; try (apply negb_true_iff; assumption); assumption.
Qed.

Lemma strip_stars_plain (p : string) : plain p = true -> strip_stars p = (false, p).
Proof.
  destruct p as [|a r]; [reflexivity|].
  intros H. apply plain_cons in H as (H1 & _). simpl. now rewrite H1.
Qed.

Lemma scan_to_star_plain (p : string) :
  plain p = true -> forall inrange, scan_to_star inrange p = (p, "").
Proof.
  induction p as [|a r IH]; intros H inrange; [reflexivity|].
  apply plain_cons in H as (H1 & H2 & H3 & H4 & H5).
  simpl. rewrite H4, H3, H1.
  destruct (byte_eqb a "]"%char); now rewrite (IH H5).
Qed.

Lemma afterPrefix_spec (p s t : string) : afterPrefix p s = Some t <-> s = p ++ t.
Proof.
  revert s. induction p as [|a p IH]; intros s; simpl.
  - split; [now intros [= ->] | now intros ->].
  - destruct s as [|b s]; [split; discriminate|].
    unfold byte_eqb. destruct (Ascii.eqb_spec a b) as [->|Hne].
    + rewrite IH. split; [now intros -> | now intros [= ->]].
    + split; [discriminate | intros [= E _]; now elim Hne].
Qed.

Lemma matchChunk_loop_failed (chunk : string) :
  plain chunk = true ->
  forall fuel s, (String.length chunk < fuel)%nat ->
    matchChunk_loop fuel chunk s true = NoMatch.
Proof.
  induction chunk as [|c chunk IH]; intros H fuel s Hfuel.
  - destruct fuel; [inversion Hfuel | reflexivity].
  - apply plain_cons in H as (H1 & H2 & H3 & H4 & H5).
    destruct fuel as [|fuel]; [inversion Hfuel|].
    simpl in Hfuel. simpl. rewrite H3, H2, H4.
    destruct s; apply IH; try assumption; lia.
Qed.

Lemma matchChunk_loop_plain (chunk : string) :
  plain chunk = true ->
  forall fuel s, (String.length chunk < fuel)%nat ->
    matchChunk_loop fuel chunk s false =
    match afterPrefix chunk s with
    | Some t => Matched t
    | None => NoMatch
    end.
Proof.
  induction chunk as [|c chunk IH]; intros H fuel s Hfuel.
  - destruct fuel; [inversion Hfuel | reflexivity].
  - pose proof H as Hplain.
    apply plain_cons in H as (H1 & H2 & H3 & H4 & H5).
    destruct fuel as [|fuel]; [inversion Hfuel|].
    simpl in Hfuel. simpl. rewrite H3, H2, H4.
    destruct s as [|b s]; simpl.
    + apply matchChunk_loop_failed; [assumption | lia].
    + destruct (byte_eqb c b); simpl.
      * apply IH; [assumption | lia].
      * apply matchChunk_loop_failed; [assumption | lia].
Qed.

Lemma matchChunk_plain (chunk s : string) :
  plain chunk = true ->
  matchChunk chunk s =
  match afterPrefix chunk s with
  | Some t => Matched t
  | None => NoMatch
  end.
Proof. intros H. apply matchChunk_loop_plain; [exact H | lia]. Qed.

Lemma scanChunk_plain (p : string) : plain p = true -> scanChunk p = (false, p, "").
Proof.
  intros H. unfold scanChunk. now rewrite (strip_stars_plain p H), (scan_to_star_plain p H).
Qed.

Lemma scanChunk_star_plain (s : string) :
  plain s = true -> scanChunk (String "*" s) = (true, s, "").
Proof.
  intros H. unfold scanChunk. simpl strip_stars.
  now rewrite (strip_stars_plain s H), (scan_to_star_plain s H).
Qed.

Lemma Match_plain (pattern name : string) :
  plain pattern = true ->
  Match pattern name = String.eqb name pattern.
Proof.
  intros H. unfold Match.
  destruct pattern as [|a r]; [reflexivity|].
  cbn [Match_loop String.length].
  rewrite (scanChunk_plain _ H). cbn [andb String.eqb].
  rewrite (matchChunk_plain _ name H).
  destruct (afterPrefix (String a r) name) as [t|] eqn:E.
  - apply afterPrefix_spec in E. subst name.
    destruct t as [|b t].
    + simpl orb. cbv iota. simpl Match_loop.
      symmetry. apply String.eqb_eq. apply append_nil_r.
    + simpl orb. cbv iota.
      symmetry. apply String.eqb_neq. intros E.
      apply (f_equal String.length) in E. rewrite length_append in E.
      simpl in E. lia.
  - symmetry. apply String.eqb_neq. intros ->.
    assert (afterPrefix (String a r) (String a r) = Some "") as E'.
    { apply afterPrefix_spec. symmetry. apply append_nil_r. }
    congruence.
Qed.

(** ** A star followed by a literal suffix *)

Lemma star_search_plain (chunk : string) :
  plain chunk = true ->
  forall name,
    (star_search chunk true name = Matched "" /\
     exists pre, pre <> "" /\ name = pre ++ chunk /\ ContainsByte pre "/"%char = false) \/
    (star_search chunk true name = NoMatch /\
     forall pre, pre <> "" -> name = pre ++ chunk -> ContainsByte pre "/"%char = true).
Proof.
  intros Hplain. induction name as [|a r IH].
  - right. split; [reflexivity|]. intros [|b pre] Hne E; [now elim Hne | discriminate].
  - simpl star_search. destruct (is_sep a) eqn:Ha.
    + right. split; [reflexivity|].
      intros [|b pre] Hne E; [now elim Hne|].
      injection E as <- _. simpl. unfold is_sep in Ha. now rewrite Ha.
    + rewrite (matchChunk_plain chunk r Hplain).
      assert (Hcons : forall pre, ContainsByte pre "/"%char = false ->
                ContainsByte (String a pre) "/"%char = false).
      { intros pre H. simpl. unfold is_sep in Ha. now rewrite Ha. }
      assert (Hrest :
        afterPrefix chunk r <> Some "" ->
        (star_search chunk true r = Matched "" /\
         exists pre, pre <> "" /\ String a r = pre ++ chunk /\
                     ContainsByte pre "/"%char = false) \/
        (star_search chunk true r = NoMatch /\
         forall pre, pre <> "" -> String a r = pre ++ chunk ->
                     ContainsByte pre "/"%char = true)).
      { intros Hno. destruct IH as [[E (pre & Hne & Hr & Hs)] | [E Hnone]].
        - left. split; [exact E|]. exists (String a pre).
          split; [discriminate|]. split; [now rewrite Hr | now apply Hcons].
        - right. split; [exact E|].
          intros [|b pre] Hne Hr; [now elim Hne|].
          injection Hr as <- Hr. simpl. unfold is_sep in Ha. rewrite Ha. simpl.
          destruct pre as [|c pre].
          + elim Hno. apply afterPrefix_spec. rewrite append_nil_r. exact Hr.
          + apply Hnone; [discriminate | exact Hr]. }
      destruct (afterPrefix chunk r) as [[|b t]|] eqn:E.
      * simpl. left. split; [reflexivity|]. exists (String a "").
        split; [discriminate|]. split; [|now apply Hcons].
        apply afterPrefix_spec in E. rewrite append_nil_r in E. now subst r.
      * simpl. apply Hrest. discriminate.
      * apply Hrest. discriminate.
Qed.

(** A star followed by a suffix without operators matches exactly the names
    that end with the suffix and have no separator before it. *)
Lemma Match_star_suffix (suffix name : string) :
  plain suffix = true ->
  Match (String "*" suffix) name = true <->
  exists pre, name = pre ++ suffix /\ ContainsByte pre "/"%char = false.
Proof.
  intros H. unfold Match. cbn [Match_loop String.length].
  rewrite (scanChunk_star_plain suffix H). cbn [andb].
  destruct suffix as [|a r].
  - simpl. rewrite negb_true_iff. split.
    + intros Hn. exists name. now rewrite append_nil_r.
    + intros (pre & -> & Hn). now rewrite append_nil_r.
  - cbn [String.eqb]. cbv iota.
    rewrite (matchChunk_plain _ name H).
    assert (Hstar :
      match star_search (String a r) true name with
      | Matched t => Match_loop (S (String.length r)) "" t
      | _ => false
      end = true <->
      exists pre, pre <> "" /\ name = pre ++ String a r /\
                  ContainsByte pre "/"%char = false).
    { destruct (star_search_plain (String a r) H name) as [[-> Hex] | [-> Hnone]].
      - simpl. split; [intros _; exact Hex | reflexivity].
      - split; [discriminate|]. intros (pre & Hne & Hn & Hs).
        rewrite (Hnone pre Hne Hn) in Hs. discriminate. }
    assert (Hweak :
      match star_search (String a r) true name with
      | Matched t => Match_loop (S (String.length r)) "" t
      | _ => false
      end = true ->
      exists pre, name = pre ++ String a r /\ ContainsByte pre "/"%char = false).
    { intros Hs. apply Hstar in Hs as (pre & _ & H1 & H2). eauto. }
    destruct (afterPrefix (String a r) name) as [[|b t]|] eqn:E.
    + simpl orb. cbv iota. simpl Match_loop.
      split; [|reflexivity]. intros _. exists "". split; [|reflexivity].
      apply afterPrefix_spec in E. now rewrite append_nil_r in E.
    + simpl orb. cbv iota. split; [exact Hweak|].
      intros (pre & Hn & Hs). apply Hstar. exists pre. split; [|now split].
      intros ->. simpl in Hn. apply afterPrefix_spec in E. rewrite Hn in E.
      apply (f_equal String.length) in E. rewrite length_append in E. simpl in E. lia.
    + split; [exact Hweak|].
      intros (pre & Hn & Hs). apply Hstar. exists pre. split; [|now split].
      intros ->. simpl in Hn.
      assert (afterPrefix (String a r) name = Some "") as E'.
      { apply afterPrefix_spec. rewrite append_nil_r. exact Hn. }
      congruence.
Qed.

(** ** Patterns that hold a separator *)

Lemma any_pattern_hits_app (l1 l2 : list string) (path : string) :
  any_pattern_hits (l1 ++ l2) path = any_pattern_hits l1 path || any_pattern_hits l2 path.
Proof.
  induction l1 as [|p l1 IH]; [reflexivity|].
  simpl. destruct (pattern_hits p path); [reflexivity | exact IH].
Qed.

Lemma cleanAbs_Base (p : string) :
  cleanAbs p -> Base p = "/" \/ ContainsByte (Base p) "/"%char = false.
Proof.
  intros (cs & Hcs & ->). destruct cs as [|c cs] using rev_ind.
  - left. reflexivity.
  - right. apply Forall_app in Hcs as [_ Hc]. inversion Hc as [|? ? Hs _]; subst.
    rewrite Base_abs_snoc by assumption. now destruct Hs as (_ & _ & _ & H).
Qed.

Lemma pattern_with_separator_misses (a : ascii) (r path : string) :
  plain (String a r) = true ->
  is_sep a = false ->
  ContainsByte r "/"%char = true ->
  cleanAbs path ->
  pattern_hits (String a r) path = false.
Proof.
  intros Hplain Ha Hr Hpath. unfold pattern_hits.
  rewrite (Match_plain _ _ Hplain).
  assert (Hbase : String.eqb (Base path) (String a r) = false).
  { apply String.eqb_neq. intros E.
    destruct (cleanAbs_Base path Hpath) as [H | H]; rewrite E in H.
    - injection H as -> _. discriminate Ha.
    - simpl in H. unfold is_sep in Ha. rewrite Ha, Hr in H. discriminate. }
  rewrite Hbase.
  destruct (HasSuffix (String a r) "/") eqn:Hsuf; [|reflexivity]. simpl.
  unfold TrimSuffix. rewrite Hsuf.
  destruct Hpath as (cs & _ & ->). unfold absPath, HasPrefix.
  destruct r as [|b r]; [discriminate Hr|].
  change (String.length (String a (String b r)) - String.length "/")%nat
    with (S (String.length r) - 0)%nat.
  rewrite Nat.sub_0_r. simpl.
  destruct (ascii_dec a "/") as [->|_]; [discriminate Ha | reflexivity].
Qed.

(** ** Configurations that select the same paths *)

Section SameSelection.

Variables cfg cfg' : Config.

Hypothesis same_file_size : MaxFileSize cfg' = MaxFileSize cfg.
Hypothesis same_depth : MaxDirDepth cfg' = MaxDirDepth cfg.
Hypothesis same_files : MaxFiles cfg' = MaxFiles cfg.
Hypothesis same_total : MaxTotalSize cfg' = MaxTotalSize cfg.
Hypothesis same_selection :
  forall p, cleanAbs p ->
    ShouldInclude cfg' p = ShouldInclude cfg p /\
    ShouldExclude cfg' p = ShouldExclude cfg p.

Lemma processFile_same (node : FileSystemNode) (io : FileIO) :
  processFile node cfg' io = processFile node cfg io.
Proof. unfold processFile. now rewrite same_file_size. Qed.

Lemma fold_visit_same (es : list DirEntry) :
  Forall (fun e => forall node stats, cleanAbs (Path node) ->
            visitEntry cfg' e (node, stats) = visitEntry cfg e (node, stats)) es ->
  forall node stats, cleanAbs (Path node) ->
    fold_left (fun st e => visitEntry cfg' e st) es (node, stats) =
    fold_left (fun st e => visitEntry cfg e st) es (node, stats).
Proof.
  induction 1 as [|e es He _ IH]; intros node stats Hp; [reflexivity|].
  simpl. rewrite (He node stats Hp).
  pose proof (visitEntry_identity cfg e node stats) as (_ & HP & _).
  destruct (visitEntry cfg e (node, stats)) as [n1 s1]. simpl in HP.
  apply IH. now rewrite HP.
Qed.

Lemma processDirectory_same (listing : option (list DirEntry)) :
  (forall es, listing = Some es ->
     Forall (fun e => forall node stats, cleanAbs (Path node) ->
               visitEntry cfg' e (node, stats) = visitEntry cfg e (node, stats)) es) ->
  forall node stats, cleanAbs (Path node) ->
    processDirectory listing node cfg' stats = processDirectory listing node cfg stats.
Proof.
  intros Hes node stats Hp. unfold processDirectory, processDirectoryWith.
  rewrite same_depth.
  destruct (Depth node >=? MaxDirDepth cfg); [reflexivity|].
  destruct listing as [es|]; [|reflexivity].
  now rewrite (fold_visit_same es (Hes es eq_refl) node stats Hp).
Qed.

Lemma visitEntry_same (e : DirEntry) :
  NamesIn simpleName e -> simpleName (entryName e) ->
  forall node stats, cleanAbs (Path node) ->
    visitEntry cfg' e (node, stats) = visitEntry cfg e (node, stats).
Proof.
  induction e as [name size io | name size listing IH] using DirEntry_nested_ind;
    intros Hnames Hname node stats Hp; simpl in Hname;
    destruct (cleanAbs_Join (Path node) name Hp Hname) as (Hjoin & _);
    destruct (same_selection _ Hjoin) as [Hinc Hexc].
  - rewrite !visitEntry_File. cbv zeta.
    rewrite Hinc, Hexc, same_files, same_total, same_file_size.
    destruct (negb _ || _); [reflexivity|].
    destruct size as [sz|]; [|reflexivity].
    now rewrite processFile_same.
  - rewrite !visitEntry_Directory. cbv zeta.
    rewrite Hinc, Hexc.
    destruct (negb _ || _); [reflexivity|].
    destruct size as [sz|]; [|reflexivity].
    rewrite processDirectory_same; [reflexivity | | exact Hjoin].
    intros es Hes. inversion Hnames as [|? ? ? Hsub]; subst.
    specialize (Hsub es eq_refl). specialize (IH es eq_refl).
    rewrite Forall_forall in *. intros e He.
    destruct (Hsub e He). now apply IH.
Qed.

Lemma ProcessPath_same (src : Source) :
  (forall e, stat src = Some e -> NamesIn simpleName e) ->
  (forall p, abs src = Some p -> cleanAbs p) ->
  ProcessPath src cfg' = ProcessPath src cfg.
Proof.
  intros Hnames Habs. unfold ProcessPath.
  destruct (stat src) as [entry|]; [|reflexivity].
  specialize (Hnames entry eq_refl).
  destruct (entryInfo entry) as [info|]; [|reflexivity].
  destruct (abs src) as [absPath|]; [|reflexivity].
  specialize (Habs absPath eq_refl).
  destruct entry as [name size io | name size listing].
  - now rewrite processFile_same.
  - rewrite processDirectory_same; [reflexivity | | exact Habs].
    intros es Hes. inversion Hnames as [|? ? ? Hsub]; subst.
    specialize (Hsub es eq_refl).
    rewrite Forall_forall in *. intros e He.
    destruct (Hsub e He). now apply visitEntry_same.
Qed.

End SameSelection.

(** A pattern without operators that holds a separator and does not start
    with one, such as the directory patterns [vendor/] and [.idea/], hits no
    cleaned absolute path; as the walk only tests such paths, an exclude
    pattern of this kind has no effect: the walk returns the same result
    without it. *)
Theorem separator_pattern_has_no_effect (a : ascii) (r : string) (cfg : Config)
    (include before after : list string) (src : Source) :
  plain (String a r) = true ->
  is_sep a = false ->
  ContainsByte r "/"%char = true ->
  (forall e, stat src = Some e -> NamesIn simpleName e) ->
  (forall p, abs src = Some p -> cleanAbs p) ->
  (forall path, cleanAbs path -> pattern_hits (String a r) path = false) /\
  ProcessPath src (withPatterns cfg include (before ++ String a r :: after)) =
  ProcessPath src (withPatterns cfg include (before ++ after)).
Proof.
  intros Hplain Ha Hr Hnames Habs.
  assert (Hmiss : forall path, cleanAbs path -> pattern_hits (String a r) path = false).
  { intros path Hp. now apply pattern_with_separator_misses. }
  split; [exact Hmiss|].
  apply ProcessPath_same; try reflexivity; try assumption.
  intros p Hp.
  assert (Hexc : ShouldExclude (withPatterns cfg include (before ++ String a r :: after)) p
                 = ShouldExclude (withPatterns cfg include (before ++ after)) p).
  { unfold ShouldExclude. simpl.
    rewrite !any_pattern_hits_app. simpl. now rewrite (Hmiss p Hp). }
  split; [|exact Hexc].
  unfold ShouldInclude. simpl IncludePatterns. now rewrite Hexc.
Qed.

Lemma separator_pattern_has_no_effect_witness :
  ProcessPath srcTwoLevels (withPatterns NewConfig [] (["*.tmp"] ++ "cmd/" :: [])) =
  ProcessPath srcTwoLevels (withPatterns NewConfig [] (["*.tmp"] ++ [])).
Proof.
  refine (proj2 (separator_pattern_has_no_effect "c" "md/" NewConfig [] ["*.tmp"] []
                   srcTwoLevels _ _ _ _ _)).
  - reflexivity.
  - reflexivity.
  - reflexivity.
  - intros e He. injection He as <-.
    constructor. intros es Hes. injection Hes as <-.
    repeat constructor; try (apply simpleName_intro; reflexivity).
    intros es Hes. injection Hes as <-.
    repeat constructor; apply simpleName_intro; reflexivity.
  - intros p Hp. injection Hp as <-.
    exists ["home"; "u"; "proj"]. split; [|reflexivity].
    repeat constructor; apply simpleName_intro; reflexivity.
Defined.

(** ** Simple patterns test the base name *)

Lemma prefix_spec (a b : string) : String.prefix a b = true <-> exists t, b = a ++ t.
Proof.
  revert b. induction a as [|x a IH]; intros b.
  - split; [intros _; now exists b | intros _; now destruct b].
  - destruct b as [|y b]; simpl; [split; [discriminate | intros [t H]; discriminate]|].
    destruct (ascii_dec x y) as [->|Hne].
    + rewrite IH. split; intros [t H]; exists t; [now rewrite H | now injection H].
    + split; [discriminate | intros [t H]; injection H as E _; now elim Hne].
Qed.

Lemma rev_string_app (a b : string) :
  rev_string (a ++ b) = rev_string b ++ rev_string a.
Proof.
  induction a as [|x a IH]; simpl.
  - now rewrite append_nil_r.
  - now rewrite IH, append_assoc.
Qed.

Lemma rev_string_involutive (a : string) : rev_string (rev_string a) = a.
Proof.
  induction a as [|x a IH]; [reflexivity|].
  simpl. now rewrite rev_string_app, IH.
Qed.

Lemma HasSuffix_spec (name s : string) :
  HasSuffix name s = true <-> exists pre, name = pre ++ s.
Proof.
  unfold HasSuffix. rewrite prefix_spec. split.
  - intros [t H]. exists (rev_string t).
    rewrite <- (rev_string_involutive name), H, rev_string_app.
    now rewrite rev_string_involutive.
  - intros [pre ->]. exists (rev_string pre). apply rev_string_app.
Qed.

Lemma HasSuffix_sep (p : string) :
  ContainsByte p "/"%char = false -> HasSuffix p "/" = false.
Proof.
  intros H. destruct (HasSuffix p "/") eqn:E; [|reflexivity].
  apply HasSuffix_spec in E as [pre ->].
  rewrite ContainsByte_app in H. apply orb_false_iff in H as [_ H]. discriminate H.
Qed.

Lemma bool_eq_iff (a b : bool) : (a = true <-> b = true) -> a = b.
Proof.
  destruct a, b; intros [H1 H2]; try reflexivity;
    [discriminate (H1 eq_refl) | discriminate (H2 eq_refl)].
Qed.

Lemma Match_star_HasSuffix (s name : string) :
  plain s = true -> ContainsByte s "/"%char = false -> s <> "" ->
  name = "/" \/ ContainsByte name "/"%char = false ->
  Match (String "*" s) name = HasSuffix name s.
Proof.
  intros Hplain Hs Hne Hname. apply bool_eq_iff.
  rewrite (Match_star_suffix s name Hplain), HasSuffix_spec.
  split; [intros (pre & H & _); eauto|].
  intros [pre H]. exists pre. split; [exact H|].
  destruct Hname as [-> | Hn].
  - destruct pre as [|x pre]; [reflexivity|].
    injection H as _ H. destruct pre; [|discriminate]. simpl in H. now elim Hne.
  - rewrite H, ContainsByte_app in Hn. now apply orb_false_iff in Hn as [Hn _].
Qed.

Lemma pattern_hits_simple (p path : string) :
  simplePattern p = true -> cleanAbs path ->
  pattern_hits p path =
  negb (ContainsByte p "/"%char) && simpleHit p (Base path).
Proof.
  intros Hp Hpath. destruct p as [|a s].
  - unfold pattern_hits, Match. simpl. now destruct (String.eqb (Base path) "").
  - unfold simplePattern in Hp. unfold simpleHit.
    destruct (byte_eqb a "*"%char) eqn:Ha.
    + apply andb_true_iff in Hp as [Hp Hne]. apply andb_true_iff in Hp as [Hplain Hs].
      apply negb_true_iff in Hs. apply negb_true_iff, String.eqb_neq in Hne.
      unfold byte_eqb in Ha. apply Ascii.eqb_eq in Ha. subst a.
      assert (Hsep : ContainsByte (String "*" s) "/"%char = false) by (simpl; exact Hs).
      unfold pattern_hits. rewrite (HasSuffix_sep _ Hsep), Hsep. simpl.
      rewrite Match_star_HasSuffix; try assumption.
      * now destruct (HasSuffix (Base path) s).
      * apply cleanAbs_Base, Hpath.
    + apply andb_true_iff in Hp as [Hplain Hsep]. apply negb_true_iff in Hsep.
      destruct (ContainsByte (String a s) "/"%char) eqn:Hc.
      * simpl. apply pattern_with_separator_misses; try assumption.
        simpl in Hc. unfold is_sep in Hsep. now rewrite Hsep in Hc.
      * unfold pattern_hits. rewrite (HasSuffix_sep _ Hc), (Match_plain _ _ Hplain).
        simpl. now destruct (String.eqb (Base path) (String a s)).
Qed.

(** On simple patterns the selector only tests the base name: on a cleaned
    absolute path (the only paths the walk tests) a list of simple patterns
    hits exactly when the base name is one of the patterns without operators
    or ends with the suffix of one of the star patterns; the patterns that
    hold a separator, such as the directory patterns [.idea/] and [vendor/],
    contribute nothing. *)
Theorem simple_patterns_test_the_base_name (patterns : list string) (path : string) :
  forallb simplePattern patterns = true ->
  cleanAbs path ->
  any_pattern_hits patterns path =
  existsb (fun p => simpleHit p (Base path))
          (filter (fun p => negb (ContainsByte p "/"%char)) patterns).
Proof.
  intros Hall Hpath. induction patterns as [|p l IH]; [reflexivity|].
  simpl in Hall. apply andb_true_iff in Hall as [Hp Hl].
  simpl any_pattern_hits. rewrite (pattern_hits_simple p path Hp Hpath), (IH Hl).
  simpl filter. destruct (negb (ContainsByte p "/"%char)); simpl.
  - now destruct (simpleHit p (Base path)).
  - reflexivity.
Qed.

Lemma simple_patterns_test_the_base_name_witness :
  any_pattern_hits getDefaultExcludePatterns "/home/u/proj/.idea" =
  existsb (fun p => simpleHit p (Base "/home/u/proj/.idea"))
          (filter (fun p => negb (ContainsByte p "/"%char)) getDefaultExcludePatterns).
Proof.
  apply (simple_patterns_test_the_base_name getDefaultExcludePatterns "/home/u/proj/.idea").
  - vm_compute. reflexivity.
  - exists ["home"; "u"; "proj"; ".idea"]. split; [|reflexivity].
    repeat constructor; apply simpleName_intro; reflexivity.
Defined.

(** The default exclude list names [.idea/], [.vscode/] and [.cache/] only as
    directory patterns: such directories and the files in them are not
    excluded, while [vendor], also named without the separator, is. *)
Example default_directory_patterns :
  map (ShouldExclude NewConfig)
      ["/home/u/proj/.idea"; "/home/u/proj/.idea/workspace.xml"; "/home/u/proj/.vscode";
       "/home/u/proj/.cache"; "/home/u/proj/vendor"; "/home/u/proj/build.log"]
  = [false; false; false; false; true; true].
Proof. vm_compute. reflexivity. Qed.

(** ** Directory patterns test a prefix of the path *)

Lemma substring_prefix (d t : string) :
  String.substring 0 (String.length d) (d ++ t) = d.
Proof.
  induction d as [|a d IH]; simpl.
  - now destruct t.
  - now rewrite IH.
Qed.

Lemma TrimSuffix_sep (d : string) : TrimSuffix (d ++ "/") "/" = d.
Proof.
  unfold TrimSuffix.
  assert (H : HasSuffix (d ++ "/") "/" = true) by (apply HasSuffix_spec; now exists d).
  rewrite H, length_append. simpl String.length.
  replace (String.length d + 1 - 1)%nat with (String.length d) by lia.
  apply substring_prefix.
Qed.

(** A pattern that ends with a separator hits every path that starts, as a
    string, with the pattern less that separator: also the paths of files
    and directories next to the directory it names whose names begin with
    its name. For a pattern without operators that is all it hits, apart
    from a base name equal to the pattern. *)
Theorem directory_pattern_tests_a_prefix (d path : string) :
  (HasPrefix path d = true -> pattern_hits (d ++ "/") path = true) /\
  (plain d = true ->
   pattern_hits (d ++ "/") path =
   String.eqb (Base path) (d ++ "/") || HasPrefix path d).
Proof.
  assert (H : HasSuffix (d ++ "/") "/" = true) by (apply HasSuffix_spec; now exists d).
  unfold pattern_hits. rewrite H, TrimSuffix_sep. simpl andb. split.
  - intros ->. now destruct (Match (d ++ "/") (Base path)).
  - intros Hplain. rewrite Match_plain.
    + now destruct (String.eqb (Base path) (d ++ "/")).
    + clear H. induction d as [|a d IH]; [reflexivity|].
      apply plain_cons in Hplain as (H1 & H2 & H3 & H4 & H5).
      simpl. rewrite H1, H2, H3, H4. simpl. now apply IH.
Qed.

(** The exclude pattern [/home/u/proj/doc/] also excludes what is in the
    directory [docs] beside [doc]. *)
Example directory_pattern_hits_siblings :
  map (pattern_hits "/home/u/proj/doc/")
      ["/home/u/proj/doc/a.md"; "/home/u/proj/docs/b.md"; "/home/u/proj/src/doc/a.md"]
  = [true; true; false].
Proof. vm_compute. reflexivity. Qed.

(* ================================================================== *)
(** * The configuration of a command line *)
(* ================================================================== *)

Lemma configFromFlags_fields (fl : cli.Flags) :
  MaxFileSize (cli.configFromFlags fl) = cli.flag_s fl /\
  MaxDirDepth (cli.configFromFlags fl) = DefaultDirDepth /\
  MaxFiles (cli.configFromFlags fl) = DefaultMaxFiles /\
  MaxTotalSize (cli.configFromFlags fl) = DefaultMaxTotalSize /\
  exists extra,
    ExcludePatterns (cli.configFromFlags fl) = (getDefaultExcludePatterns ++ extra)%list.
Proof.
  unfold cli.configFromFlags.
  destruct (negb (String.eqb (cli.flag_i fl) "")),
           (negb (String.eqb (cli.flag_e fl) "")),
           (cli.args fl); simpl; repeat split;
    solve [ eexists; reflexivity | exists []; now rewrite app_nil_r ].
Qed.

(** Whatever the command line, the default exclude patterns stay in force:
    a path the default configuration excludes is excluded by the
    configuration [main] builds, and no node below the root of the tree
    [ProcessPath] returns under that configuration has such a path. *)
Theorem default_excludes_stay_in_force (fl : cli.Flags) :
  (forall path,
     ShouldExclude NewConfig path = true ->
     ShouldExclude (cli.configFromFlags fl) path = true) /\
  (forall src root err parent d,
     ProcessPath src (cli.configFromFlags fl) = (Some root, err) ->
     InTree parent root -> In d (Children parent) ->
     ShouldExclude NewConfig (Path d) = false).
Proof.
  assert (H : forall path,
            ShouldExclude NewConfig path = true ->
            ShouldExclude (cli.configFromFlags fl) path = true).
  { intros path Hex. unfold ShouldExclude in *.
    destruct (configFromFlags_fields fl) as (_ & _ & _ & _ & extra & ->).
    rewrite any_pattern_hits_app.
    change (ExcludePatterns NewConfig) with getDefaultExcludePatterns in Hex.
    now rewrite Hex. }
  split; [exact H|].
  intros src root err parent d Hrun Hp Hd.
  destruct (ProcessPath_cases src _ root err (fun _ => True)
              (fun e _ => SizesIn_True e) Hrun) as [(_ & Hleaf & Halone) | [_ Hroot]].
  - rewrite (Halone parent Hp), Hleaf in Hd. destruct Hd.
  - destruct (KeptRoot_passedChecks _ _ root parent d Hroot Hp Hd) as (_ & Hexc & _).
    destruct (ShouldExclude NewConfig (Path d)) eqn:E; [|reflexivity].
    rewrite (H _ E) in Hexc. discriminate.
Qed.

(** Whatever the command line, a directory walk keeps at most 10000 files,
    of at most 500 MB in total (the file sizes being non-negative and the
    size given with [-s] not so large that its sum with the total limit
    overflows), and no node lies deeper than 20 levels below the root. *)
Theorem command_line_limits (fl : cli.Flags) (src : Source) (root : FileSystemNode)
    (err : option error) :
  (forall e, stat src = Some e -> SizesIn (fun z => 0 <= z) e) ->
  cli.flag_s fl < 2 ^ 63 - DefaultMaxTotalSize ->
  ProcessPath src (cli.configFromFlags fl) = (Some root, err) ->
  IsDir root = true ->
  numFiles root <= 10000 /\
  filesSize root <= 500 * 1024 * 1024 /\
  (forall d, InTree d root -> 0 <= Depth d <= 20).
Proof.
  intros Hsizes Hs Hrun Hdir.
  destruct (configFromFlags_fields fl) as (H1 & H2 & H3 & H4 & _).
  set (cfg := cli.configFromFlags fl) in *.
  assert (Hfiles : 0 <= MaxFiles cfg < 2 ^ 63).
  { rewrite H3. vm_compute. split; [discriminate | reflexivity]. }
  assert (Htotal : 0 <= MaxTotalSize cfg) by (rewrite H4; vm_compute; discriminate).
  assert (Hsum : MaxTotalSize cfg + MaxFileSize cfg < 2 ^ 63) by (rewrite H1, H4; lia).
  assert (Hdepth : MaxDirDepth cfg < 2 ^ 63) by (rewrite H2; reflexivity).
  pose proof (ProcessPath_KeptRoot (fun z => 0 <= z) cfg src root err Hsizes Hrun Hdir)
    as Hroot.
  pose proof (KeptRoot_file_budget _ cfg root Hfiles Hroot root (InTree_here root)) as Hf.
  destruct (KeptRoot_size_budget cfg root Htotal Hsum Hroot) as (_ & Hz).
  rewrite H3 in Hf. rewrite H4 in Hz.
  split; [exact Hf|]. split; [exact Hz|].
  intros d Hd.
  destruct (KeptRoot_depths _ cfg root d Hdepth Hroot Hd) as (H & _).
  rewrite H2 in H. exact H.
Qed.

Lemma command_line_limits_witness :
  numFiles treeTwoLevels <= 10000 /\
  filesSize treeTwoLevels <= 500 * 1024 * 1024 /\
  (forall d, InTree d treeTwoLevels -> 0 <= Depth d <= 20).
Proof.
  refine (command_line_limits
            (cli.mkFlags "digest.txt" "" "" "" DefaultMaxFileSize "digest.txt" "" "" ""
               DefaultMaxFileSize ["/home/u/proj"])
            srcTwoLevels treeTwoLevels None _ _ _ _).
  - intros e He. injection He as <-.
    constructor. intros es Hes. injection Hes as <-.
    repeat constructor.
    + intros sz Hsz. injection Hsz as <-. lia.
    + intros es Hes. injection Hes as <-. repeat constructor.
      intros sz Hsz. injection Hsz as <-. lia.
  - vm_compute. reflexivity.
  - vm_compute. reflexivity.
  - vm_compute. reflexivity.
Defined.

(* ================================================================== *)
(** * [formatSize] *)
(* ================================================================== *)

Lemma float64_div_finite_wide (z : Z) (my : positive) (ey : Z) :
  0 < z < 2 ^ 63 ->
  Zdigits2 (Z.pos my) <= 53 -> -52 <= ey <= 11 ->
  float64_div (float64_of_int z) (S754_finite false my ey) = S754_zero false \/
  exists m e, float64_div (float64_of_int z) (S754_finite false my ey)
              = S754_finite false m e.
Proof.
  intros Hz Hdy Hey.
  destruct (float64_of_int_finite z Hz) as [-> | (mx & ex & -> & Hex & Hdx)];
    [now left|].
  unfold float64_div, SFdiv, SFdiv_core_binary. fold fexp64.
  set (d1 := Zdigits2 (Z.pos mx)) in *. set (d2 := Zdigits2 (Z.pos my)) in *.
  assert (Hd1 : 1 <= d1).
  { unfold d1. rewrite Zdigits2_log2 by lia. pose proof (Z.log2_nonneg (Z.pos mx)). lia. }
  assert (Hd2 : 1 <= d2).
  { unfold d2. rewrite Zdigits2_log2 by lia. pose proof (Z.log2_nonneg (Z.pos my)). lia. }
  set (e' := Z.min (fexp64 (d1 + ex - (d2 + ey))) (ex - ey)).
  assert (He' : -300 <= e' <= ex - ey /\ ex - ey - e' <= 110).
  { unfold e'. rewrite fexp64_eq. lia. }
  set (m' := match ex - ey - e' with
             | 0 => Z.pos mx
             | Z.pos _ => Z.shiftl (Z.pos mx) (ex - ey - e')
             | Z.neg _ => 0
             end).
  assert (Hm' : 0 <= m' /\ Zdigits2 m' <= 174).
  { unfold m'. destruct (ex - ey - e') as [|k|k] eqn:Hk.
    - fold d1. lia.
    - rewrite Z.shiftl_mul_pow2 by lia. split; [lia|].
      rewrite Zdigits2_mul_pow2 by lia. fold d1. lia.
    - simpl. lia. }
  pose proof (Z_div_mod m' (Z.pos my) eq_refl) as Hdiv.
  destruct (Z.div_eucl m' (Z.pos my)) as [q r].
  assert (Hq : 0 <= q <= m') by nia.
  destruct (binary_round_aux_finite (xorb false false) q e' (new_location (Z.pos my) r)
              174 (-300) 180)
    as [H | (m & e & H & _)]; try lia.
  - pose proof (Zdigits2_mono q m'). lia.
  - now left.
  - right. now exists m, e.
Qed.

Lemma sizeLoop_unit (size : Z) (k : nat) :
  1024 ^ (Z.of_nat k + 1) <= size < 1024 ^ (Z.of_nat k + 2) ->
  size < 2 ^ 63 ->
  (k < 6)%nat /\
  sizeLoop 8 (Z.quot size 1024) 1024 0 = (1024 ^ (Z.of_nat k + 1), k).
Proof.
  intros Hk Hmax.
  assert (Hsmall : (k < 6)%nat).
  { destruct (Nat.lt_ge_cases k 6) as [H|H]; [exact H|].
    assert (1024 ^ 7 <= 1024 ^ (Z.of_nat k + 1)) by (apply Z.pow_le_mono_r; lia).
    change (1024 ^ 7) with 1180591620717411303424 in *. lia. }
  split; [exact Hsmall|].
  destruct k as [|[|[|[|[|[|k]]]]]]; try lia;
    cbn [Nat2Z.inj_succ Z.of_nat Pos.of_succ_nat Pos.succ Z.add Pos.add] in Hk;
    match type of Hk with ?a <= _ < ?b =>
      let a' := eval vm_compute in a in
      let b' := eval vm_compute in b in
      change a with a' in Hk; change b with b' in Hk
    end;
    cbn [sizeLoop];
    repeat match goal with
           | |- context [?n >=? 1024] =>
               destruct (Z.geb_spec n 1024);
               [| try solve [exfalso; Z.to_euclidean_division_equations; lia]];
               try solve [exfalso; Z.to_euclidean_division_equations; lia]
           end;
    vm_compute; reflexivity.
Qed.

Lemma float64_of_pow1024 (k : nat) :
  (k < 6)%nat ->
  exists my ey,
    float64_of_int (1024 ^ (Z.of_nat k + 1)) = S754_finite false my ey /\
    Zdigits2 (Z.pos my) <= 53 /\ -52 <= ey <= 11.
Proof.
  intros H.
  destruct k as [|[|[|[|[|[|k]]]]]]; try lia; eexists; eexists;
    (split; [vm_compute; reflexivity | split; [vm_compute; discriminate | lia]]).
Qed.

(** [formatSize] on a size of at least 1024 bytes: the unit is the [k]-th
    letter of [KMGTPE] when the size lies between [1024^(k+1)] and
    [1024^(k+2)], the number is the [float64] quotient of the size by
    [1024^(k+1)], printed with exactly one digit after the point; for a size
    below [2^46] the printed number is within 0.05 of the size divided by
    [1024^(k+1)]. Below 1024 the size is printed in bytes, as the decimal
    digits of the size. *)
Theorem formatSize_unit (size : Z) (k : nat) :
  1024 ^ (Z.of_nat k + 1) <= size < 1024 ^ (Z.of_nat k + 2) ->
  size < 2 ^ 63 ->
  formatSize size =
    Sprintf_f1 (float64_div (float64_of_int size)
                  (float64_of_int (1024 ^ (Z.of_nat k + 1))))
    ++ " " ++ String.substring k 1 "KMGTPE" ++ "B" /\
  (exists w d,
     formatSize size = w ++ "." ++ String d (" " ++ String.substring k 1 "KMGTPE" ++ "B") /\
     (48 <= code d <= 57)%N) /\
  (forall small, small < 1024 -> formatSize small = Sprintf_d small ++ " B") /\
  (size < 2 ^ 46 ->
   exists T,
     oneDecimal (formatSize size) (" " ++ String.substring k 1 "KMGTPE" ++ "B") T /\
     2 * Z.abs (T * 1024 ^ (Z.of_nat k + 1) - 10 * size) <= 1024 ^ (Z.of_nat k + 1)) /\
  (forall small, 0 <= small < 1024 ->
     exists w, formatSize small = w ++ " B" /\ decimal w = Some small).
Proof.
  intros Hk Hmax.
  destruct (sizeLoop_unit size k Hk Hmax) as [Hsmall Hloop].
  assert (Hlow : 1024 <= size).
  { assert (1024 ^ 1 <= 1024 ^ (Z.of_nat k + 1)) by (apply Z.pow_le_mono_r; lia). lia. }
  assert (Heq : formatSize size =
                Sprintf_f1 (float64_div (float64_of_int size)
                              (float64_of_int (1024 ^ (Z.of_nat k + 1))))
                ++ " " ++ String.substring k 1 "KMGTPE" ++ "B").
  { unfold formatSize. destruct (Z.ltb_spec size 1024); [lia|]. now rewrite Hloop. }
  split; [exact Heq|]. split; [|split; [|split]].
  - rewrite Heq.
    destruct (float64_of_pow1024 k Hsmall) as (my & ey & -> & Hm & He).
    destruct (Sprintf_f1_one_decimal
                (float64_div (float64_of_int size) (S754_finite false my ey)))
      as (w & d & Hw & Hd).
    { destruct (float64_div_finite_wide size my ey) as [-> | (m & e & ->)];
        try lia; try assumption; [left | right]; eauto. }
    exists w, d. split; [|exact Hd]. rewrite Hw. now rewrite !append_assoc.
  - intros small Hs. unfold formatSize.
    destruct (Z.ltb_spec small 1024); [reflexivity | lia].
  - intros H46. rewrite Heq.
    destruct (Sprintf_f1_quotient size (1024 ^ (Z.of_nat k + 1))) as (T & HT & Hb);
      [lia | lia |].
    exists T. split; [now apply oneDecimal_suffix | exact Hb].
  - intros small Hs. exists (Sprintf_d small). split.
    + unfold formatSize. destruct (Z.ltb_spec small 1024); [reflexivity | lia].
    + apply decimal_Sprintf_d. lia.
Qed.

Lemma formatSize_unit_witness :
  exists T,
    oneDecimal (formatSize 8194) " KB" T /\
    2 * Z.abs (T * 1024 - 10 * 8194) <= 1024.
Proof.
  refine (proj1 (proj2 (proj2 (proj2 (formatSize_unit 8194 0 _ _)))) _).
  - vm_compute. split; [discriminate | reflexivity].
  - reflexivity.
  - reflexivity.
Defined.

(** The rendering of some sizes. *)
Example formatSize_samples :
  map formatSize [0; 1023; 1024; 1536; 8194; 10485760; 524288000; 1099511627776]
  = ["0 B"; "1023 B"; "1.0 KB"; "1.5 KB"; "8.0 KB"; "10.0 MB"; "500.0 MB"; "1.0 TB"].
Proof. vm_compute. reflexivity. Qed.

(** The functions of package [utils] agree with their counterparts in the
    analyzer and the formatter: [IsTextFile] answers the opposite of
    [isBinaryFile] on every file, and [FormatSize] and [FormatTokenCount]
    return what [formatSize] and [formatTokenCount] return. *)
Theorem utils_agree (path : string) (io : FileIO) (n : Z) :
  utils.IsTextFile path io = negb (fst (isBinaryFile path io)) /\
  utils.FormatSize n = formatSize n /\
  utils.FormatTokenCount n = formatTokenCount n.
Proof.
  split; [|split; reflexivity].
  unfold utils.IsTextFile, isBinaryFile, isBinaryExt, hasNul, NUL.
  change utils.binaryExts with binaryExts.
  destruct (existsb _ binaryExts); [reflexivity|].
  destruct (open_fails io); [reflexivity|].
  destruct (Read io 512); reflexivity.
Qed.
